(** * A shallow embedding of the segregated-free-list allocator [mm.c]

    The allocator of [CSE4009_System_Programming/assignment2/mm.c] is a
    32-bit program: block pointers are cast to [unsigned int] and stored in
    heap words.  Addresses and [size_t] values are modelled as [Z] with the
    wrap-around modulo [2^32] written out, the heap as a map from byte
    addresses to 32-bit words, and every routine as a function in a small
    state-and-error monad over the allocator's global state. *)

From Stdlib Require Import ZArith List Lia Bool String.
Import ListNotations.
Open Scope Z_scope.

(** ** Machine words *)

Definition wrap (x : Z) : Z := x mod 2 ^ 32.

(* conversion of an [unsigned]/[size_t] value to [int] *)
Definition to_int (x : Z) : Z := if x <? 2 ^ 31 then x else x - 2 ^ 32.

Definition WSIZE : Z := 4.
Definition DSIZE : Z := 8.
Definition CHUNKSIZE : Z := Z.shiftl 1 12.
Definition ClassSize : Z := 17.
Definition BLOCKSIZE : Z := 4 * WSIZE.

Definition MAX (x y : Z) : Z := if x >? y then x else y.
Definition MIN (x y : Z) : Z := if x >? y then y else x.

Definition PACK (size alloc : Z) : Z := Z.lor size alloc.

Definition NULL : Z := 0.

(** ** Global state and the monad of the allocator's routines *)

Record state : Type := mkState {
  mem : Z -> Z;            (* heap words, keyed by byte address *)
  mem_start_brk : Z;       (* first byte of the managed region *)
  mem_brk : Z;             (* one past the last byte of the managed region *)
  mem_max_addr : Z;        (* platform limit of the region *)
  HeapBlocks : Z;          (* static char *HeapBlocks *)
  FreeBlocks : Z;          (* static char **FreeBlocks *)
  console : list string    (* lines written by printf *)
}.

Inductive error : Type :=
| BadRead (a : Z)          (* word read outside the managed region *)
| BadWrite (a : Z)         (* word write outside the managed region *)
| NoReturn.                (* a list traversal that never ends *)

Inductive result (A : Type) : Type :=
| Ok (a : A) (s : state)
| Err (e : error).
Arguments Ok {A} a s.
Arguments Err {A} e.

Definition M (A : Type) : Type := state -> result A.

Definition ret {A} (a : A) : M A := fun s => Ok a s.

Definition bind {A B} (c : M A) (k : A -> M B) : M B :=
  fun s => match c s with
           | Ok a s' => k a s'
           | Err e => Err e
           end.

Notation "x <- c ;; k" := (bind c (fun x => k))
  (at level 61, c at next level, right associativity).
Notation "c ;;; k" := (bind c (fun _ => k))
  (at level 61, right associativity).

Definition set_mem (s : state) (m : Z -> Z) : state :=
  mkState m (mem_start_brk s) (mem_brk s) (mem_max_addr s)
          (HeapBlocks s) (FreeBlocks s) (console s).

Definition set_brk (s : state) (b : Z) : state :=
  mkState (mem s) (mem_start_brk s) b (mem_max_addr s)
          (HeapBlocks s) (FreeBlocks s) (console s).

Definition set_HeapBlocks (v : Z) : M unit := fun s =>
  Ok tt (mkState (mem s) (mem_start_brk s) (mem_brk s) (mem_max_addr s)
                 v (FreeBlocks s) (console s)).

Definition set_FreeBlocks (v : Z) : M unit := fun s =>
  Ok tt (mkState (mem s) (mem_start_brk s) (mem_brk s) (mem_max_addr s)
                 (HeapBlocks s) v (console s)).

Definition get_HeapBlocks : M Z := fun s => Ok (HeapBlocks s) s.
Definition get_FreeBlocks : M Z := fun s => Ok (FreeBlocks s) s.

Definition printf (line : string) : M unit := fun s =>
  Ok tt (mkState (mem s) (mem_start_brk s) (mem_brk s) (mem_max_addr s)
                 (HeapBlocks s) (FreeBlocks s) (console s ++ [line])).

(** A word access is defined when the word lies inside the managed region
    and is word aligned; anything else is an error of the embedding. *)
Definition valid (s : state) (p : Z) : bool :=
  (mem_start_brk s <=? p) && (p + WSIZE <=? mem_brk s) && (p mod WSIZE =? 0).

Definition upd (m : Z -> Z) (p v : Z) : Z -> Z :=
  fun a => if a =? p then v else m a.

(* GET(p) = *(unsigned int * )(p) *)
Definition GET (p : Z) : M Z := fun s =>
  if valid s p then Ok (mem s p) s else Err (BadRead p).

(* PUT(p, val) *)
Definition PUT (p v : Z) : M unit := fun s =>
  if valid s p then Ok tt (set_mem s (upd (mem s) p (wrap v)))
  else Err (BadWrite p).

Definition size_of_word (v : Z) : Z := Z.land v (wrap (Z.lnot 7)).
Definition alloc_of_word (v : Z) : Z := Z.land v 1.

Definition GET_SIZE (p : Z) : M Z := v <- GET p ;; ret (size_of_word v).
Definition GET_ALLOC (p : Z) : M Z := v <- GET p ;; ret (alloc_of_word v).

Definition p_to_char (bp : Z) : Z := bp.
Definition pAtC (bp : Z) : Z := wrap (bp + WSIZE).
Definition p_char_GET (bp : Z) : M Z := GET (p_to_char bp).
Definition pAtC_GET (bp : Z) : M Z := GET (pAtC bp).

Definition HDRP (bp : Z) : Z := wrap (bp - WSIZE).
Definition FTRP (bp : Z) : M Z :=
  sz <- GET_SIZE (HDRP bp) ;; ret (wrap (wrap (bp + sz) - DSIZE)).
Definition PREV_BLKP (bp : Z) : M Z :=
  sz <- GET_SIZE (wrap (bp - DSIZE)) ;; ret (wrap (bp - sz)).
Definition NEXT_BLKP (bp : Z) : M Z :=
  sz <- GET_SIZE (HDRP bp) ;; ret (wrap (bp + sz)).

(** Modelled from the spec: the heap-growth primitive [mem_sbrk] of
    [memlib.c], which is not part of the sources.  It extends the managed
    region by the requested byte count and returns the old end address, or
    the failure sentinel [(void * )-1] when the request is negative or the
    platform limit would be exceeded. *)
Definition mem_sbrk (incr : Z) : M Z := fun s =>
  if (to_int incr <? 0) || (mem_max_addr s <? mem_brk s + to_int incr)
  then Ok (wrap (-1)) s
  else Ok (mem_brk s) (set_brk s (mem_brk s + to_int incr)).

(** [memset(p, 0, n)] and [memcpy(dst, src, n)] on whole words. *)
Definition range_ok (s : state) (p n : Z) : bool :=
  (mem_start_brk s <=? p) && (p + n <=? mem_brk s) && (p mod WSIZE =? 0).

Definition memset0 (p n : Z) : M unit := fun s =>
  if n =? 0 then Ok tt s
  else if range_ok s p n
  then Ok tt (set_mem s (fun a => if (p <=? a) && (a <? p + n) then 0
                                  else mem s a))
  else Err (BadWrite p).

Definition memcpy (dst src n : Z) : M unit := fun s =>
  if n =? 0 then Ok tt s
  else if negb (range_ok s src n) then Err (BadRead src)
  else if negb (range_ok s dst n) then Err (BadWrite dst)
  else Ok tt (set_mem s (fun a => if (dst <=? a) && (a <? dst + n)
                                  then mem s (a - dst + src)
                                  else mem s a)).

(** ** The size-class function

    The loop shared by [find_fit] and [free_list_insert]: at most
    [ClassSize - 1] halvings, so sixteen rounds of fuel are exact. *)
Fixpoint class_loop (fuel : nat) (size size_class sumr : Z) : Z * Z * Z :=
  match fuel with
  | O => (size, size_class, sumr)
  | S fuel' =>
      if (size >? BLOCKSIZE) && (size_class <? ClassSize - 1)
      then class_loop fuel' (size / 2) (size_class + 1) (sumr + size mod 2)
      else (size, size_class, sumr)
  end.

Definition size_class_of (size : Z) : Z :=
  match class_loop 16 size 0 0 with
  | (size', size_class, sumr) =>
      if (size_class <? ClassSize - 1) && (sumr >? 0) && (size' =? BLOCKSIZE)
      then size_class + 1
      else size_class
  end.

(** ** The free-list index *)

Definition put_head_foot (bp size t : Z) : M unit :=
  PUT (HDRP bp) (PACK size t) ;;;
  f <- FTRP bp ;;
  PUT f (PACK size t).

Definition put (bp t : Z) : M unit :=
  PUT (p_to_char bp) t ;;;
  PUT (pAtC bp) t.

Definition free_list_insert (bp : Z) : M unit :=
  size <- GET_SIZE (HDRP bp) ;;
  fb <- get_FreeBlocks ;;
  let bp_val := bp in
  let size_class := size_class_of size in
  let size_class_ptr := wrap (fb + WSIZE * size_class) in
  h <- GET size_class_ptr ;;
  if h =? 0 then
    PUT size_class_ptr bp_val ;;;
    PUT (p_to_char bp) size_class_ptr ;;;
    PUT (pAtC bp) 0
  else
    PUT (p_to_char bp) size_class_ptr ;;;
    h1 <- GET size_class_ptr ;;
    PUT (pAtC bp) h1 ;;;
    h2 <- GET size_class_ptr ;;
    PUT (p_to_char h2) bp_val ;;;
    PUT size_class_ptr bp_val.

(* the flag [pre] of free_list_remove: the previous link [valP] of a node
   points to another node, not to a slot of the bucket array at [p] *)
Definition pre_flag (p valP : Z) : bool :=
  let f := wrap (p + WSIZE * (ClassSize - 1)) in
  if (valP >? f) || (valP <? p) then true
  else if negb (wrap (f - valP) mod WSIZE =? 0) then true
  else false.

Definition free_list_remove (bp : Z) : M unit :=
  valP <- p_char_GET bp ;;
  p <- get_FreeBlocks ;;
  let pre := pre_flag p valP in
  nx <- pAtC_GET bp ;;
  let suc := negb (nx =? 0) in
  a <- GET_ALLOC (HDRP bp) ;;
  if negb (a =? 0) then
    printf "calling free_list_remove on an allocated block"
  else
    (if negb pre && suc then
       pv <- p_char_GET bp ;; nv <- pAtC_GET bp ;; PUT pv nv ;;;
       nv' <- pAtC_GET bp ;; pv' <- p_char_GET bp ;; PUT (p_to_char nv') pv'
     else if negb pre && negb suc then
       pv <- p_char_GET bp ;; nv <- pAtC_GET bp ;; PUT pv nv
     else if pre && suc then
       pv <- p_char_GET bp ;; nv <- pAtC_GET bp ;; PUT (pAtC pv) nv ;;;
       nv' <- pAtC_GET bp ;; pv' <- p_char_GET bp ;; PUT (p_to_char nv') pv'
     else
       pv <- p_char_GET bp ;; PUT (pAtC pv) 0) ;;;
    PUT (p_to_char bp) 0 ;;;
    PUT (pAtC bp) 0.

(** ** Boundary-tag coalescing *)

Definition coalesce (bp : Z) : M Z :=
  pb <- PREV_BLKP bp ;; pf <- FTRP pb ;; prev_alloc <- GET_ALLOC pf ;;
  nb <- NEXT_BLKP bp ;; next_alloc <- GET_ALLOC (HDRP nb) ;;
  size <- GET_SIZE (HDRP bp) ;;
  if negb (prev_alloc =? 0) && negb (next_alloc =? 0) then      (* Case 1 *)
    ret bp
  else if negb (prev_alloc =? 0) && (next_alloc =? 0) then      (* Case 2 *)
    nb <- NEXT_BLKP bp ;; free_list_remove nb ;;;
    nb <- NEXT_BLKP bp ;; nsz <- GET_SIZE (HDRP nb) ;;
    let size := wrap (size + nsz) in
    PUT (HDRP bp) (PACK size 0) ;;;
    f <- FTRP bp ;; PUT f (PACK size 0) ;;;
    ret bp
  else if (prev_alloc =? 0) && negb (next_alloc =? 0) then      (* Case 3 *)
    pb <- PREV_BLKP bp ;; free_list_remove pb ;;;
    pb <- PREV_BLKP bp ;; psz <- GET_SIZE (HDRP pb) ;;
    let size := wrap (size + psz) in
    f <- FTRP bp ;; PUT f (PACK size 0) ;;;
    pb <- PREV_BLKP bp ;; PUT (HDRP pb) (PACK size 0) ;;;
    pb <- PREV_BLKP bp ;;
    ret pb
  else                                                          (* Case 4 *)
    pb <- PREV_BLKP bp ;; free_list_remove pb ;;;
    nb <- NEXT_BLKP bp ;; free_list_remove nb ;;;
    pb <- PREV_BLKP bp ;; psz <- GET_SIZE (HDRP pb) ;;
    nb <- NEXT_BLKP bp ;; nf <- FTRP nb ;; nsz <- GET_SIZE nf ;;
    let size := wrap (size + wrap (psz + nsz)) in
    pb <- PREV_BLKP bp ;; PUT (HDRP pb) (PACK size 0) ;;;
    nb <- NEXT_BLKP bp ;; nf <- FTRP nb ;; PUT nf (PACK size 0) ;;;
    pb <- PREV_BLKP bp ;;
    ret pb.

Definition extend_heap (words : Z) : M Z :=
  let size := if negb (words mod 2 =? 0) then wrap (wrap (words + 1) * WSIZE)
              else wrap (words * WSIZE) in
  bp <- mem_sbrk size ;;
  if to_int bp =? -1 then ret NULL
  else
    PUT (HDRP bp) (PACK size 0) ;;;
    f <- FTRP bp ;; PUT f (PACK size 0) ;;;
    nb <- NEXT_BLKP bp ;; PUT (HDRP nb) (PACK 0 1) ;;;
    bp <- coalesce bp ;;
    free_list_insert bp ;;;
    ret bp.

(** ** Placement and search *)

Definition place (bp asize : Z) : M unit :=
  csize <- GET_SIZE (HDRP bp) ;;
  if wrap (csize - asize) >=? BLOCKSIZE then
    free_list_remove bp ;;;
    PUT (HDRP bp) (PACK asize 1) ;;;
    f <- FTRP bp ;; PUT f (PACK asize 1) ;;;
    bp <- NEXT_BLKP bp ;;
    PUT (HDRP bp) (PACK (wrap (csize - asize)) 0) ;;;
    f <- FTRP bp ;; PUT f (PACK (wrap (csize - asize)) 0) ;;;
    PUT (p_to_char bp) 0 ;;;
    PUT (pAtC bp) 0 ;;;
    free_list_insert bp
  else
    free_list_remove bp ;;;
    PUT (HDRP bp) (PACK csize 1) ;;;
    f <- FTRP bp ;; PUT f (PACK csize 1).

(* the inner loop of find_fit: walk one bucket's list from [bp] *)
Fixpoint scan_list (fuel : nat) (tmp_s bp : Z) : M Z :=
  match fuel with
  | O => fun _ => Err NoReturn
  | S fuel' =>
      if bp =? 0 then ret NULL
      else
        sizeB <- GET_SIZE (HDRP bp) ;;
        if tmp_s <=? sizeB then ret bp
        else nx <- pAtC_GET bp ;; scan_list fuel' tmp_s nx
  end.

(* a list of the heap has no more nodes than the region has words, unless it
   is cyclic; the C loop does not return on a cyclic list *)
Definition list_fuel (s : state) : nat :=
  S (Z.to_nat ((mem_brk s - mem_start_brk s) / WSIZE)).

(* the outer loop of find_fit: buckets [size_class .. ClassSize - 1] *)
Fixpoint scan_classes (fuel : nat) (tmp_s size_class : Z) : M Z :=
  match fuel with
  | O => ret NULL
  | S fuel' =>
      if size_class <? ClassSize then
        fb <- get_FreeBlocks ;;
        let class_p := wrap (fb + WSIZE * size_class) in
        h <- GET class_p ;;
        r <- (if negb (h =? 0) then
                bp <- GET class_p ;;
                fun s => scan_list (list_fuel s) tmp_s bp s
              else ret NULL) ;;
        if negb (r =? 0) then ret r
        else scan_classes fuel' tmp_s (size_class + 1)
      else ret NULL
  end.

Definition find_fit (asize : Z) : M Z :=
  scan_classes 17 asize (size_class_of asize).

(** ** The public operations *)

Definition mm_init : M Z :=
  hb <- mem_sbrk (WSIZE * (ClassSize + 2 + 1)) ;;
  set_HeapBlocks hb ;;;
  if to_int hb =? -1 then ret (-1)
  else
    memset0 hb (ClassSize * WSIZE) ;;;
    set_FreeBlocks hb ;;;
    let hb := wrap (hb + ClassSize * WSIZE) in
    set_HeapBlocks hb ;;;
    PUT hb (PACK DSIZE 1) ;;;
    PUT (wrap (hb + 1 * WSIZE)) (PACK DSIZE 1) ;;;
    PUT (wrap (hb + 2 * WSIZE)) (PACK 0 1) ;;;
    set_HeapBlocks (wrap (hb + 1 * WSIZE)) ;;;
    r <- extend_heap (CHUNKSIZE / WSIZE) ;;
    if r =? NULL then ret (-1) else ret 0.

(* the rounding of a request to a block size, shared by malloc and realloc *)
Definition round_size (size : Z) : Z :=
  if size >? DSIZE
  then wrap (DSIZE * (wrap (wrap (size + DSIZE) + (DSIZE - 1)) / DSIZE))
  else 2 * DSIZE.

Definition mm_malloc (size : Z) : M Z :=
  if size <=? 0 then ret NULL
  else
    let size2 := round_size size in
    bp <- find_fit size2 ;;
    if negb (bp =? NULL) then
      place bp size2 ;;; ret bp
    else
      let newSize := MAX size2 CHUNKSIZE in
      bp <- extend_heap (newSize / WSIZE) ;;
      if bp =? NULL then ret NULL
      else place bp size2 ;;; ret bp.

Definition mm_free (bp : Z) : M unit :=
  size <- GET_SIZE (HDRP bp) ;;
  put_head_foot bp size 0 ;;;
  put bp 0 ;;;
  b <- coalesce bp ;;
  free_list_insert b.

Definition mm_realloc (oldbp size : Z) : M Z :=
  old_size <- GET_SIZE (HDRP oldbp) ;;
  if oldbp =? NULL then mm_malloc size
  else if size =? 0 then mm_free oldbp ;;; ret NULL
  else
    let size2 := if size <=? DSIZE then 2 * DSIZE
                 else wrap (DSIZE * (wrap (wrap (size + DSIZE) + (DSIZE - 1))
                                     / DSIZE)) in
    if size2 =? old_size then ret oldbp
    else if size2 >? old_size then
      nb <- NEXT_BLKP oldbp ;; next_block <- GET_SIZE (HDRP nb) ;;
      nb <- NEXT_BLKP oldbp ;; na <- GET_ALLOC (HDRP nb) ;;
      if (na =? 0) && (wrap (next_block + old_size) >=? size2) then
        nb <- NEXT_BLKP oldbp ;; free_list_remove nb ;;;
        put_head_foot oldbp (wrap (old_size + next_block)) 1 ;;;
        ret oldbp
      else
        newbp <- mm_malloc size ;;
        let copy_size := wrap (old_size - DSIZE) in
        memcpy newbp oldbp copy_size ;;;
        mm_free oldbp ;;;
        ret newbp
    else
      (if wrap (old_size - size2) >=? BLOCKSIZE then
         put_head_foot oldbp size2 1 ;;;
         newbp <- NEXT_BLKP oldbp ;;
         put_head_foot newbp (wrap (old_size - size2)) 0 ;;;
         put newbp 0 ;;;
         free_list_insert newbp
       else ret tt) ;;;
      ret oldbp.

(** ** Abstract view of a heap state

    A state is described by the list of its user blocks, in address order,
    each with its size and allocated bit, and by the list of block addresses
    linked in each bucket of the index, head first. *)

Definition b2z (b : bool) : Z := if b then 1 else 0.

(* the header/footer word of a block *)
Definition tag (sz : Z) (al : bool) : Z := sz + b2z al.

Fixpoint total (bl : list (Z * bool)) : Z :=
  match bl with
  | [] => 0
  | (sz, _) :: r => sz + total r
  end.

(* the blocks with their payload addresses, the first one at [a] *)
Fixpoint blist (a : Z) (bl : list (Z * bool)) : list (Z * Z * bool) :=
  match bl with
  | [] => []
  | (sz, al) :: r => (a, sz, al) :: blist (a + sz) r
  end.

(* every block has at least the minimum size and a size multiple of 8 *)
Definition sizes_ok (bl : list (Z * bool)) : Prop :=
  forall sz al, In (sz, al) bl -> 16 <= sz /\ sz mod 8 = 0.

(* header and footer of every block hold its size and allocated bit *)
Definition blocks_ok (m : Z -> Z) (first : Z) (bl : list (Z * bool)) : Prop :=
  forall a sz al, In (a, sz, al) (blist first bl) ->
    m (a - 4) = tag sz al /\ m (a + sz - 8) = tag sz al.

(* a doubly linked list segment: the first node points back to [prev], the
   last node's next link is [nxt] *)
Fixpoint dlseg (m : Z -> Z) (prev nxt : Z) (l : list Z) : Prop :=
  match l with
  | [] => True
  | a :: r => m a = prev /\ m (a + 4) = hd nxt r /\ dlseg m a nxt r
  end.

(* a null-terminated doubly linked list *)
Definition dll (m : Z -> Z) (prev : Z) (l : list Z) : Prop := dlseg m prev 0 l.

Record layout (s : state) (bl : list (Z * bool)) : Prop := mkLayout {
  lay_start : mem_start_brk s = FreeBlocks s;
  lay_align : FreeBlocks s mod 8 = 0;
  lay_pos : 0 < FreeBlocks s;
  lay_hb : HeapBlocks s = FreeBlocks s + 72;
  lay_pro_h : mem s (FreeBlocks s + 68) = 9;
  lay_pro_f : mem s (FreeBlocks s + 72) = 9;
  lay_sizes : sizes_ok bl;
  lay_blocks : blocks_ok (mem s) (FreeBlocks s + 80) bl;
  lay_brk : mem_brk s = FreeBlocks s + 80 + total bl;
  lay_epi : mem s (mem_brk s - 4) = 1;
  lay_max : mem_brk s <= mem_max_addr s;
  lay_lim : mem_max_addr s < 2 ^ 32
}.

Definition index_ok (s : state) (idx : Z -> list Z) : Prop :=
  forall k, 0 <= k < 17 ->
    mem s (FreeBlocks s + 4 * k) = hd 0 (idx k) /\
    dll (mem s) (FreeBlocks s + 4 * k) (idx k).

(* every linked node is a free block, filed under its size class, once *)
Definition nodes_ok (first : Z) (bl : list (Z * bool)) (idx : Z -> list Z)
  : Prop :=
  (forall k a, 0 <= k < 17 -> In a (idx k) ->
     exists sz, In (a, sz, false) (blist first bl) /\ size_class_of sz = k) /\
  (forall k, 0 <= k < 17 -> NoDup (idx k)).

(* every free block is linked *)
Definition complete (first : Z) (bl : list (Z * bool)) (idx : Z -> list Z)
  : Prop :=
  forall a sz, In (a, sz, false) (blist first bl) ->
    In a (idx (size_class_of sz)).

Definition rep (s : state) (bl : list (Z * bool)) (idx : Z -> list Z) : Prop :=
  layout s bl /\ index_ok s idx /\ nodes_ok (FreeBlocks s + 80) bl idx.

Definition heap_ok (s : state) : Prop :=
  exists bl idx, rep s bl idx /\ complete (FreeBlocks s + 80) bl idx.

(** ** Total-correctness weakest preconditions *)

Definition wp {A} (c : M A) (Q : A -> state -> Prop) (s : state) : Prop :=
  exists a s', c s = Ok a s' /\ Q a s'.

(* the index with bucket [c] replaced by [l] *)
Definition idx_set (idx : Z -> list Z) (c : Z) (l : list Z) : Z -> list Z :=
  fun k => if k =? c then l else idx k.

(* operations inside the allocator never move the region's bounds *)
Definition same_region (s s' : state) : Prop :=
  mem_start_brk s' = mem_start_brk s /\ mem_brk s' = mem_brk s /\
  mem_max_addr s' = mem_max_addr s /\ HeapBlocks s' = HeapBlocks s /\
  FreeBlocks s' = FreeBlocks s /\ console s' = console s.

(* the words the index operations may write: the bucket array and the two
   link words of the free blocks *)
Definition link_word (s : state) (bl : list (Z * bool)) (a : Z) : Prop :=
  FreeBlocks s <= a < FreeBlocks s + 68 \/
  exists b sz, In (b, sz, false) (blist (FreeBlocks s + 80) bl) /\
               (a = b \/ a = b + 4).

(* the index without the node [a] *)
Definition idx_remove (idx : Z -> list Z) (a : Z) : Z -> list Z :=
  fun k => remove Z.eq_dec a (idx k).

(* the index with [a] linked at the head of bucket [c] *)
Definition idx_insert (idx : Z -> list Z) (c a : Z) : Z -> list Z :=
  idx_set idx c (a :: idx c).

(* the neighbours of a block that splits the block list into [l1] and [l2];
   the prologue and the epilogue stand in at the two ends *)
Definition prev_blk (l1 : list (Z * bool)) : Z * bool := last l1 (8, true).
Definition next_blk (l2 : list (Z * bool)) : Z * bool := hd (0, true) l2.

(* every free block but the one at [bp] is linked *)
Definition complete_but (first : Z) (bl : list (Z * bool))
  (idx : Z -> list Z) (bp : Z) : Prop :=
  forall a sz, In (a, sz, false) (blist first bl) -> a <> bp ->
    In a (idx (size_class_of sz)).

(* what coalescing does to the blocks on the left and on the right of a free
   block: a free neighbour is absorbed, with its size *)
Definition coalesce_prev (l1 : list (Z * bool)) : list (Z * bool) * Z :=
  if snd (prev_blk l1) then (l1, 0) else (removelast l1, fst (prev_blk l1)).

Definition coalesce_next (l2 : list (Z * bool)) : list (Z * bool) * Z :=
  if snd (next_blk l2) then (l2, 0) else (tl l2, fst (next_blk l2)).

(* and to the index: the absorbed neighbours of the block at [bp], of size
   [sz], are unlinked *)
Definition coalesce_index (idx : Z -> list Z) (l1 : list (Z * bool))
  (bp sz : Z) (l2 : list (Z * bool)) : Z -> list Z :=
  let i1 := if snd (prev_blk l1) then idx
            else idx_remove idx (bp - fst (prev_blk l1)) in
  if snd (next_blk l2) then i1 else idx_remove i1 (bp + sz).

(* the first-fit search, on the abstract view: a node fits when the size in
   its header covers the request *)
Definition fits (s : state) (tmp_s a : Z) : bool :=
  tmp_s <=? size_of_word (mem s (a - 4)).

Definition first_fit (s : state) (tmp_s : Z) (l : list Z) : Z :=
  match find (fits s tmp_s) l with
  | Some a => a
  | None => NULL
  end.

(* the nodes of [n] consecutive buckets from bucket [c] on, in the order the
   search meets them: bucket by bucket, each from its head *)
Fixpoint candidates (idx : Z -> list Z) (c : Z) (n : nat) : list Z :=
  match n with
  | O => []
  | S n' => idx c ++ candidates idx (c + 1) n'
  end.

(* a heap extension moves the break and nothing else *)
Definition grown (s s' : state) (size : Z) : Prop :=
  mem_start_brk s' = mem_start_brk s /\ mem_brk s' = mem_brk s + size /\
  mem_max_addr s' = mem_max_addr s /\ HeapBlocks s' = HeapBlocks s /\
  FreeBlocks s' = FreeBlocks s /\ console s' = console s.

(* how an allocation changes the abstract view: the block at [p] is new and
   covers the request, every other allocated block is kept with its payload *)
Definition alloc_step (s s' : state) (bl bl' : list (Z * bool))
  (p asize : Z) : Prop :=
  let first := FreeBlocks s + 80 in
  (exists z, In (p, z, true) (blist first bl') /\ asize <= z) /\
  (forall a z, In (a, z, true) (blist first bl) ->
     In (a, z, true) (blist first bl') /\ a <> p /\
     forall x, a <= x < a + z - 8 -> mem s' x = mem s x) /\
  (forall a z, In (a, z, true) (blist first bl') ->
     a = p \/ In (a, z, true) (blist first bl)).

(* the public operations keep the region's start and limit and never shrink
   it *)
Definition region_le (s s' : state) : Prop :=
  mem_start_brk s' = mem_start_brk s /\ mem_brk s <= mem_brk s' /\
  mem_max_addr s' = mem_max_addr s /\ HeapBlocks s' = HeapBlocks s /\
  FreeBlocks s' = FreeBlocks s /\ console s' = console s.

(* a state before mm_init: an empty region at an aligned address *)
Definition fresh (s : state) : Prop :=
  mem_brk s = mem_start_brk s /\ 0 < mem_start_brk s /\
  mem_start_brk s mod 8 = 0 /\ mem_max_addr s < 2 ^ 32.

(** ** Views of a state read back from its memory *)

(* the user blocks, from the headers: address, size, allocated bit *)
Fixpoint walk (fuel : nat) (m : Z -> Z) (a : Z) : list (Z * Z * bool) :=
  match fuel with
  | O => []
  | S fuel' =>
      let sz := size_of_word (m (a - 4)) in
      if sz =? 0 then []
      else (a, sz, negb (alloc_of_word (m (a - 4)) =? 0))
             :: walk fuel' m (a + sz)
  end.

Definition heap_blocks (s : state) : list (Z * Z * bool) :=
  walk (list_fuel s) (mem s) (HeapBlocks s + 8).

(* [p] is the payload address of an allocated block *)
Definition is_live (s : state) (p : Z) : bool :=
  existsb (fun t => (fst (fst t) =? p) && snd t) (heap_blocks s).

(* the list hanging off a bucket, following the next links; [None] when the
   links do not reach the null pointer *)
Fixpoint follow (fuel : nat) (m : Z -> Z) (a : Z) : option (list Z) :=
  match fuel with
  | O => None
  | S fuel' =>
      if a =? 0 then Some []
      else match follow fuel' m (m (a + 4)) with
           | Some l => Some (a :: l)
           | None => None
           end
  end.

Definition bucket (s : state) (k : Z) : option (list Z) :=
  follow (list_fuel s) (mem s) (mem s (FreeBlocks s + 4 * k)).

(* two neighbours in the heap are both free *)
Fixpoint adjacent_free (l : list bool) : bool :=
  match l with
  | [] => false
  | al :: r =>
      match r with
      | al' :: _ => (negb al && negb al') || adjacent_free r
      | [] => false
      end
  end.

Definition no_adjacent_free (s : state) : Prop :=
  adjacent_free (map snd (heap_blocks s)) = false.

(* the free-list index agrees with the headers: every bucket is a finite
   list without repetition of free blocks of its size class, and every free
   block is in the bucket of its size class *)
Definition index_consistent (s : state) : Prop :=
  (forall k, 0 <= k < 17 ->
     exists l, bucket s k = Some l /\ NoDup l /\
       forall a, In a l ->
         exists sz, In (a, sz, false) (heap_blocks s) /\
                    size_class_of sz = k) /\
  (forall a sz, In (a, sz, false) (heap_blocks s) ->
     exists l, bucket s (size_class_of sz) = Some l /\ In a l).

(* requests whose rounding to a block size does not wrap around *)
Definition max_request : Z := 2 ^ 32 - 16.

(** ** States reached by the public operations

    [mm_init] on an empty region with room for the first chunk, then
    allocations, releases of live blocks and resizes of live blocks that
    return, with requests of at most [bound] bytes. *)
Inductive reachable_upto (bound : Z) : state -> Prop :=
| reach_init s0 s :
    fresh s0 -> mem_start_brk s0 + 4176 <= mem_max_addr s0 ->
    mm_init s0 = Ok 0 s -> reachable_upto bound s
| reach_malloc s n p s' :
    reachable_upto bound s -> 0 < n <= bound ->
    mm_malloc n s = Ok p s' -> reachable_upto bound s'
| reach_free s p u s' :
    reachable_upto bound s -> is_live s p = true ->
    mm_free p s = Ok u s' -> reachable_upto bound s'
| reach_realloc s p n q s' :
    reachable_upto bound s -> is_live s p = true -> 0 <= n <= bound ->
    mm_realloc p n s = Ok q s' -> reachable_upto bound s'.

(* requests whose rounding to a block size does not wrap around *)
Definition reachable : state -> Prop := reachable_upto max_request.

(* requests of any [size_t] value *)
Definition reachable_any : state -> Prop := reachable_upto (2 ^ 32 - 1).

(* a run of releases of live blocks *)
Inductive released : state -> state -> Prop :=
| released_refl s : released s s
| released_step s p u s1 s' :
    is_live s p = true -> mm_free p s = Ok u s1 -> released s1 s' ->
    released s s'.

(** ** The search as the specification words it

    Each bucket scanned "in insertion order", the node inserted first met
    first.  [free_list_insert] links a node at the head of its bucket, so the
    insertion order of a bucket is its list reversed. *)
Fixpoint candidates_fifo (idx : Z -> list Z) (c : Z) (n : nat) : list Z :=
  match n with
  | O => []
  | S n' => rev (idx c) ++ candidates_fifo idx (c + 1) n'
  end.

(* the buckets of a state as a function, empty where the links are broken *)
Definition buckets (s : state) (k : Z) : list Z :=
  match bucket s k with
  | Some l => l
  | None => []
  end.

Definition search_order (s : state) (asize : Z) : list Z :=
  candidates (buckets s) (size_class_of asize)
             (Z.to_nat (17 - size_class_of asize)).

Definition search_order_fifo (s : state) (asize : Z) : list Z :=
  candidates_fifo (buckets s) (size_class_of asize)
                  (Z.to_nat (17 - size_class_of asize)).

(** ** Example runs *)

Definition state_of {A} (r : result A) (d : state) : state :=
  match r with
  | Ok _ s => s
  | Err _ => d
  end.

(* an empty region of 20 MB at address 4096 *)
Definition s_fresh : state :=
  mkState (fun _ => 0) 4096 4096 (4096 + 20 * 2 ^ 20) 0 0 [].

Definition s_init : state := state_of (mm_init s_fresh) s_fresh.

(* three blocks of 24 bytes at 4176, 4200 and 4224, then a separator *)
Definition s_a : state := state_of (mm_malloc 16 s_init) s_fresh.
Definition s_ab : state := state_of (mm_malloc 16 s_a) s_fresh.
Definition s_abc : state := state_of (mm_malloc 16 s_ab) s_fresh.
Definition s_abcd : state := state_of (mm_malloc 16 s_abc) s_fresh.

(* the first block released *)
Definition s_bc : state := state_of (mm_free 4176 s_abc) s_fresh.

(* a request that wraps around in the rounding, and its release *)
Definition s_wrap : state := state_of (mm_malloc 4294967295 s_bc) s_fresh.
Definition s_wrap_free : state := state_of (mm_free 4176 s_wrap) s_fresh.

(* the first and the third of four blocks released, in this order *)
Definition s_bcd : state := state_of (mm_free 4176 s_abcd) s_fresh.
Definition s_bd : state := state_of (mm_free 4224 s_bcd) s_fresh.

(* the older of the two nodes of bucket 1 unlinked *)
Definition s_unl : state := state_of (free_list_remove 4176 s_bd) s_fresh.

(* the block at 4176 of [s_a] resized to a request that wraps around *)
Definition s_grow_wrap : state :=
  state_of (mm_realloc 4176 4294967295 s_a) s_fresh.

(* a block of [s_abc] for a request of 100 bytes *)
Definition s_abc_big : state := state_of (mm_malloc 100 s_abc) s_fresh.

(* [sz], with something cut off below it when [r > 0], is at most [T]: the
   comparison that the size-class loop carries through its halvings *)
Definition le_eff (sz r T : Z) : Prop := sz < T \/ (sz = T /\ r = 0).

(* regions too small for the first chunk: one with room for the bucket
   array and the sentinels only, one with room for nothing *)
Definition s_tiny : state :=
  mkState (fun _ => 0) 4096 4096 (4096 + 4000) 0 0 [].
Definition s_none : state :=
  mkState (fun _ => 0) 4096 4096 (4096 + 40) 0 0 [].

(* a region with room for the first chunk and no more *)
Definition s_one_chunk : state :=
  mkState (fun _ => 0) 4096 4096 (4096 + 4176) 0 0 [].
Definition s_one_init : state := state_of (mm_init s_one_chunk) s_one_chunk.
Definition s_one_a : state := state_of (mm_malloc 16 s_one_init) s_one_chunk.

(* the value a call returns, when it returns *)
Definition value_of {A} (r : result A) : option A :=
  match r with
  | Ok a _ => Some a
  | Err _ => None
  end.

(** * Properties *)

Ltac Zify.zify_post_hook ::= Z.to_euclidean_division_equations.

(** ** Word arithmetic *)

Lemma wrap_small x : 0 <= x < 2 ^ 32 -> wrap x = x.
Proof. intros; unfold wrap; apply Z.mod_small; lia. Qed.

Lemma wrap_range x : 0 <= wrap x < 2 ^ 32.
Proof. unfold wrap; apply Z.mod_pos_bound; lia. Qed.

Lemma size_of_word_spec v : 0 <= v < 2 ^ 32 -> size_of_word v = 8 * (v / 8).
Proof.
  intros Hv. unfold size_of_word.
  change (wrap (Z.lnot 7)) with (2 ^ 32 - 8).
  replace (2 ^ 32 - 8) with (Z.land (Z.lnot (Z.ones 3)) (Z.ones 32))
    by reflexivity.
  rewrite Z.land_assoc, <- Z.ldiff_land, Z.ldiff_ones_r by lia.
  rewrite Z.land_ones by lia.
  rewrite Z.shiftl_mul_pow2, Z.shiftr_div_pow2 by lia.
  change (2 ^ 3) with 8.
  rewrite Z.mod_small; lia.
Qed.

Lemma alloc_of_word_spec v : alloc_of_word v = v mod 2.
Proof.
  unfold alloc_of_word. change 1 with (Z.ones 1).
  rewrite Z.land_ones by lia. reflexivity.
Qed.

Lemma PACK_spec sz al :
  0 <= sz -> sz mod 8 = 0 -> PACK sz (b2z al) = tag sz al.
Proof.
  intros H0 H. unfold PACK, tag.
  destruct al; simpl; [|rewrite Z.lor_0_r; lia].
  assert (E : Z.land sz 1 = 0).
  { change 1 with (Z.ones 1). rewrite Z.land_ones by lia.
    change (2 ^ 1) with 2. lia. }
  rewrite Z.add_nocarry_lxor by exact E. symmetry. apply Z.lxor_lor. exact E.
Qed.

Lemma size_of_tag sz al :
  0 <= sz < 2 ^ 32 -> sz mod 8 = 0 -> size_of_word (tag sz al) = sz.
Proof.
  intros H0 H. assert (sz <= 2 ^ 32 - 8) by lia.
  rewrite size_of_word_spec; unfold tag, b2z; destruct al; lia.
Qed.

Lemma alloc_of_tag sz al : sz mod 8 = 0 -> alloc_of_word (tag sz al) = b2z al.
Proof.
  intros H. rewrite alloc_of_word_spec. unfold tag, b2z; destruct al; lia.
Qed.

(** ** Rules of the weakest precondition *)

Lemma wp_ret {A} (a : A) (Q : A -> state -> Prop) s : Q a s -> wp (ret a) Q s.
Proof. intros H. exists a, s. split; [reflexivity | exact H]. Qed.

Lemma wp_bind {A B} (c : M A) (k : A -> M B) (Q : B -> state -> Prop) s :
  wp c (fun a s' => wp (k a) Q s') s -> wp (bind c k) Q s.
Proof.
  intros (a & s' & E & b & s'' & E' & HQ).
  exists b, s''. unfold bind. rewrite E. split; assumption.
Qed.

Lemma wp_mono {A} (c : M A) (Q Q' : A -> state -> Prop) s :
  wp c Q s -> (forall a s', Q a s' -> Q' a s') -> wp c Q' s.
Proof. intros (a & s' & E & HQ) H. exists a, s'. split; auto. Qed.

Lemma wp_result {A} (c : M A) (Q : A -> state -> Prop) s a s' :
  wp c Q s -> c s = Ok a s' -> Q a s'.
Proof. intros (a0 & s0 & E & HQ) E'. rewrite E in E'. congruence. Qed.

Lemma wp_GET p (Q : Z -> state -> Prop) s :
  valid s p = true -> Q (mem s p) s -> wp (GET p) Q s.
Proof.
  intros V H. exists (mem s p), s. unfold GET. rewrite V. split; auto.
Qed.

Lemma wp_PUT p v (Q : unit -> state -> Prop) s :
  valid s p = true -> Q tt (set_mem s (upd (mem s) p (wrap v))) ->
  wp (PUT p v) Q s.
Proof.
  intros V H. eexists tt, _. unfold PUT. rewrite V. split; eauto.
Qed.

Lemma wp_GET_SIZE p (Q : Z -> state -> Prop) s :
  valid s p = true -> Q (size_of_word (mem s p)) s -> wp (GET_SIZE p) Q s.
Proof.
  intros V H. unfold GET_SIZE. apply wp_bind, wp_GET; auto. now apply wp_ret.
Qed.

Lemma wp_GET_ALLOC p (Q : Z -> state -> Prop) s :
  valid s p = true -> Q (alloc_of_word (mem s p)) s -> wp (GET_ALLOC p) Q s.
Proof.
  intros V H. unfold GET_ALLOC. apply wp_bind, wp_GET; auto. now apply wp_ret.
Qed.

Lemma wp_get_FreeBlocks (Q : Z -> state -> Prop) s :
  Q (FreeBlocks s) s -> wp get_FreeBlocks Q s.
Proof. intros H. exists (FreeBlocks s), s. split; auto. Qed.

Lemma wp_printf line (Q : unit -> state -> Prop) s :
  Q tt (mkState (mem s) (mem_start_brk s) (mem_brk s) (mem_max_addr s)
                (HeapBlocks s) (FreeBlocks s) (console s ++ [line])) ->
  wp (printf line) Q s.
Proof. intros H. eexists tt, _. split; [reflexivity | exact H]. Qed.

Lemma valid_iff s p :
  valid s p = true <->
  mem_start_brk s <= p /\ p + 4 <= mem_brk s /\ p mod 4 = 0.
Proof.
  unfold valid, WSIZE.
  rewrite !andb_true_iff, !Z.leb_le, Z.eqb_eq. tauto.
Qed.

Lemma upd_same m p v : upd m p v p = v.
Proof. unfold upd. now rewrite Z.eqb_refl. Qed.

Lemma upd_other m p v a : a <> p -> upd m p v a = m a.
Proof. unfold upd. intros H. apply Z.eqb_neq in H. now rewrite H. Qed.

(** ** Geometry of the block list *)

Lemma total_app l1 l2 : total (l1 ++ l2) = total l1 + total l2.
Proof. induction l1 as [|[sz al] r IH]; simpl; lia. Qed.

Lemma blist_app a l1 l2 :
  blist a (l1 ++ l2) = blist a l1 ++ blist (a + total l1) l2.
Proof.
  revert a. induction l1 as [|[sz al] r IH]; intros a; simpl.
  - f_equal. lia.
  - rewrite IH. do 3 f_equal. lia.
Qed.

Lemma sizes_ok_app l1 l2 : sizes_ok (l1 ++ l2) <-> sizes_ok l1 /\ sizes_ok l2.
Proof.
  unfold sizes_ok. split.
  - intros H. split; intros sz al Hi; apply (H sz al), in_or_app; auto.
  - intros [H1 H2] sz al Hi. apply in_app_or in Hi. destruct Hi; eauto.
Qed.

Lemma sizes_ok_cons sz al l :
  sizes_ok ((sz, al) :: l) <-> (16 <= sz /\ sz mod 8 = 0) /\ sizes_ok l.
Proof.
  unfold sizes_ok. split.
  - intros H. split; [apply (H sz al); now left|].
    intros sz' al' Hi. apply (H sz' al'). now right.
  - intros [H1 H2] sz' al' [E|Hi]; [inversion E; subst; auto | eauto].
Qed.

Lemma total_nonneg bl : sizes_ok bl -> 0 <= total bl.
Proof.
  induction bl as [|[sz al] r IH]; simpl; intros H; [lia|].
  apply sizes_ok_cons in H. destruct H as [[H1 _] H2]. apply IH in H2. lia.
Qed.

Lemma blist_In_split a bl x sz al :
  In (x, sz, al) (blist a bl) ->
  exists l1 l2, bl = l1 ++ (sz, al) :: l2 /\ x = a + total l1.
Proof.
  revert a. induction bl as [|[sz' al'] r IH]; intros a; simpl; [tauto|].
  intros [E|Hi].
  - inversion E; subst. exists [], r. simpl. split; [reflexivity | lia].
  - destruct (IH _ Hi) as (l1 & l2 & -> & ->).
    exists ((sz', al') :: l1), l2. simpl. split; [reflexivity | lia].
Qed.

Lemma blist_In_mid a l1 sz al l2 :
  In (a + total l1, sz, al) (blist a (l1 ++ (sz, al) :: l2)).
Proof. rewrite blist_app. apply in_or_app. right. now left. Qed.

Lemma blist_In_sizes a bl x sz al :
  sizes_ok bl -> In (x, sz, al) (blist a bl) -> 16 <= sz /\ sz mod 8 = 0.
Proof.
  intros H Hi. destruct (blist_In_split _ _ _ _ _ Hi) as (l1 & l2 & -> & _).
  apply sizes_ok_app in H. destruct H as [_ H].
  apply sizes_ok_cons in H. tauto.
Qed.

Lemma blist_In_range a bl x sz al :
  sizes_ok bl -> In (x, sz, al) (blist a bl) ->
  a <= x /\ x + sz <= a + total bl.
Proof.
  intros H Hi. destruct (blist_In_split _ _ _ _ _ Hi) as (l1 & l2 & -> & ->).
  apply sizes_ok_app in H. destruct H as [H1 H2].
  apply sizes_ok_cons in H2. destruct H2 as [_ H2].
  apply total_nonneg in H1, H2. rewrite total_app. simpl. lia.
Qed.

Lemma blist_In_align a bl x sz al :
  sizes_ok bl -> a mod 8 = 0 -> In (x, sz, al) (blist a bl) -> x mod 8 = 0.
Proof.
  revert a. induction bl as [|[sz' al'] r IH]; intros a H Ha; simpl; [tauto|].
  apply sizes_ok_cons in H. destruct H as [[H1 H1'] H2].
  intros [E|Hi]; [inversion E; subst; auto|].
  apply (IH (a + sz')); auto. lia.
Qed.

(* two blocks of the list are the same block or do not overlap *)
Lemma blist_In_disjoint a bl x sz al y sz' al' :
  sizes_ok bl ->
  In (x, sz, al) (blist a bl) -> In (y, sz', al') (blist a bl) ->
  (x = y /\ sz = sz' /\ al = al') \/ x + sz <= y \/ y + sz' <= x.
Proof.
  revert a. induction bl as [|[s0 a0] r IH]; intros a H; simpl; [tauto|].
  apply sizes_ok_cons in H. destruct H as [[H1 H1'] H2].
  intros [E|Hi] [E'|Hi'].
  - inversion E; inversion E'; subst. left. auto.
  - inversion E; subst. apply (blist_In_range _ _ _ _ _ H2) in Hi'. lia.
  - inversion E'; subst. apply (blist_In_range _ _ _ _ _ H2) in Hi. lia.
  - eapply IH; eauto.
Qed.

(** ** The size-class function stays inside the bucket array *)

Lemma class_loop_range fuel size sc sumr :
  0 <= sc <= 16 ->
  let '(_, sc', _) := class_loop fuel size sc sumr in sc <= sc' <= 16.
Proof.
  revert size sc sumr.
  induction fuel as [|n IH]; intros size sc sumr H; cbn [class_loop].
  - lia.
  - destruct ((size >? BLOCKSIZE) && (sc <? ClassSize - 1)) eqn:E; [|lia].
    apply andb_true_iff in E. destruct E as [_ E]. apply Z.ltb_lt in E.
    unfold ClassSize in E.
    specialize (IH (size / 2) (sc + 1) (sumr + size mod 2)).
    destruct (class_loop n (size / 2) (sc + 1) (sumr + size mod 2))
      as [[x y] z].
    assert (0 <= sc + 1 <= 16) as H' by lia. specialize (IH H'). lia.
Qed.

Lemma size_class_of_range size : 0 <= size_class_of size < 17.
Proof.
  unfold size_class_of.
  pose proof (class_loop_range 16 size 0 0) as H.
  destruct (class_loop 16 size 0 0) as [[x y] z].
  assert (0 <= 0 <= 16) as H0 by lia. specialize (H H0).
  destruct ((y <? ClassSize - 1) && (z >? 0) && (x =? BLOCKSIZE)) eqn:E; [|lia].
  apply andb_true_iff in E. destruct E as [E _].
  apply andb_true_iff in E. destruct E as [E _].
  apply Z.ltb_lt in E. unfold ClassSize in E. lia.
Qed.

(** ** Facts that the representation gives about one block *)

Lemma block_facts s bl a sz al :
  layout s bl -> In (a, sz, al) (blist (FreeBlocks s + 80) bl) ->
  (0 <= FreeBlocks s /\ FreeBlocks s mod 8 = 0 /\
   mem_start_brk s = FreeBlocks s /\ mem_brk s < 2 ^ 32) /\
  (FreeBlocks s + 80 <= a /\ a + sz <= mem_brk s /\ a mod 8 = 0 /\
   16 <= sz /\ sz mod 8 = 0) /\
  mem s (a - 4) = tag sz al /\ mem s (a + sz - 8) = tag sz al.
Proof.
  intros L Hi. destruct L.
  pose proof (blist_In_range _ _ _ _ _ lay_sizes0 Hi).
  pose proof (blist_In_sizes _ _ _ _ _ lay_sizes0 Hi).
  assert ((FreeBlocks s + 80) mod 8 = 0) as Ha by lia.
  pose proof (blist_In_align _ _ _ _ _ lay_sizes0 Ha Hi).
  pose proof (lay_blocks0 _ _ _ Hi).
  repeat split; try tauto; lia.
Qed.

Lemma dlseg_frame m m' prev nxt l :
  (forall a, In a l -> m' a = m a /\ m' (a + 4) = m (a + 4)) ->
  dlseg m prev nxt l -> dlseg m' prev nxt l.
Proof.
  revert prev. induction l as [|a r IH]; intros prev H; simpl; [tauto|].
  intros (H1 & H2 & H3).
  destruct (H a) as [E1 E2]; [now left|].
  rewrite E1, E2. repeat split; auto.
  apply IH; auto. intros b Hb. apply H. now right.
Qed.

Lemma last_cons_default (r : list Z) a d : last (a :: r) d = last r a.
Proof.
  revert a d. induction r as [|b r IH]; intros a d; [reflexivity|].
  change (last (a :: b :: r) d) with (last (b :: r) d).
  rewrite (IH b d), (IH b a). reflexivity.
Qed.

Lemma dlseg_app m prev nxt l1 l2 :
  dlseg m prev nxt (l1 ++ l2) <->
  dlseg m prev (hd nxt l2) l1 /\ dlseg m (last l1 prev) nxt l2.
Proof.
  revert prev. induction l1 as [|a r IH]; intros prev.
  - simpl. tauto.
  - change ((a :: r) ++ l2) with (a :: (r ++ l2)).
    cbn [dlseg]. rewrite IH.
    assert (E1 : hd nxt (r ++ l2) = hd (hd nxt l2) r) by (destruct r; auto).
    rewrite E1, last_cons_default. tauto.
Qed.

Lemma same_region_refl s : same_region s s.
Proof. unfold same_region. tauto. Qed.

Lemma same_region_trans s1 s2 s3 :
  same_region s1 s2 -> same_region s2 s3 -> same_region s1 s3.
Proof. unfold same_region. intuition congruence. Qed.

Lemma same_region_set_mem s m : same_region s (set_mem s m).
Proof. unfold same_region. simpl. tauto. Qed.

(* header, footer and sentinel words are not link words *)
Lemma tags_not_link s bl x sz al :
  layout s bl -> In (x, sz, al) (blist (FreeBlocks s + 80) bl) ->
  ~ link_word s bl (x - 4) /\ ~ link_word s bl (x + sz - 8).
Proof.
  intros L Hi. pose proof (block_facts _ _ _ _ _ L Hi) as Hx.
  split; intros [Hb | (b & sb & Hj & Hb)]; try lia.
  all: pose proof (block_facts _ _ _ _ _ L Hj) as Hy;
    pose proof (blist_In_disjoint _ _ _ _ _ _ _ _ (lay_sizes _ _ L) Hi Hj);
    lia.
Qed.

Lemma layout_frame s s' bl :
  layout s bl -> same_region s s' ->
  (forall a, ~ link_word s bl a -> mem s' a = mem s a) ->
  layout s' bl.
Proof.
  intros L (R1 & R2 & R3 & R4 & R5 & R6) F.
  pose proof L as L0. destruct L.
  pose proof (total_nonneg _ lay_sizes0).
  assert (N : forall a, FreeBlocks s + 68 <= a < FreeBlocks s + 80 \/
                        a = mem_brk s - 4 -> mem s' a = mem s a).
  { intros a Ha. apply F. intros [Hb | (b & sz & Hi & Hb)]; [lia|].
    pose proof (block_facts _ _ _ _ _ L0 Hi). lia. }
  constructor; rewrite ?R1, ?R2, ?R3, ?R4, ?R5; auto.
  - rewrite N; auto; lia.
  - rewrite N; auto; lia.
  - intros a sz al Hi.
    pose proof (block_facts _ _ _ _ _ L0 Hi).
    destruct (tags_not_link _ _ _ _ _ L0 Hi) as [T1 T2].
    rewrite !F by assumption. tauto.
  - rewrite N; auto; lia.
Qed.

(** ** The index operations on the representation *)

Lemma idx_set_same idx c l : idx_set idx c l c = l.
Proof. unfold idx_set. now rewrite Z.eqb_refl. Qed.

Lemma idx_set_other idx c l k : k <> c -> idx_set idx c l k = idx k.
Proof. unfold idx_set. intros H. apply Z.eqb_neq in H. now rewrite H. Qed.

(* replacing one bucket of the index *)
Lemma rep_update s s' bl idx c l' :
  rep s bl idx -> same_region s s' -> 0 <= c < 17 ->
  (forall a, ~ link_word s bl a -> mem s' a = mem s a) ->
  (forall k, 0 <= k < 17 -> k <> c ->
     mem s' (FreeBlocks s + 4 * k) = mem s (FreeBlocks s + 4 * k) /\
     forall a, In a (idx k) ->
       mem s' a = mem s a /\ mem s' (a + 4) = mem s (a + 4)) ->
  mem s' (FreeBlocks s + 4 * c) = hd 0 l' ->
  dll (mem s') (FreeBlocks s + 4 * c) l' ->
  (forall a, In a l' ->
     exists sz, In (a, sz, false) (blist (FreeBlocks s + 80) bl) /\
                size_class_of sz = c) ->
  NoDup l' ->
  rep s' bl (idx_set idx c l').
Proof.
  intros (L & I & [N1 N2]) R Hc F O Hh Hd Hn Hu.
  pose proof R as (R1 & R2 & R3 & R4 & R5 & R6).
  split; [eapply layout_frame; eauto|]. split.
  - intros k Hk. rewrite R5. destruct (Z.eq_dec k c) as [->|Hne].
    + rewrite idx_set_same. auto.
    + rewrite idx_set_other by auto. destruct (O k Hk Hne) as [O1 O2].
      destruct (I k Hk) as [I1 I2]. rewrite O1. split; auto.
      eapply dlseg_frame; eauto.
  - rewrite R5. split.
    + intros k a Hk. destruct (Z.eq_dec k c) as [->|Hne].
      * rewrite idx_set_same. auto.
      * rewrite idx_set_other by auto. auto.
    + intros k Hk. destruct (Z.eq_dec k c) as [->|Hne].
      * rewrite idx_set_same. auto.
      * rewrite idx_set_other by auto. auto.
Qed.

(* what the representation says about a linked node *)
Lemma node_facts s bl idx k a :
  rep s bl idx -> 0 <= k < 17 -> In a (idx k) ->
  exists sz, In (a, sz, false) (blist (FreeBlocks s + 80) bl) /\
             size_class_of sz = k /\
             FreeBlocks s + 80 <= a /\ a + sz <= mem_brk s /\ a mod 8 = 0 /\
             16 <= sz.
Proof.
  intros (L & I & [N1 N2]) Hk Hi. destruct (N1 k a Hk Hi) as (sz & Hb & Hc).
  exists sz. pose proof (block_facts _ _ _ _ _ L Hb). tauto.
Qed.

(* a node is filed under one bucket only *)
Lemma node_bucket_unique s bl idx k k' a :
  rep s bl idx -> 0 <= k < 17 -> 0 <= k' < 17 ->
  In a (idx k) -> In a (idx k') -> k = k'.
Proof.
  intros R Hk Hk' Hi Hi'. pose proof R as (L & I & [N1 N2]).
  destruct (N1 k a Hk Hi) as (sz & Hb & Hc).
  destruct (N1 k' a Hk' Hi') as (sz' & Hb' & Hc').
  pose proof (blist_In_disjoint _ _ _ _ _ _ _ _ (lay_sizes _ _ L) Hb Hb').
  pose proof (block_facts _ _ _ _ _ L Hb).
  pose proof (block_facts _ _ _ _ _ L Hb').
  assert (sz = sz') by lia. congruence.
Qed.

Lemma link_word_node s bl a sz :
  In (a, sz, false) (blist (FreeBlocks s + 80) bl) ->
  link_word s bl a /\ link_word s bl (a + 4).
Proof. intros H. split; right; exists a, sz; auto. Qed.

Lemma free_list_insert_spec s bl idx bp sz :
  rep s bl idx -> In (bp, sz, false) (blist (FreeBlocks s + 80) bl) ->
  (forall k, 0 <= k < 17 -> ~ In bp (idx k)) ->
  wp (free_list_insert bp) (fun _ s' =>
     rep s' bl (idx_set idx (size_class_of sz) (bp :: idx (size_class_of sz)))
     /\ same_region s s' /\
     (forall a, ~ link_word s bl a -> mem s' a = mem s a)) s.
Proof.
  intros R Hi Hn. pose proof R as (L & I & [N1 N2]).
  pose proof (block_facts _ _ _ _ _ L Hi) as (G & B & Th & Tf).
  pose proof (size_class_of_range sz) as Hc.
  unfold free_list_insert.
  assert (EH : HDRP bp = bp - 4) by (unfold HDRP, WSIZE; apply wrap_small; lia).
  rewrite EH.
  apply wp_bind, wp_GET_SIZE; [apply valid_iff; lia|].
  rewrite Th, size_of_tag by lia.
  apply wp_bind, wp_get_FreeBlocks.
  set (c := size_class_of sz) in *.
  assert (ES : wrap (FreeBlocks s + WSIZE * c) = FreeBlocks s + 4 * c)
    by (unfold WSIZE; apply wrap_small; lia).
  rewrite ES. clear ES.
  remember (FreeBlocks s + 4 * c) as slot eqn:Eslot.
  apply wp_bind, wp_GET; [apply valid_iff; lia|].
  destruct (I c Hc) as [Ihd Idl]. rewrite <- Eslot in Ihd, Idl.
  assert (EP : pAtC bp = bp + 4) by (unfold pAtC, WSIZE; apply wrap_small; lia).
  rewrite EP. unfold p_to_char.
  assert (Oth : forall k, 0 <= k < 17 -> k <> c -> forall a, In a (idx k) ->
            a <> bp /\ a mod 8 = 0 /\ FreeBlocks s + 80 <= a /\
            ~ In a (idx c)).
  { intros k Hk Hne a Ha.
    destruct (node_facts _ _ _ _ _ R Hk Ha) as (sa & _ & _ & ?).
    repeat split; try tauto.
    - intros ->. exact (Hn k Hk Ha).
    - intros Ha'. apply Hne. eapply node_bucket_unique; eauto. }
  destruct (mem s slot =? 0) eqn:E0.
  - apply Z.eqb_eq in E0.
    assert (El : idx c = []).
    { destruct (idx c) as [|h r] eqn:El; auto. simpl in Ihd.
      destruct (node_facts _ _ _ c h R Hc) as (sh & _ & _ & ?);
        [rewrite El; now left | lia]. }
    apply wp_bind, wp_PUT; [apply valid_iff; lia|].
    apply wp_bind, wp_PUT; [apply valid_iff; simpl; lia|].
    apply wp_PUT; [apply valid_iff; simpl; lia|].
    cbn [mem set_mem]. rewrite !wrap_small by lia.
    split; [|split].
    + rewrite El. eapply rep_update; eauto.
      * unfold same_region; simpl; tauto.
      * intros a Ha. cbn [mem set_mem].
        destruct (link_word_node _ _ _ _ Hi).
        rewrite !upd_other; auto; intros ->; apply Ha; auto.
        left. lia.
      * intros k Hk Hne. cbn [mem set_mem]. split.
        -- rewrite !upd_other; auto; lia.
        -- intros a Ha. destruct (Oth k Hk Hne a Ha) as (? & ? & ? & ?).
           rewrite !upd_other; auto; lia.
      * cbn [mem set_mem]. rewrite <- Eslot.
        rewrite !upd_other by (lia). now rewrite upd_same.
      * cbn [mem set_mem]. rewrite <- Eslot. unfold dll. simpl.
        rewrite upd_same. rewrite upd_other by lia. rewrite upd_same. auto.
      * intros a [<-|[]]. exists sz. auto.
      * constructor; [simpl; tauto | constructor].
    + unfold same_region; simpl; tauto.
    + intros a Ha. cbn [mem set_mem].
      destruct (link_word_node _ _ _ _ Hi).
      rewrite !upd_other; auto; intros ->; apply Ha; auto.
      left. lia.
  - apply Z.eqb_neq in E0.
    destruct (idx c) as [|h r] eqn:El; [simpl in Ihd; lia|].
    simpl in Ihd.
    destruct (node_facts _ _ _ c h R Hc) as (sh & Hh & _ & Hhf);
      [rewrite El; now left|].
    assert (Hbh : bp <> h).
    { intros ->. apply (Hn c Hc). rewrite El. now left. }
    apply wp_bind, wp_PUT; [apply valid_iff; lia|].
    apply wp_bind, wp_GET; [apply valid_iff; simpl; lia|].
    cbn [mem set_mem]. rewrite upd_other by (lia).
    apply wp_bind, wp_PUT; [apply valid_iff; simpl; lia|].
    apply wp_bind, wp_GET; [apply valid_iff; simpl; lia|].
    cbn [mem set_mem]. rewrite !upd_other by (lia).
    rewrite Ihd.
    apply wp_bind, wp_PUT; [apply valid_iff; simpl; lia|].
    apply wp_PUT; [apply valid_iff; simpl; lia|].
    cbn [mem set_mem]. rewrite !wrap_small by lia.
    assert (Fm : forall a, ~ link_word s bl a ->
      upd (upd (upd (upd (mem s) bp slot) (bp + 4) h) h bp) slot bp a = mem s a).
    { intros a Ha.
      destruct (link_word_node _ _ _ _ Hi).
      destruct (link_word_node _ _ _ _ Hh).
      rewrite !upd_other; auto; intros ->; apply Ha; auto.
      left. lia. }
    split; [|split]; auto.
    + eapply rep_update; eauto.
      * unfold same_region; simpl; tauto.
      * intros k Hk Hne. cbn [mem set_mem]. split.
        -- rewrite !upd_other; auto; lia.
        -- intros a Ha. destruct (Oth k Hk Hne a Ha) as (? & ? & ? & Hac).
           assert (a <> h) by (intros ->; apply Hac; now left).
           rewrite !upd_other; auto; lia.
      * cbn [mem set_mem]. rewrite <- Eslot. now rewrite upd_same.
      * cbn [mem set_mem]. rewrite <- Eslot. unfold dll. simpl.
        unfold dll in Idl. simpl in Idl. destruct Idl as (D1 & D2 & D3).
        specialize (N2 c Hc). rewrite El in N2.
        apply NoDup_cons_iff in N2. destruct N2 as [Hnh Hnr].
        repeat split.
        -- rewrite !upd_other by (lia). now rewrite upd_same.
        -- rewrite !upd_other by (lia). now rewrite upd_same.
        -- rewrite !upd_other by (lia). now rewrite upd_same.
        -- rewrite !upd_other by (lia). auto.
        -- eapply dlseg_frame; [|exact D3]. intros a Ha.
           destruct (node_facts _ _ _ c a R Hc) as (sa & _ & _ & ?);
             [rewrite El; now right|].
           assert (a <> h) by (intros ->; auto).
           assert (a <> bp).
           { intros ->. apply (Hn c Hc). rewrite El. now right. }
           rewrite !upd_other; auto; lia.
      * intros a [<-|Ha]; [exists sz; auto|].
        apply N1; auto. rewrite El. exact Ha.
      * constructor; [intros Hx; apply (Hn c Hc); rewrite El; exact Hx|].
        specialize (N2 c Hc). rewrite El in N2. exact N2.
    + unfold same_region; simpl; tauto.
Qed.

Lemma list_last_cases_gen {A} (l : list A) :
  l = [] \/ exists l' x, l = l' ++ [x].
Proof.
  destruct l as [|a r]; [now left | right].
  destruct (exists_last (l := a :: r)) as (l' & x & E); [congruence|].
  eauto.
Qed.

Lemma list_last_cases (l : list Z) :
  l = [] \/ exists l' x, l = l' ++ [x].
Proof.
  destruct l as [|a r]; [now left | right].
  destruct (exists_last (l := a :: r)) as (l' & x & E); [congruence|].
  eauto.
Qed.

Lemma last_snoc (l : list Z) x d : last (l ++ [x]) d = x.
Proof. apply last_last. Qed.

Lemma NoDup_app_disj (xs ys : list Z) a :
  NoDup (xs ++ ys) -> In a xs -> In a ys -> False.
Proof.
  induction xs as [|x r IH]; simpl; [tauto|].
  intros Hu [->|Hx] Hy; apply NoDup_cons_iff in Hu; destruct Hu as [Hn Hu].
  - apply Hn, in_or_app. now right.
  - auto.
Qed.

(* unlinking a node of a list: the predecessor's next link and the
   successor's previous link are redirected, everything else is kept *)
Lemma dlseg_unlink m m' prev l1 bp l2 :
  NoDup (l1 ++ bp :: l2) ->
  dlseg m prev 0 (l1 ++ bp :: l2) ->
  (forall a, In a (l1 ++ l2) ->
     (a <> hd 0 l2 \/ l2 = [] -> m' a = m a) /\
     (a <> last l1 0 \/ l1 = [] -> m' (a + 4) = m (a + 4))) ->
  (l1 <> [] -> m' (last l1 0 + 4) = hd 0 l2) ->
  (l2 <> [] -> m' (hd 0 l2) = last l1 prev) ->
  dlseg m' prev 0 (l1 ++ l2).
Proof.
  intros Hu Hd Hf Hp Hs.
  apply dlseg_app in Hd. destruct Hd as [D1 D2].
  cbn [dlseg hd] in D2. destruct D2 as (D2 & D3 & D4).
  apply dlseg_app. split.
  - destruct (list_last_cases l1) as [->|(l1' & pv & ->)]; [exact I|].
    apply dlseg_app in D1. destruct D1 as [D1 D5].
    cbn [dlseg hd] in D5. destruct D5 as (D5 & D6 & _).
    rewrite last_snoc in Hp. rewrite last_snoc in Hf.
    assert (Hup : ~ In pv l1' /\ ~ In pv l2 /\ NoDup l1').
    { rewrite <- app_assoc in Hu. simpl in Hu.
      split; [|split].
      - apply NoDup_remove_2 in Hu. intros Hx. apply Hu.
        apply in_or_app. now left.
      - apply NoDup_app_remove_l in Hu. apply NoDup_cons_iff in Hu.
        destruct Hu as [Hu _]. intros Hx. apply Hu. now right.
      - apply NoDup_app_remove_r in Hu. exact Hu. }
    destruct Hup as (U1 & U2 & U3).
    apply dlseg_app. split.
    + cbn [hd]. eapply dlseg_frame; [|exact D1].
      intros a Ha. destruct (Hf a) as [F1 F2].
      { apply in_or_app. left. apply in_or_app. now left. }
      split; [apply F1 | apply F2].
      * destruct l2 as [|n r2]; [now right | left]. cbn [hd].
        intros ->. apply (NoDup_app_disj _ _ n Hu).
        -- apply in_or_app. now left.
        -- right. now left.
      * left. intros ->. auto.
    + cbn [dlseg hd]. repeat split.
      * destruct (Hf pv) as [F1 _].
        { apply in_or_app. left. apply in_or_app. right. now left. }
        rewrite F1; auto.
        destruct l2 as [|n r2]; [now right | left]. cbn [hd].
        intros ->. apply U2. now left.
      * apply Hp. destruct l1'; discriminate.
  - destruct l2 as [|n r2]; [exact I|].
    cbn [dlseg hd] in *. destruct D4 as (D4 & D5 & D6).
    assert (Hun : ~ In n l1 /\ ~ In n r2 /\ NoDup r2).
    { apply NoDup_remove in Hu. destruct Hu as [Hu _].
      split; [|split].
      - apply NoDup_remove_2 in Hu. intros Hx. apply Hu.
        apply in_or_app. now left.
      - apply NoDup_app_remove_l in Hu. apply NoDup_cons_iff in Hu. tauto.
      - apply NoDup_app_remove_l in Hu. apply NoDup_cons_iff in Hu. tauto. }
    destruct Hun as (U1 & U2 & U3).
    repeat split.
    + apply Hs. discriminate.
    + destruct (Hf n) as [_ F2]; [apply in_or_app; right; now left|].
      rewrite F2; auto.
      destruct (list_last_cases l1) as [->|(l1' & pv & ->)]; [now right|left].
      rewrite last_snoc. intros ->. apply U1. apply in_or_app. right. now left.
    + eapply dlseg_frame; [|exact D6].
      intros a Ha. destruct (Hf a) as [F1 F2].
      { apply in_or_app. right. now right. }
      split; [apply F1 | apply F2].
      * left. intros ->. auto.
      * destruct (list_last_cases l1) as [->|(l1' & pv & ->)]; [now right|left].
        rewrite last_snoc. intros ->.
        apply NoDup_remove in Hu. destruct Hu as [Hu _].
        rewrite <- app_assoc in Hu. apply NoDup_remove_2 in Hu. apply Hu.
        apply in_or_app. right. now right.
Qed.

Lemma unlink_rep s s' bl idx c l1 bp l2 :
  rep s bl idx -> 0 <= c < 17 -> idx c = l1 ++ bp :: l2 -> same_region s s' ->
  forall P, P = match l1 with
                | [] => FreeBlocks s + 4 * c
                | _ => last l1 0 + 4
                end ->
  (forall a, a <> bp -> a <> bp + 4 -> a <> P ->
             (a <> hd 0 l2 \/ l2 = []) -> mem s' a = mem s a) ->
  mem s' P = hd 0 l2 ->
  (l2 <> [] -> mem s' (hd 0 l2) = last l1 (FreeBlocks s + 4 * c)) ->
  rep s' bl (idx_set idx c (l1 ++ l2)) /\
  (forall a, ~ link_word s bl a -> mem s' a = mem s a).
Proof.
  intros R Hc El SR P EP Hf Hp Hs. pose proof R as (L & I & [N1 N2]).
  assert (Hin : forall a, In a (l1 ++ bp :: l2) ->
            exists sz, In (a, sz, false) (blist (FreeBlocks s + 80) bl) /\
              size_class_of sz = c /\ FreeBlocks s + 80 <= a /\
              a + sz <= mem_brk s /\ a mod 8 = 0 /\ 16 <= sz).
  { intros a Ha. apply (node_facts _ _ idx c a R Hc). now rewrite El. }
  assert (Hsub : forall a, In a (l1 ++ l2) -> In a (l1 ++ bp :: l2)).
  { intros a Ha. apply in_app_or in Ha. apply in_or_app.
    destruct Ha; [now left | right; now right]. }
  pose proof (N2 c Hc) as Hu. rewrite El in Hu.
  pose proof (lay_pos _ _ L) as Hpos.
  assert (HP : link_word s bl P /\
               (P = FreeBlocks s + 4 * c /\ l1 = [] \/
                l1 <> [] /\ P = last l1 0 + 4 /\ In (last l1 0) l1)).
  { destruct (list_last_cases l1) as [->|(l1' & pv & ->)].
    - subst P. split; [left; lia | left; auto].
    - assert (EP' : P = pv + 4).
      { subst P. rewrite last_snoc. destruct l1'; reflexivity. }
      destruct (Hin pv) as (sp & Hb & _).
      { apply in_or_app. left. apply in_or_app. right. now left. }
      split; [rewrite EP'; eapply link_word_node; eauto|].
      right. rewrite last_snoc. split; [destruct l1'; discriminate|].
      split; auto. apply in_or_app. right. now left. }
  destruct HP as [HPl HP].
  assert (Hfr : forall a, ~ link_word s bl a -> mem s' a = mem s a).
  { intros a Ha. destruct (Hin bp) as (sb & Hb & _).
    { apply in_or_app. right. now left. }
    destruct (link_word_node _ _ _ _ Hb).
    apply Hf; try (intros ->; auto).
    destruct l2 as [|n r2]; [now right | left]. cbn [hd]. intros ->.
    destruct (Hin n) as (sn & Hn & _).
    { apply in_or_app. right. right. now left. }
    apply Ha. eapply link_word_node; eauto. }
  split; [|exact Hfr].
  eapply rep_update; eauto.
  - intros k Hk Hne. split.
    + apply Hf.
      * destruct (Hin bp) as (sb & _ & _ & ?); [|lia].
        apply in_or_app. right. now left.
      * destruct (Hin bp) as (sb & _ & _ & ?); [|lia].
        apply in_or_app. right. now left.
      * destruct HP as [[-> _]|(_ & -> & Hl)]; [lia|].
        destruct (Hin (last l1 0)) as (sb & _ & _ & ?); [|lia].
        apply in_or_app. now left.
      * destruct l2 as [|n r2]; [now right | left]. cbn [hd].
        destruct (Hin n) as (sb & _ & _ & ?); [|lia].
        apply in_or_app. right. right. now left.
    + intros a Ha.
      destruct (node_facts _ _ _ _ _ R Hk Ha) as (sa & _ & _ & Ga).
      assert (Hna : forall b, In b (l1 ++ bp :: l2) ->
                a <> b /\ a <> b + 4 /\ a + 4 <> b).
      { intros b Hb. destruct (Hin b Hb) as (sb & _ & _ & ?).
        split; [|lia]. intros ->. apply Hne.
        eapply node_bucket_unique; eauto. now rewrite El. }
      destruct (Hna bp) as (? & ? & ?); [apply in_or_app; right; now left|].
      assert (a <> P /\ a + 4 <> P) as [? ?].
      { destruct HP as [[-> _]|(_ & -> & Hl)]; [lia|].
        destruct (Hna (last l1 0)); [apply in_or_app; now left | lia]. }
      assert ((a <> hd 0 l2 /\ a + 4 <> hd 0 l2) \/ l2 = []) as Hh.
      { destruct l2 as [|n r2]; [now right | left]. cbn [hd].
        destruct (Hna n); [apply in_or_app; right; right; now left | lia]. }
      split; apply Hf; auto; try lia; tauto.
  - destruct HP as [[EPs ->]|(Hne & EPl & Hl)].
    + rewrite EPs in Hp. exact Hp.
    + destruct (I c Hc) as [I1 _]. rewrite El in I1.
      destruct l1 as [|x r1]; [congruence|]. cbn [hd app] in I1 |- *.
      rewrite <- I1. apply Hf.
      * destruct (Hin bp) as (sb & _ & _ & ?); [|lia].
        apply in_or_app. right. now left.
      * destruct (Hin bp) as (sb & _ & _ & ?); [|lia].
        apply in_or_app. right. now left.
      * destruct (Hin (last (x :: r1) 0)) as (sb & _ & _ & ?); [|lia].
        apply in_or_app. now left.
      * destruct l2 as [|n r2]; [now right | left]. cbn [hd].
        destruct (Hin n) as (sb & _ & _ & ?); [|lia].
        apply in_or_app. right. right. now left.
  - destruct (I c Hc) as [_ I2]. rewrite El in I2.
    eapply dlseg_unlink; eauto.
    + intros a Ha. pose proof (Hsub a Ha) as Ha'.
      destruct (Hin a Ha') as (sa & _ & _ & Ga).
      destruct (Hin bp) as (sb & _ & _ & Gb).
      { apply in_or_app. right. now left. }
      assert (a <> bp).
      { intros ->. apply NoDup_remove_2 in Hu. auto. }
      split; intros Hc'; apply Hf; try lia.
      * destruct HP as [[-> _]|(_ & -> & Hl)]; [lia|].
        destruct (Hin (last l1 0)) as (sl & _ & _ & ?); [|lia].
        apply in_or_app. now left.
      * exact Hc'.
      * destruct HP as [[-> _]|(Hne & -> & Hl)]; [lia|].
        destruct Hc' as [Hc'|Hc']; [lia | congruence].
      * destruct l2 as [|n r2]; [now right | left]. cbn [hd].
        destruct (Hin n) as (sn & _ & _ & ?); [|lia].
        apply in_or_app. right. right. now left.
    + intros Hne. destruct HP as [[_ ->]|(_ & EPl & _)]; [congruence|].
      now rewrite <- EPl.
  - intros a Ha. destruct (Hin a (Hsub a Ha)) as (sa & Hb & Hcl & _). eauto.
  - eapply NoDup_remove_1; eauto.
Qed.

Lemma pre_flag_bucket p v :
  0 <= p -> p + 64 < 2 ^ 32 -> p <= v <= p + 64 -> (v - p) mod 4 = 0 ->
  pre_flag p v = false.
Proof.
  intros H0 H1 H2 H3. unfold pre_flag, WSIZE, ClassSize.
  rewrite (wrap_small (p + _)) by lia. rewrite wrap_small by lia.
  destruct (Z.gtb_spec v (p + 4 * (17 - 1))); [lia|].
  destruct (Z.ltb_spec v p); [lia|]. cbn [orb].
  destruct (Z.eqb_spec ((p + 4 * (17 - 1) - v) mod 4) 0); [reflexivity | lia].
Qed.

Lemma pre_flag_node p v :
  0 <= p -> p + 64 < 2 ^ 32 -> p + 64 < v -> pre_flag p v = true.
Proof.
  intros H0 H1 H2. unfold pre_flag, WSIZE, ClassSize.
  rewrite (wrap_small (p + _)) by lia.
  destruct (Z.gtb_spec v (p + 4 * (17 - 1))); [reflexivity | lia].
Qed.

Lemma free_list_remove_spec s bl idx c l1 bp l2 :
  rep s bl idx -> 0 <= c < 17 -> idx c = l1 ++ bp :: l2 ->
  wp (free_list_remove bp) (fun _ s' =>
     rep s' bl (idx_set idx c (l1 ++ l2)) /\ same_region s s' /\
     (forall a, ~ link_word s bl a -> mem s' a = mem s a) /\
     mem s' bp = 0 /\ mem s' (bp + 4) = 0) s.
Proof.
  intros R Hc El. pose proof R as (L & I & [N1 N2]).
  assert (Hin : forall a, In a (l1 ++ bp :: l2) ->
            exists sz, In (a, sz, false) (blist (FreeBlocks s + 80) bl) /\
              size_class_of sz = c /\ FreeBlocks s + 80 <= a /\
              a + sz <= mem_brk s /\ a mod 8 = 0 /\ 16 <= sz).
  { intros a Ha. apply (node_facts _ _ idx c a R Hc). now rewrite El. }
  destruct (Hin bp) as (sz & Hb & _ & Gb); [apply in_or_app; right; now left|].
  pose proof (block_facts _ _ _ _ _ L Hb) as (G & B & Th & Tf).
  destruct (I c Hc) as [Ihd Idl]. rewrite El in Ihd, Idl.
  pose proof Idl as Idl'. apply dlseg_app in Idl'. destruct Idl' as [D1 D2].
  cbn [dlseg hd] in D2. destruct D2 as (D2 & D3 & D4).
  pose proof (N2 c Hc) as Hu. rewrite El in Hu.
  assert (EH : HDRP bp = bp - 4) by (unfold HDRP, WSIZE; apply wrap_small; lia).
  assert (EP : pAtC bp = bp + 4) by (unfold pAtC, WSIZE; apply wrap_small; lia).
  assert (Vb : valid s bp = true) by (apply valid_iff; lia).
  assert (Vb4 : valid s (bp + 4) = true) by (apply valid_iff; lia).
  unfold free_list_remove, p_char_GET, pAtC_GET, p_to_char. rewrite EH, EP.
  apply wp_bind, wp_GET; auto.
  apply wp_bind, wp_get_FreeBlocks.
  apply wp_bind, wp_GET; auto.
  apply wp_bind, wp_GET_ALLOC; [apply valid_iff; lia|].
  rewrite Th, alloc_of_tag by lia. cbn [b2z Z.eqb negb].
  rewrite D2, D3.
  assert (Fin : forall s' P,
    same_region s s' ->
    P = match l1 with [] => FreeBlocks s + 4 * c | _ => last l1 0 + 4 end ->
    valid s P = true ->
    (forall a, a <> P -> (a <> hd 0 l2 \/ l2 = []) -> mem s' a = mem s a) ->
    mem s' P = hd 0 l2 ->
    (l2 <> [] -> mem s' (hd 0 l2) = last l1 (FreeBlocks s + 4 * c)) ->
    wp (PUT bp 0;;; PUT (bp + 4) 0) (fun _ s'' =>
      rep s'' bl (idx_set idx c (l1 ++ l2)) /\ same_region s s'' /\
      (forall a, ~ link_word s bl a -> mem s'' a = mem s a) /\
      mem s'' bp = 0 /\ mem s'' (bp + 4) = 0) s').
  { intros s' P SR EPd VP Hf Hp Hs.
    pose proof SR as (R1 & R2 & R3 & R4 & R5 & R6).
    assert (HPb : P <> bp /\ P <> bp + 4).
    { destruct (list_last_cases l1) as [->|(l1' & pv & E)]; [lia|].
      assert (EP' : P = pv + 4).
      { subst P l1. rewrite last_snoc. destruct l1'; reflexivity. }
      destruct (Hin pv) as (sp & _ & _ & ?).
      { rewrite E. apply in_or_app. left. apply in_or_app. right. now left. }
      split; [lia|]. rewrite EP'. intros E'. assert (pv = bp) by lia. subst pv.
      rewrite E in Hu. apply NoDup_remove_2 in Hu. apply Hu.
      apply in_or_app. left. apply in_or_app. right. now left. }
    assert (Hnb : l2 <> [] -> hd 0 l2 <> bp /\ hd 0 l2 <> bp + 4).
    { intros Hne. destruct l2 as [|n r2]; [congruence|]. cbn [hd].
      destruct (Hin n) as (sn & _ & _ & ?).
      { apply in_or_app. right. right. now left. }
      split; [|lia]. intros ->. apply NoDup_remove_2 in Hu. apply Hu.
      apply in_or_app. right. now left. }
    apply wp_bind, wp_PUT.
    { apply valid_iff. rewrite R1, R2. apply valid_iff. exact Vb. }
    apply wp_PUT.
    { apply valid_iff. cbn [mem_start_brk mem_brk set_mem].
      rewrite R1, R2. apply valid_iff. exact Vb4. }
    cbn [mem set_mem]. rewrite !wrap_small by lia.
    assert (SR' : same_region s
              (set_mem (set_mem s' (upd (mem s') bp 0))
                 (upd (upd (mem s') bp 0) (bp + 4) 0))).
    { unfold same_region. simpl. tauto. }
    destruct (unlink_rep s _ bl idx c l1 bp l2 R Hc El SR' P EPd) as [U1 U2].
    - intros a Ha1 Ha2 Ha3 Ha4. cbn [mem set_mem].
      rewrite !upd_other by auto. auto.
    - cbn [mem set_mem]. rewrite !upd_other by tauto. auto.
    - intros Hne. cbn [mem set_mem]. destruct (Hnb Hne).
      rewrite !upd_other by tauto. auto.
    - split; [exact U1 | split; [exact SR' | split; [exact U2 | ]]].
      cbn [mem set_mem]. split.
      + rewrite upd_other by lia. apply upd_same.
      + apply upd_same. }
  destruct (list_last_cases l1) as [E1|(l1' & pv & E1)];
    destruct l2 as [|n r2].
  - (* head of the bucket, no successor *)
    subst l1. cbn [last hd] in *.
    rewrite pre_flag_bucket by lia. cbn [Z.eqb negb andb].
    apply wp_bind. apply wp_bind, wp_GET; auto.
    apply wp_bind, wp_GET; auto.
    rewrite D2, D3. apply wp_PUT; [apply valid_iff; lia|].
    rewrite wrap_small by lia.
    eapply Fin; try reflexivity.
    + apply same_region_set_mem.
    + apply valid_iff; lia.
    + intros a Ha _. cbn [mem set_mem]. now rewrite upd_other.
    + cbn [mem set_mem]. apply upd_same.
    + congruence.
  - (* head of the bucket, with a successor *)
    subst l1. cbn [last hd] in *.
    destruct (Hin n) as (sn & _ & _ & Gn); [right; now left|].
    assert (n <> bp).
    { intros ->. apply NoDup_remove_2 in Hu. apply Hu. now left. }
    rewrite pre_flag_bucket by lia.
    replace (n =? 0) with false by (symmetry; apply Z.eqb_neq; lia).
    cbn [negb andb].
    apply wp_bind. apply wp_bind, wp_GET; auto.
    apply wp_bind, wp_GET; auto.
    rewrite D2, D3. apply wp_bind, wp_PUT; [apply valid_iff; lia|].
    apply wp_bind, wp_GET; auto. apply wp_bind, wp_GET; auto.
    cbn [mem set_mem]. rewrite !upd_other by lia. rewrite D2, D3.
    rewrite wrap_small by lia.
    apply wp_PUT; [apply valid_iff; simpl; lia|].
    cbn [mem set_mem]. rewrite wrap_small by lia.
    eapply Fin; try reflexivity.
    + unfold same_region. simpl. tauto.
    + apply valid_iff; lia.
    + intros a Ha [Hn|Hn]; [|congruence]. cbn [mem set_mem hd] in *.
      now rewrite !upd_other.
    + cbn [mem set_mem hd]. rewrite upd_other by lia. apply upd_same.
    + intros _. cbn [mem set_mem hd]. apply upd_same.
  - (* inside the list, no successor *)
    subst l1. rewrite last_snoc in *. cbn [hd] in *.
    destruct (Hin pv) as (sp & _ & _ & Gp).
    { apply in_or_app. left. apply in_or_app. right. now left. }
    rewrite pre_flag_node by lia. cbn [Z.eqb negb andb].
    apply wp_bind. apply wp_bind, wp_GET; auto.
    rewrite D2.
    assert (EPp : pAtC pv = pv + 4)
      by (unfold pAtC, WSIZE; apply wrap_small; lia).
    rewrite EPp. apply wp_PUT; [apply valid_iff; lia|].
    rewrite wrap_small by lia.
    eapply Fin.
    + apply same_region_set_mem.
    + instantiate (1 := pv + 4). destruct l1'; reflexivity.
    + apply valid_iff; lia.
    + intros a Ha _. cbn [mem set_mem]. now rewrite upd_other.
    + cbn [mem set_mem hd]. apply upd_same.
    + congruence.
  - (* inside the list, with a successor *)
    subst l1. rewrite last_snoc in *. cbn [hd] in *.
    destruct (Hin pv) as (sp & _ & _ & Gp).
    { apply in_or_app. left. apply in_or_app. right. now left. }
    destruct (Hin n) as (sn & _ & _ & Gn).
    { apply in_or_app. right. right. now left. }
    rewrite pre_flag_node by lia.
    replace (n =? 0) with false by (symmetry; apply Z.eqb_neq; lia).
    cbn [negb andb].
    assert (n <> bp).
    { intros ->. apply NoDup_remove_2 in Hu. apply Hu.
      apply in_or_app. right. now left. }
    assert (EPp : pAtC pv = pv + 4)
      by (unfold pAtC, WSIZE; apply wrap_small; lia).
    apply wp_bind. apply wp_bind, wp_GET; auto.
    apply wp_bind, wp_GET; auto.
    rewrite D2, D3, EPp. apply wp_bind, wp_PUT; [apply valid_iff; lia|].
    assert (pv <> bp).
    { intros ->. apply NoDup_remove_2 in Hu. apply Hu.
      apply in_or_app. left. apply in_or_app. right. now left. }
    apply wp_bind, wp_GET; auto. apply wp_bind, wp_GET; auto.
    cbn [mem set_mem]. rewrite !upd_other by lia. rewrite D2, D3.
    rewrite wrap_small by lia.
    apply wp_PUT; [apply valid_iff; simpl; lia|].
    cbn [mem set_mem]. rewrite wrap_small by lia.
    eapply Fin.
    + unfold same_region. simpl. tauto.
    + instantiate (1 := pv + 4). destruct l1'; reflexivity.
    + apply valid_iff; lia.
    + intros a Ha [Hn|Hn]; [|congruence]. cbn [mem set_mem hd] in *.
      now rewrite !upd_other.
    + cbn [mem set_mem hd]. rewrite upd_other by lia. apply upd_same.
    + intros _. cbn [mem set_mem hd]. rewrite last_snoc. apply upd_same.
Qed.

(** ** Rewriting the tags of a run of adjacent blocks *)

Lemma blist_In_app3 f l1 M l2 t :
  In t (blist f (l1 ++ M ++ l2)) <->
  In t (blist f l1) \/ In t (blist (f + total l1) M) \/
  In t (blist (f + total l1 + total M) l2).
Proof. rewrite !blist_app, !in_app_iff. tauto. Qed.

Lemma rep_replace s s' idx l1 X Y l2 :
  rep s (l1 ++ X ++ l2) idx -> same_region s s' ->
  total Y = total X -> sizes_ok Y ->
  (forall b sz al k, In (b, sz, al) (blist (FreeBlocks s + 80 + total l1) X) ->
     0 <= k < 17 -> ~ In b (idx k)) ->
  (forall x, x < FreeBlocks s + 80 + total l1 - 4 \/
             FreeBlocks s + 80 + total l1 + total X - 4 <= x ->
             mem s' x = mem s x) ->
  blocks_ok (mem s') (FreeBlocks s + 80 + total l1) Y ->
  rep s' (l1 ++ Y ++ l2) idx.
Proof.
  intros R SR ET SY Hn Hf HY. pose proof R as (L & I & [N1 N2]).
  pose proof SR as (R1 & R2 & R3 & R4 & R5 & R6).
  pose proof (lay_sizes _ _ L) as SZ.
  apply sizes_ok_app in SZ. destruct SZ as [S1 SZ].
  apply sizes_ok_app in SZ. destruct SZ as [SX S2].
  pose proof (total_nonneg _ S1). pose proof (total_nonneg _ SX).
  pose proof (total_nonneg _ S2). pose proof (lay_pos _ _ L).
  pose proof (lay_brk _ _ L) as Hbrk. rewrite !total_app in Hbrk.
  assert (Keep : forall t,
    In t (blist (FreeBlocks s + 80) l1) \/
    In t (blist (FreeBlocks s + 80 + total l1 + total X) l2) ->
    In t (blist (FreeBlocks s + 80) (l1 ++ X ++ l2)) /\
    In t (blist (FreeBlocks s + 80) (l1 ++ Y ++ l2))).
  { intros t Ht. rewrite !blist_In_app3, ET. tauto. }
  assert (Out : forall b sz al,
    In (b, sz, al) (blist (FreeBlocks s + 80) l1) \/
    In (b, sz, al) (blist (FreeBlocks s + 80 + total l1 + total X) l2) ->
    (b + sz <= FreeBlocks s + 80 + total l1 \/
     FreeBlocks s + 80 + total l1 + total X <= b) /\ 16 <= sz).
  { intros b sz al [Hb|Hb].
    - pose proof (blist_In_range _ _ _ _ _ S1 Hb).
      pose proof (blist_In_sizes _ _ _ _ _ S1 Hb). lia.
    - pose proof (blist_In_range _ _ _ _ _ S2 Hb).
      pose proof (blist_In_sizes _ _ _ _ _ S2 Hb). lia. }
  assert (Node : forall k a, 0 <= k < 17 -> In a (idx k) ->
    exists sz, (In (a, sz, false) (blist (FreeBlocks s + 80) l1) \/
      In (a, sz, false) (blist (FreeBlocks s + 80 + total l1 + total X) l2))
      /\ size_class_of sz = k).
  { intros k a Hk Ha. destruct (N1 k a Hk Ha) as (sz & Hb & Hc).
    exists sz. split; auto. apply blist_In_app3 in Hb.
    destruct Hb as [Hb|[Hb|Hb]]; auto.
    exfalso. exact (Hn _ _ _ k Hb Hk Ha). }
  split; [|split].
  - destruct L. constructor; rewrite ?R1, ?R2, ?R3, ?R4, ?R5; auto.
    + rewrite Hf by lia. auto.
    + rewrite Hf by lia. auto.
    + apply sizes_ok_app. split; auto. apply sizes_ok_app. split; auto.
    + intros a sz al Ha. apply blist_In_app3 in Ha.
      destruct Ha as [Ha|[Ha|Ha]].
      * destruct (Out _ _ _ (or_introl Ha)).
        destruct (Keep _ (or_introl Ha)) as [K _].
        rewrite !Hf by lia. auto.
      * auto.
      * rewrite ET in Ha. destruct (Out _ _ _ (or_intror Ha)).
        destruct (Keep _ (or_intror Ha)) as [K _].
        rewrite !Hf by lia. auto.
    + rewrite !total_app, ET. exact Hbrk.
    + rewrite Hf by lia. auto.
  - intros k Hk. rewrite R5. destruct (I k Hk) as [I1 I2].
    rewrite Hf by lia. split; auto.
    eapply dlseg_frame; [|exact I2].
    intros a Ha. destruct (Node k a Hk Ha) as (sz & Hb & _).
    destruct (Out _ _ _ Hb). rewrite !Hf by lia. auto.
  - rewrite R5. split; auto.
    intros k a Hk Ha. destruct (Node k a Hk Ha) as (sz & Hb & Hc).
    exists sz. split; auto. apply Keep. auto.
Qed.

Lemma valid_set_mem s m p : valid (set_mem s m) p = valid s p.
Proof. reflexivity. Qed.

Lemma valid_same_region s s' p : same_region s s' -> valid s' p = valid s p.
Proof.
  intros (R1 & R2 & _). unfold valid. now rewrite R1, R2.
Qed.

Lemma wrap_PACK sz al :
  0 <= sz < 2 ^ 32 -> sz mod 8 = 0 -> wrap (PACK sz (b2z al)) = tag sz al.
Proof.
  intros H0 H. rewrite PACK_spec by lia. apply wrap_small.
  unfold tag, b2z. destruct al; lia.
Qed.

Ltac solve_valid :=
  rewrite ?valid_set_mem;
  try match goal with
      | SR : same_region ?s ?s' |- valid ?s' _ = true =>
          rewrite (valid_same_region _ _ _ SR)
      end;
  apply valid_iff; lia.

Ltac wraps :=
  repeat match goal with
         | |- context [wrap ?x] => rewrite (wrap_small x) by lia
         end.

Lemma set_mem_twice s m1 m2 : set_mem (set_mem s m1) m2 = set_mem s m2.
Proof. reflexivity. Qed.

Lemma upd_eq m p v a : a = p -> upd m p v a = v.
Proof. intros ->. apply upd_same. Qed.

Ltac upd_tac :=
  rewrite ?set_mem_twice; cbn [mem set_mem];
  repeat first [rewrite upd_same | rewrite upd_other by lia
               | rewrite upd_eq by lia].

Ltac tags :=
  change (PACK ?x 1) with (PACK x (b2z true));
  change (PACK ?x 0) with (PACK x (b2z false));
  rewrite ?wrap_PACK by lia.

Ltac norm :=
  unfold HDRP, pAtC, p_to_char, p_char_GET, pAtC_GET, FTRP, NEXT_BLKP,
    PREV_BLKP, BLOCKSIZE, WSIZE, DSIZE;
  change (4 * 4) with 16;
  upd_tac;
  repeat match goal with
         | H : mem ?s ?a = _ |- context [mem ?s ?a] => rewrite H
         end;
  wraps; tags; rewrite ?size_of_tag, ?alloc_of_tag by lia; wraps.

Ltac wp_step :=
  lazymatch goal with
  | |- wp (bind (bind _ _) _) _ _ => apply wp_bind
  | |- wp (bind (GET _) _) _ _ => apply wp_bind, wp_GET; [solve_valid|]
  | |- wp (bind (GET_SIZE _) _) _ _ =>
      apply wp_bind, wp_GET_SIZE; [solve_valid|]
  | |- wp (bind (GET_ALLOC _) _) _ _ =>
      apply wp_bind, wp_GET_ALLOC; [solve_valid|]
  | |- wp (bind (PUT _ _) _) _ _ => apply wp_bind, wp_PUT; [solve_valid|]
  | |- wp (bind (ret _) _) _ _ => apply wp_bind, wp_ret
  | |- wp (bind get_FreeBlocks _) _ _ => apply wp_bind, wp_get_FreeBlocks
  | |- wp (PUT _ _) _ _ => apply wp_PUT; [solve_valid|]
  | |- wp (GET _) _ _ => apply wp_GET; [solve_valid|]
  | |- wp (GET_SIZE _) _ _ => apply wp_GET_SIZE; [solve_valid|]
  | |- wp (GET_ALLOC _) _ _ => apply wp_GET_ALLOC; [solve_valid|]
  | |- wp (ret _) _ _ => apply wp_ret
  end; cbv beta; norm.

(* a node of the index is in no other place of the index *)
Lemma removed_not_in s bl idx c i1 bp i2 k :
  rep s bl idx -> 0 <= c < 17 -> idx c = i1 ++ bp :: i2 -> 0 <= k < 17 ->
  ~ In bp (idx_set idx c (i1 ++ i2) k).
Proof.
  intros R Hc El Hk Hi. pose proof R as (L & I & [N1 N2]).
  destruct (Z.eq_dec k c) as [->|Hne].
  - rewrite idx_set_same in Hi. specialize (N2 c Hc). rewrite El in N2.
    apply NoDup_remove_2 in N2. auto.
  - rewrite idx_set_other in Hi by auto. apply Hne.
    eapply node_bucket_unique; eauto. rewrite El.
    apply in_or_app. right. now left.
Qed.

(** ** Placement *)

Lemma place_spec s idx l1 csz l2 c i1 i2 asize :
  let bp := FreeBlocks s + 80 + total l1 in
  rep s (l1 ++ [(csz, false)] ++ l2) idx ->
  c = size_class_of csz -> idx c = i1 ++ bp :: i2 ->
  16 <= asize <= csz -> asize mod 8 = 0 ->
  let idx1 := idx_set idx c (i1 ++ i2) in
  let c' := size_class_of (csz - asize) in
  wp (place bp asize) (fun _ s' =>
    same_region s s' /\
    (forall x, (x < bp - 4 \/ bp + csz - 4 <= x) ->
               ~ link_word s (l1 ++ [(csz, false)] ++ l2) x ->
               mem s' x = mem s x) /\
    if csz - asize >=? 16
    then rep s' (l1 ++ [(asize, true); (csz - asize, false)] ++ l2)
             (idx_set idx1 c' ((bp + asize) :: idx1 c'))
    else rep s' (l1 ++ [(csz, true)] ++ l2) idx1) s.
Proof.
  intros bp R Ec El Ha Ha8 idx1 c'.
  pose proof R as (L & I & [N1 N2]).
  assert (Hc : 0 <= c < 17) by (subst c; apply size_class_of_range).
  assert (Hb : In (bp, csz, false)
                 (blist (FreeBlocks s + 80) (l1 ++ [(csz, false)] ++ l2))).
  { apply blist_In_app3. right. left. now left. }
  pose proof (block_facts _ _ _ _ _ L Hb) as (G & B & Th & Tf).
  unfold place. norm.
  wp_step.
  destruct (csz - asize >=? 16) eqn:Esplit.
  - assert (16 <= csz - asize) by lia.
    apply wp_bind.
    eapply wp_mono; [eapply free_list_remove_spec; eauto|].
    intros _ s1 (R1 & SR1 & F1 & Z1 & Z2). cbv beta.
    pose proof SR1 as (Q1 & Q2 & Q3 & Q4 & Q5 & Q6).
    do 15 wp_step.
    match goal with |- wp _ _ ?s2 => remember s2 as s' eqn:Es' end.
    assert (SR' : same_region s1 s') by (subst s'; apply same_region_set_mem).
    assert (R' : rep s' (l1 ++ [(asize, true); (csz - asize, false)] ++ l2)
                   idx1).
    { eapply rep_replace; eauto.
      - simpl. lia.
      - intros sz al [E|[E|[]]]; inversion E; subst; lia.
      - rewrite Q5. intros b sz al k [E|[]] Hk. inversion E; subst b sz al.
        eapply removed_not_in; eauto.
      - rewrite Q5. cbn [total]. fold bp. intros x Hx. subst s'. upd_tac.
        reflexivity.
      - rewrite Q5. fold bp. intros a sz al [E|[E|[]]]; inversion E; subst.
        + upd_tac. auto.
        + replace (bp + asize + (csz - asize) - 8) with (bp + csz - 8) by lia.
          upd_tac. auto. }
    assert (Hb' : In (bp + asize, csz - asize, false)
              (blist (FreeBlocks s' + 80)
                 (l1 ++ [(asize, true); (csz - asize, false)] ++ l2))).
    { destruct SR' as (_ & _ & _ & _ & -> & _). rewrite Q5.
      apply blist_In_app3. right. left. right. left. reflexivity. }
    eapply wp_mono; [eapply free_list_insert_spec; eauto|].
    + intros k Hk Hin.
      destruct (node_facts _ _ _ _ _ R1 Hk Hin) as (sn & Hn & _).
      rewrite Q5 in Hn.
      pose proof (blist_In_disjoint _ _ _ _ _ _ _ _ (lay_sizes _ _ L) Hb Hn).
      pose proof (blist_In_sizes _ _ _ _ _ (lay_sizes _ _ L) Hn). lia.
    + intros _ s2 (R2 & SR2 & F2). cbv beta.
      split; [eapply same_region_trans; eauto;
              eapply same_region_trans; eauto|].
      split; [|exact R2].
      intros x Hx Hl. rewrite F2.
      * subst s'. upd_tac. auto.
      * intros [Hs|(b & sb & Hbl & Hbx)]; apply Hl.
        -- left. destruct SR' as (_ & _ & _ & _ & E & _). rewrite E, Q5 in Hs.
           exact Hs.
        -- right. exists b, sb. split; auto.
           destruct SR' as (_ & _ & _ & _ & E & _). rewrite E, Q5 in Hbl.
           apply blist_In_app3 in Hbl. apply blist_In_app3.
           destruct Hbl as [Hbl|[Hbl|Hbl]]; auto.
           ++ destruct Hbl as [E'|[E'|[]]]; inversion E'; subst b sb.
              fold bp in Hbx. lia.
           ++ right. right. cbn [total] in *.
              replace (FreeBlocks s + 80 + total l1 + (csz + 0))
                with (FreeBlocks s + 80 + total l1 + (asize + (csz - asize + 0)))
                by lia. exact Hbl.
  - assert (csz - asize < 16) by lia.
    apply wp_bind.
    eapply wp_mono; [eapply free_list_remove_spec; eauto|].
    intros _ s1 (R1 & SR1 & F1 & Z1 & Z2). cbv beta.
    pose proof SR1 as (Q1 & Q2 & Q3 & Q4 & Q5 & Q6).
    do 4 wp_step. wp_step.
    match goal with |- _ /\ _ /\ rep ?s2 _ _ => remember s2 as s' eqn:Es' end.
    assert (SR' : same_region s1 s') by (subst s'; apply same_region_set_mem).
    split; [eapply same_region_trans; eauto|]. split.
    + intros x Hx Hl. subst s'. upd_tac. auto.
    + eapply rep_replace; eauto.
      * intros sz al [E|[]]; inversion E; subst; lia.
      * rewrite Q5. intros b sz al k [E|[]] Hk. inversion E; subst b sz al.
        eapply removed_not_in; eauto.
      * rewrite Q5. cbn [total]. fold bp. intros x Hx. subst s'. upd_tac.
        reflexivity.
      * rewrite Q5. fold bp. intros a sz al [E|[]]; inversion E; subst.
        upd_tac. auto.
Qed.

(** ** The index as a function of the buckets in use *)

Lemma rep_ext s bl idx idx' :
  (forall k, 0 <= k < 17 -> idx k = idx' k) -> rep s bl idx -> rep s bl idx'.
Proof.
  intros E (L & I & [N1 N2]). split; [exact L|]. split; [|split].
  - intros k Hk. rewrite <- (E k Hk). auto.
  - intros k a Hk. rewrite <- (E k Hk). auto.
  - intros k Hk. rewrite <- (E k Hk). auto.
Qed.

Lemma remove_NoDup_mid (i1 i2 : list Z) a :
  NoDup (i1 ++ a :: i2) -> remove Z.eq_dec a (i1 ++ a :: i2) = i1 ++ i2.
Proof.
  intros Hu. pose proof (NoDup_remove_2 _ _ _ Hu) as Hn.
  rewrite remove_app. cbn [remove].
  destruct (Z.eq_dec a a) as [_|]; [|congruence].
  rewrite !notin_remove; auto; intros Hi; apply Hn, in_or_app; auto.
Qed.

Lemma idx_remove_set s bl idx c i1 a i2 k :
  rep s bl idx -> 0 <= c < 17 -> idx c = i1 ++ a :: i2 -> 0 <= k < 17 ->
  idx_set idx c (i1 ++ i2) k = idx_remove idx a k.
Proof.
  intros R Hc El Hk. pose proof R as (L & I & [N1 N2]).
  unfold idx_remove. destruct (Z.eq_dec k c) as [->|Hne].
  - rewrite idx_set_same, El. symmetry. apply remove_NoDup_mid.
    rewrite <- El. auto.
  - rewrite idx_set_other by auto. symmetry. apply notin_remove.
    intros Hi. apply Hne. eapply node_bucket_unique; eauto.
    rewrite El. apply in_or_app. right. now left.
Qed.

Lemma In_idx_remove idx a k b :
  In b (idx_remove idx a k) <-> In b (idx k) /\ b <> a.
Proof.
  unfold idx_remove. split.
  - apply in_remove.
  - intros [H1 H2]. apply in_in_remove; auto.
Qed.

Lemma In_idx_insert idx c a k b :
  In b (idx_insert idx c a k) <-> (k = c /\ b = a) \/ In b (idx k).
Proof.
  unfold idx_insert. destruct (Z.eq_dec k c) as [->|Hne].
  - rewrite idx_set_same. simpl. intuition congruence.
  - rewrite idx_set_other by auto. intuition congruence.
Qed.

(* removal of a linked free block, in terms of the index as a whole *)
Lemma free_list_remove_ok s bl idx bp sz :
  rep s bl idx -> In (bp, sz, false) (blist (FreeBlocks s + 80) bl) ->
  In bp (idx (size_class_of sz)) ->
  wp (free_list_remove bp) (fun _ s' =>
     rep s' bl (idx_remove idx bp) /\ same_region s s' /\
     (forall a, ~ link_word s bl a -> mem s' a = mem s a) /\
     mem s' bp = 0 /\ mem s' (bp + 4) = 0) s.
Proof.
  intros R Hb Hi. destruct (in_split _ _ Hi) as (i1 & i2 & El).
  pose proof (size_class_of_range sz) as Hc.
  eapply wp_mono; [eapply free_list_remove_spec; eauto|].
  intros _ s' (R' & SR & F & Z1 & Z2). split; [|tauto].
  eapply rep_ext; [|exact R']. intros k Hk.
  eapply idx_remove_set; eauto.
Qed.

(** ** Neighbours of a block *)

Lemma prev_footer s l1 l2 :
  layout s (l1 ++ l2) ->
  let bp := FreeBlocks s + 80 + total l1 in
  let p := prev_blk l1 in
  mem s (bp - 8) = tag (fst p) (snd p) /\
  mem s (bp - fst p - 4) = tag (fst p) (snd p) /\
  8 <= fst p /\ fst p mod 8 = 0 /\ FreeBlocks s + 72 <= bp - fst p /\
  (snd p = false -> exists l1', l1 = l1' ++ [(fst p, false)]).
Proof.
  intros L bp p. subst bp p. unfold prev_blk.
  destruct (list_last_cases_gen l1) as [->|(l1' & [psz pal] & ->)].
  - cbn [last total fst snd]. destruct L.
    replace (FreeBlocks s + 80 + 0 - 8) with (FreeBlocks s + 72) by lia.
    replace (FreeBlocks s + 72 - 4) with (FreeBlocks s + 68) by lia.
    unfold tag, b2z. repeat split; try lia; try assumption; discriminate.
  - rewrite last_last. cbn [fst snd]. rewrite <- app_assoc in L.
    assert (Hb : In (FreeBlocks s + 80 + total l1', psz, pal)
                    (blist (FreeBlocks s + 80) (l1' ++ [(psz, pal)] ++ l2))).
    { apply blist_In_app3. right. left. now left. }
    pose proof (block_facts _ _ _ _ _ L Hb) as (G & B & Th & Tf).
    rewrite total_app. cbn [total].
    replace (FreeBlocks s + 80 + (total l1' + (psz + 0)) - 8)
      with (FreeBlocks s + 80 + total l1' + psz - 8) by lia.
    replace (FreeBlocks s + 80 + (total l1' + (psz + 0)) - psz - 4)
      with (FreeBlocks s + 80 + total l1' - 4) by lia.
    repeat split; try lia; try assumption.
    intros ->. eauto.
Qed.

Lemma next_header s l1 l2 :
  layout s (l1 ++ l2) ->
  let bp := FreeBlocks s + 80 + total l1 in
  let n := next_blk l2 in
  mem s (bp - 4) = tag (fst n) (snd n) /\
  0 <= fst n /\ fst n mod 8 = 0 /\ bp + fst n <= mem_brk s /\
  (snd n = false -> exists l2', l2 = (fst n, false) :: l2').
Proof.
  intros L bp n. subst bp n. unfold next_blk.
  destruct l2 as [|[nsz nal] l2'].
  - cbn [hd fst snd]. pose proof (lay_brk _ _ L) as Hb.
    pose proof (lay_epi _ _ L) as He. rewrite app_nil_r in Hb.
    rewrite Hb in He. unfold tag, b2z.
    repeat split; try lia; try assumption; try discriminate.
  - cbn [hd fst snd].
    assert (Hb : In (FreeBlocks s + 80 + total l1, nsz, nal)
                    (blist (FreeBlocks s + 80) (l1 ++ (nsz, nal) :: l2'))).
    { apply blist_In_mid. }
    pose proof (block_facts _ _ _ _ _ L Hb) as (G & B & Th & Tf).
    repeat split; try lia; try assumption.
    intros ->. eauto.
Qed.

(** ** Coalescing *)

Lemma coalesce_spec s idx l1 sz l2 :
  let bp := FreeBlocks s + 80 + total l1 in
  let bl := l1 ++ [(sz, false)] ++ l2 in
  rep s bl idx ->
  (forall k, 0 <= k < 17 -> ~ In bp (idx k)) ->
  complete_but (FreeBlocks s + 80) bl idx bp ->
  wp (coalesce bp) (fun b s' =>
    let '(l1', psz) := coalesce_prev l1 in
    let '(l2', nsz) := coalesce_next l2 in
    b = bp - psz /\ b = FreeBlocks s + 80 + total l1' /\
    rep s' (l1' ++ [(psz + sz + nsz, false)] ++ l2')
        (coalesce_index idx l1 bp sz l2) /\
    same_region s s' /\
    (forall x, (x < b - 4 \/ b + (psz + sz + nsz) - 4 <= x) ->
               ~ link_word s bl x -> mem s' x = mem s x)) s.
Proof.
  intros bp bl R Hn Hcb. pose proof R as (L & I & [N1 N2]).
  assert (Hb : In (bp, sz, false) (blist (FreeBlocks s + 80) bl)).
  { apply blist_In_app3. right. left. now left. }
  pose proof (block_facts _ _ _ _ _ L Hb) as (G & B & Th & Tf).
  pose proof (prev_footer s l1 ([(sz, false)] ++ l2) L) as HP.
  fold bp in HP. cbv zeta in HP.
  pose proof (next_header s (l1 ++ [(sz, false)]) l2) as HN.
  rewrite <- app_assoc in HN. specialize (HN L).
  rewrite total_app in HN. cbn [total] in HN.
  replace (FreeBlocks s + 80 + (total l1 + (sz + 0))) with (bp + sz) in HN
    by (unfold bp; lia).
  cbv zeta in HN.
  unfold coalesce_prev, coalesce_next, coalesce_index.
  destruct (prev_blk l1) as [psz pal]. destruct (next_blk l2) as [nsz nal].
  cbn [fst snd] in *.
  destruct HP as (P1 & P2 & P3 & P4 & P5 & P6).
  destruct HN as (N3 & N4 & N5 & N6 & N7).
  unfold coalesce. norm.
  do 3 wp_step. do 3 wp_step.
  replace (bp - psz + psz - 8) with (bp - 8) by lia.
  wp_step.
  do 3 wp_step. wp_step. wp_step.
  destruct pal, nal; cbn [b2z Z.eqb negb andb].
  - (* Case 1 *)
    wp_step. replace (bp - 0) with bp by lia.
    replace (0 + sz + 0) with sz by lia.
    split; [reflexivity|]. split; [reflexivity|]. split; [exact R|].
    split; [apply same_region_refl | auto].
  - (* Case 2 *)
    destruct (N7 eq_refl) as (l2' & ->). cbn [tl].
    assert (Hnb : In (bp + sz, nsz, false) (blist (FreeBlocks s + 80) bl)).
    { unfold bl. apply blist_In_app3. right. right. cbn [total].
      left. f_equal. f_equal. unfold bp. lia. }
    pose proof (block_facts _ _ _ _ _ L Hnb) as (_ & Bn & Tnh & Tnf).
    do 3 wp_step.
    apply wp_bind.
    eapply wp_mono; [eapply free_list_remove_ok; eauto|].
    { apply Hcb; auto. lia. }
    intros _ s1 (R1 & SR1 & F1 & Z1 & Z2). cbv beta.
    pose proof SR1 as (Q1 & Q2 & Q3 & Q4 & Q5 & Q6).
    destruct (tags_not_link _ _ _ _ _ L Hb) as [Tb1 Tb2].
    destruct (tags_not_link _ _ _ _ _ L Hnb) as [Tn1 Tn2].
    pose proof (F1 _ Tb1) as Fb1. pose proof (F1 _ Tb2) as Fb2.
    pose proof (F1 _ Tn1) as Fn1. pose proof (F1 _ Tn2) as Fn2.
    rewrite Th in Fb1. rewrite Tf in Fb2. rewrite Tnh in Fn1.
    rewrite Tnf in Fn2.
    do 3 wp_step. wp_step. wp_step. do 3 wp_step. do 2 wp_step.
    match goal with |- _ /\ _ /\ rep ?s2 _ _ /\ _ =>
      remember s2 as s' eqn:Es' end.
    assert (SR' : same_region s1 s') by (subst s'; apply same_region_set_mem).
    replace (bp - 0) with bp by lia. replace (0 + sz + nsz) with (sz + nsz) by lia.
    split; [reflexivity|]. split; [reflexivity|]. split; [|split].
    + eapply (rep_replace s1 s' _ l1 [(sz, false); (nsz, false)]
                [(sz + nsz, false)] l2'); eauto.
      * simpl. lia.
      * intros z al [E|[]]; inversion E; subst; lia.
      * rewrite Q5. fold bp. intros b z al k [E|[E|[]]] Hk;
          inversion E; subst b z al; rewrite In_idx_remove.
        -- intros [Hi _]. exact (Hn k Hk Hi).
        -- intros [_ Hi]. apply Hi. reflexivity.
      * rewrite Q5. cbn [total]. fold bp. intros x Hx. subst s'. upd_tac.
        reflexivity.
      * rewrite Q5. fold bp. intros a z al [E|[]]; inversion E; subst.
        upd_tac. auto.
    + eapply same_region_trans; eauto.
    + intros x Hx Hl. subst s'. upd_tac. auto.
  - (* Case 3 *)
    destruct (P6 eq_refl) as (l1' & El1).
    assert (Er : removelast l1 = l1') by (rewrite El1; apply removelast_last).
    rewrite Er.
    assert (Et : total l1 = total l1' + psz).
    { rewrite El1, total_app. cbn [total]. lia. }
    assert (Hpb : In (bp - psz, psz, false) (blist (FreeBlocks s + 80) bl)).
    { unfold bl. rewrite El1, <- app_assoc. apply blist_In_app3.
      right. left. left. f_equal. f_equal. unfold bp. lia. }
    pose proof (block_facts _ _ _ _ _ L Hpb) as (_ & Bp & Tph & Tpf).
    do 3 wp_step.
    apply wp_bind.
    eapply wp_mono; [eapply free_list_remove_ok; eauto|].
    { apply Hcb; auto. lia. }
    intros _ s1 (R1 & SR1 & F1 & Z1 & Z2). cbv beta.
    pose proof SR1 as (Q1 & Q2 & Q3 & Q4 & Q5 & Q6).
    destruct (tags_not_link _ _ _ _ _ L Hb) as [Tb1 Tb2].
    destruct (tags_not_link _ _ _ _ _ L Hpb) as [Tp1 Tp2].
    pose proof (F1 _ Tb1) as Fb1. pose proof (F1 _ Tb2) as Fb2.
    pose proof (F1 _ Tp1) as Fp1. pose proof (F1 _ Tp2) as Fp2.
    rewrite Th in Fb1. rewrite Tf in Fb2. rewrite Tph in Fp1.
    rewrite Tpf in Fp2.
    replace (bp - psz + psz - 8) with (bp - 8) in Fp2 by lia.
    do 3 wp_step. wp_step. do 3 wp_step. wp_step. do 3 wp_step. wp_step.
    do 3 wp_step. wp_step.
    match goal with |- _ /\ _ /\ rep ?s2 _ _ /\ _ =>
      remember s2 as s' eqn:Es' end.
    assert (SR' : same_region s1 s') by (subst s'; apply same_region_set_mem).
    replace (psz + sz + 0) with (sz + psz) by lia.
    split; [reflexivity|]. split; [unfold bp; lia|]. split; [|split].
    + unfold bl in R1. rewrite El1, <- app_assoc in R1.
      eapply (rep_replace s1 s' _ l1' [(psz, false); (sz, false)]
                [(sz + psz, false)] l2); eauto.
      * simpl. lia.
      * intros z al [E|[]]; inversion E; subst; lia.
      * rewrite Q5.
        replace (FreeBlocks s + 80 + total l1') with (bp - psz)
          by (unfold bp; lia).
        intros b z al k [E|[E|[]]] Hk;
          inversion E; subst b z al; rewrite In_idx_remove.
        -- intros [_ Hi]. apply Hi. reflexivity.
        -- replace (bp - psz + psz) with bp by lia.
           intros [Hi _]. exact (Hn k Hk Hi).
      * rewrite Q5. cbn [total].
        replace (FreeBlocks s + 80 + total l1') with (bp - psz)
          by (unfold bp; lia).
        intros x Hx. subst s'. upd_tac. reflexivity.
      * rewrite Q5.
        replace (FreeBlocks s + 80 + total l1') with (bp - psz)
          by (unfold bp; lia).
        intros a z al [E|[]]; inversion E; subst.
        replace (bp - psz + (sz + psz) - 8) with (bp + sz - 8) by lia.
        upd_tac. auto.
    + eapply same_region_trans; eauto.
    + intros x Hx Hl. subst s'. upd_tac. auto.
  - (* Case 4 *)
    destruct (P6 eq_refl) as (l1' & El1).
    destruct (N7 eq_refl) as (l2' & ->). cbn [tl].
    assert (Er : removelast l1 = l1') by (rewrite El1; apply removelast_last).
    rewrite Er.
    assert (Et : total l1 = total l1' + psz).
    { rewrite El1, total_app. cbn [total]. lia. }
    assert (Hpb : In (bp - psz, psz, false) (blist (FreeBlocks s + 80) bl)).
    { unfold bl. rewrite El1, <- app_assoc. apply blist_In_app3.
      right. left. left. f_equal. f_equal. unfold bp. lia. }
    assert (Hnb : In (bp + sz, nsz, false) (blist (FreeBlocks s + 80) bl)).
    { unfold bl. apply blist_In_app3. right. right. cbn [total].
      left. f_equal. f_equal. unfold bp. lia. }
    pose proof (block_facts _ _ _ _ _ L Hpb) as (_ & Bp & Tph & Tpf).
    pose proof (block_facts _ _ _ _ _ L Hnb) as (_ & Bn & Tnh & Tnf).
    do 3 wp_step.
    apply wp_bind.
    eapply wp_mono; [eapply free_list_remove_ok; eauto|].
    { apply Hcb; auto. lia. }
    intros _ s1 (R1 & SR1 & F1 & _ & _). cbv beta.
    pose proof SR1 as (Q1 & Q2 & Q3 & Q4 & Q5 & Q6).
    pose proof Hb as Hb1. pose proof Hpb as Hpb1. pose proof Hnb as Hnb1.
    rewrite <- Q5 in Hb1, Hpb1, Hnb1.
    pose proof (block_facts _ _ _ _ _ (proj1 R1) Hb1) as (_ & _ & Th1 & Tf1).
    pose proof (block_facts _ _ _ _ _ (proj1 R1) Hpb1) as (_ & _ & Tph1 & Tpf1).
    pose proof (block_facts _ _ _ _ _ (proj1 R1) Hnb1) as (_ & _ & Tnh1 & Tnf1).
    replace (bp - psz + psz - 8) with (bp - 8) in Tpf1 by lia.
    do 3 wp_step.
    apply wp_bind.
    eapply wp_mono; [eapply free_list_remove_ok; eauto|].
    { apply In_idx_remove. split; [apply Hcb; auto|]; lia. }
    intros _ s2 (R2 & SR2 & F2 & _ & _). cbv beta.
    pose proof SR2 as (Q1' & Q2' & Q3' & Q4' & Q5' & Q6').
    pose proof Hb1 as Hb2. pose proof Hpb1 as Hpb2. pose proof Hnb1 as Hnb2.
    rewrite <- Q5' in Hb2, Hpb2, Hnb2.
    pose proof (block_facts _ _ _ _ _ (proj1 R2) Hb2) as (_ & _ & Th2 & Tf2).
    pose proof (block_facts _ _ _ _ _ (proj1 R2) Hpb2) as (_ & _ & Tph2 & Tpf2).
    pose proof (block_facts _ _ _ _ _ (proj1 R2) Hnb2) as (_ & _ & Tnh2 & Tnf2).
    replace (bp - psz + psz - 8) with (bp - 8) in Tpf2 by lia.
    assert (SR12 : same_region s s2) by (eapply same_region_trans; eauto).
    clear SR2.
    do 3 wp_step. wp_step. do 3 wp_step. do 3 wp_step. wp_step.
    do 3 wp_step. wp_step. do 3 wp_step. do 3 wp_step. wp_step.
    do 3 wp_step. wp_step.
    match goal with |- _ /\ _ /\ rep ?s3 _ _ /\ _ =>
      remember s3 as s' eqn:Es' end.
    assert (SR' : same_region s2 s') by (subst s'; apply same_region_set_mem).
    replace (psz + sz + nsz) with (sz + (psz + nsz)) by lia.
    split; [reflexivity|]. split; [unfold bp; lia|]. split; [|split].
    + unfold bl in R2. rewrite El1, <- app_assoc in R2.
      eapply (rep_replace s2 s' _ l1'
                [(psz, false); (sz, false); (nsz, false)]
                [(sz + (psz + nsz), false)] l2'); eauto.
      * simpl. lia.
      * intros z al [E|[]]; inversion E; subst; lia.
      * rewrite Q5', Q5.
        replace (FreeBlocks s + 80 + total l1') with (bp - psz)
          by (unfold bp; lia).
        intros b z al k [E|[E|[E|[]]]] Hk;
          inversion E; subst b z al; rewrite !In_idx_remove.
        -- intros [[_ Hi] _]. apply Hi. reflexivity.
        -- replace (bp - psz + psz) with bp by lia.
           intros [[Hi _] _]. exact (Hn k Hk Hi).
        -- replace (bp - psz + psz) with bp by lia.
           intros [_ Hi]. apply Hi. reflexivity.
      * rewrite Q5', Q5. cbn [total].
        replace (FreeBlocks s + 80 + total l1') with (bp - psz)
          by (unfold bp; lia).
        intros x Hx. subst s'. upd_tac. reflexivity.
      * rewrite Q5', Q5.
        replace (FreeBlocks s + 80 + total l1') with (bp - psz)
          by (unfold bp; lia).
        intros a z al [E|[]]; inversion E; subst.
        replace (bp - psz + (sz + (psz + nsz)) - 8)
          with (bp + sz + nsz - 8) by lia.
        upd_tac. auto.
    + eapply same_region_trans; eauto.
    + intros x Hx Hl. subst s'. upd_tac. rewrite F2; auto.
      intros [Hs|(b & sb & Hbl & Hbx)]; apply Hl.
      * left. rewrite Q5 in Hs. exact Hs.
      * right. exists b, sb. rewrite Q5 in Hbl. auto.
Qed.

(* after coalescing, the merged block is the only free block not linked *)
Lemma coalesce_complete s idx l1 sz l2 :
  let first := FreeBlocks s + 80 in
  let bp := first + total l1 in
  let bl := l1 ++ [(sz, false)] ++ l2 in
  rep s bl idx ->
  (forall k, 0 <= k < 17 -> ~ In bp (idx k)) ->
  complete_but first bl idx bp ->
  let '(l1', psz) := coalesce_prev l1 in
  let '(l2', nsz) := coalesce_next l2 in
  let idx' := coalesce_index idx l1 bp sz l2 in
  (forall k, 0 <= k < 17 -> ~ In (bp - psz) (idx' k)) /\
  complete_but first (l1' ++ [(psz + sz + nsz, false)] ++ l2') idx'
    (bp - psz).
Proof.
  intros first bp bl R Hn Hcb. pose proof R as (L & I & [N1 N2]).
  pose proof (lay_sizes _ _ L) as SZ.
  apply sizes_ok_app in SZ. destruct SZ as [S1 SZ].
  apply sizes_ok_app in SZ. destruct SZ as [SX S2].
  pose proof (prev_footer s l1 ([(sz, false)] ++ l2) L) as HP.
  fold first bp in HP. cbv zeta in HP.
  pose proof (next_header s (l1 ++ [(sz, false)]) l2) as HN.
  rewrite <- app_assoc in HN. specialize (HN L). cbv zeta in HN.
  unfold coalesce_prev, coalesce_next, coalesce_index.
  destruct (prev_blk l1) as [psz pal]. destruct (next_blk l2) as [nsz nal].
  cbn [fst snd] in *.
  destruct HP as (_ & _ & P3 & _ & _ & P6).
  destruct HN as (_ & N4 & _ & _ & N7).
  assert (Hl1 : exists l1', (if pal then (l1, 0) else (removelast l1, psz))
                            = (l1', if pal then 0 else psz) /\
                  l1 = l1' ++ (if pal then [] else [(psz, false)])).
  { destruct pal.
    - exists l1. now rewrite app_nil_r.
    - destruct (P6 eq_refl) as (l1' & ->). exists l1'.
      now rewrite removelast_last. }
  assert (Hl2 : exists l2', (if nal then (l2, 0) else (tl l2, nsz))
                            = (l2', if nal then 0 else nsz) /\
                  l2 = (if nal then [] else [(nsz, false)]) ++ l2').
  { destruct nal.
    - exists l2. auto.
    - destruct (N7 eq_refl) as (l2' & ->). exists l2'. auto. }
  destruct Hl1 as (l1' & -> & El1). destruct Hl2 as (l2' & -> & El2).
  set (p := if pal then 0 else psz). set (n := if nal then 0 else nsz).
  assert (Et1 : total l1 = total l1' + p).
  { rewrite El1, total_app. subst p. destruct pal; cbn [total]; lia. }
  assert (Hp0 : 0 <= p) by (subst p; destruct pal; lia).
  assert (Hn0 : 0 <= n) by (subst n; destruct nal; lia).
  assert (S1' : sizes_ok l1').
  { rewrite El1 in S1. apply sizes_ok_app in S1. tauto. }
  assert (S2' : sizes_ok l2').
  { rewrite El2 in S2. apply sizes_ok_app in S2. tauto. }
  assert (Hsz : 16 <= sz) by (apply (SX sz false); now left).
  assert (Hps : pal = false -> 16 <= psz).
  { intros ->. apply (S1 psz false). rewrite El1. apply in_or_app.
    right. now left. }
  assert (Hns : nal = false -> 16 <= nsz).
  { intros ->. apply (S2 nsz false). rewrite El2. now left. }
  split.
  - intros k Hk Hi.
    assert (Hi' : In (bp - p) (idx k) /\ (pal = false -> False)).
    { destruct pal, nal; subst p; repeat rewrite In_idx_remove in Hi;
        try (split; [tauto | discriminate]); exfalso; tauto. }
    destruct Hi' as [Hi' Hpf]. destruct pal; [|tauto].
    subst p. replace (bp - 0) with bp in Hi' by lia. exact (Hn k Hk Hi').
  - intros a sa Ha Hne.
    assert (Hold : In (a, sa, false) (blist first bl) /\
                   (a + sa <= bp - p \/ bp + sz + n <= a)).
    { apply blist_In_app3 in Ha. destruct Ha as [Ha|[Ha|Ha]].
      - pose proof (blist_In_range _ _ _ _ _ S1' Ha). split; [|lia].
        unfold bl. rewrite El1, <- app_assoc. apply blist_In_app3. now left.
      - destruct Ha as [E|[]]. inversion E. unfold bp in Hne. lia.
      - pose proof (blist_In_range _ _ _ _ _ S2' Ha).
        cbn [total] in *. split; [|unfold bp; lia].
        unfold bl. rewrite El2. apply blist_In_app3. right. right.
        rewrite blist_app. apply in_or_app. right.
        replace (first + total l1 + total [(sz, false)] +
                 total (if nal then [] else [(nsz, false)]))
          with (first + total l1' + (p + sz + n + 0)); [exact Ha|].
        subst n. destruct nal; cbn [total]; lia. }
    destruct Hold as [Hold Hr].
    pose proof (blist_In_sizes _ _ _ _ _ (lay_sizes _ _ L) Hold).
    assert (In a (idx (size_class_of sa))) by (apply Hcb; auto; lia).
    subst p n. destruct pal, nal; repeat rewrite In_idx_remove;
      repeat split; auto; try specialize (Hps eq_refl);
      try specialize (Hns eq_refl); lia.
Qed.

Lemma complete_insert first bl idx b sz :
  sizes_ok bl -> complete_but first bl idx b ->
  In (b, sz, false) (blist first bl) ->
  complete first bl (idx_insert idx (size_class_of sz) b).
Proof.
  intros S Hc Hb a sa Ha. apply In_idx_insert.
  destruct (Z.eq_dec a b) as [->|Hne]; [left | right; auto].
  pose proof (blist_In_disjoint _ _ _ _ _ _ _ _ S Ha Hb).
  pose proof (blist_In_sizes _ _ _ _ _ S Ha).
  pose proof (blist_In_sizes _ _ _ _ _ S Hb).
  assert (sa = sz) by lia. subst. auto.
Qed.

(* allocated blocks are not linked *)
Lemma alloc_not_linked s bl idx bp sz k :
  rep s bl idx -> In (bp, sz, true) (blist (FreeBlocks s + 80) bl) ->
  0 <= k < 17 -> ~ In bp (idx k).
Proof.
  intros R Hb Hk Hi. pose proof R as (L & I & [N1 N2]).
  destruct (N1 k bp Hk Hi) as (sz' & Hb' & _).
  pose proof (blist_In_disjoint _ _ _ _ _ _ _ _ (lay_sizes _ _ L) Hb Hb').
  pose proof (blist_In_sizes _ _ _ _ _ (lay_sizes _ _ L) Hb).
  pose proof (blist_In_sizes _ _ _ _ _ (lay_sizes _ _ L) Hb').
  assert (true = false) by lia. discriminate.
Qed.

Lemma coalesce_prev_shape l1 :
  sizes_ok l1 ->
  let '(l1', psz) := coalesce_prev l1 in
  (psz = 0 /\ l1' = l1) \/ (16 <= psz /\ l1 = l1' ++ [(psz, false)]).
Proof.
  intros S. unfold coalesce_prev, prev_blk.
  destruct (list_last_cases_gen l1) as [->|(l1' & [psz pal] & ->)].
  - cbn. auto.
  - rewrite last_last. cbn [fst snd]. destruct pal; auto.
    right. rewrite removelast_last. split; auto.
    apply (S psz false). apply in_or_app. right. now left.
Qed.

Lemma coalesce_next_shape l2 :
  sizes_ok l2 ->
  let '(l2', nsz) := coalesce_next l2 in
  (nsz = 0 /\ l2' = l2) \/ (16 <= nsz /\ l2 = (nsz, false) :: l2').
Proof.
  intros S. unfold coalesce_next, next_blk.
  destruct l2 as [|[nsz nal] l2']; cbn; auto.
  destruct nal; auto. right. split; auto. apply (S nsz false). now left.
Qed.

(** ** Release *)

Lemma mm_free_spec s idx l1 sz l2 :
  let bp := FreeBlocks s + 80 + total l1 in
  let bl := l1 ++ [(sz, true)] ++ l2 in
  rep s bl idx -> complete (FreeBlocks s + 80) bl idx ->
  wp (mm_free bp) (fun _ s' =>
    let '(l1', psz) := coalesce_prev l1 in
    let '(l2', nsz) := coalesce_next l2 in
    let b := bp - psz in
    let S := psz + sz + nsz in
    let bl' := l1' ++ [(S, false)] ++ l2' in
    let idx' := idx_insert (coalesce_index idx l1 bp sz l2)
                           (size_class_of S) b in
    rep s' bl' idx' /\ complete (FreeBlocks s + 80) bl' idx' /\
    same_region s s' /\
    (forall x, (x < b - 4 \/ b + S - 4 <= x) -> ~ link_word s bl x ->
               mem s' x = mem s x)) s.
Proof.
  intros bp bl R Hc. pose proof R as (L & I & [N1 N2]).
  assert (Hb : In (bp, sz, true) (blist (FreeBlocks s + 80) bl)).
  { apply blist_In_app3. right. left. now left. }
  pose proof (block_facts _ _ _ _ _ L Hb) as (G & B & Th & Tf).
  unfold mm_free, put_head_foot, put. norm.
  do 10 wp_step.
  match goal with |- wp _ _ ?s2 => remember s2 as s1 eqn:Es1 end.
  assert (SR1 : same_region s s1) by (subst s1; apply same_region_set_mem).
  pose proof SR1 as (Q1 & Q2 & Q3 & Q4 & Q5 & Q6).
  assert (R1 : rep s1 (l1 ++ [(sz, false)] ++ l2) idx).
  { eapply (rep_replace s s1 _ l1 [(sz, true)] [(sz, false)] l2);
      try reflexivity; eauto.
    - intros z al [E|[]]; inversion E; subst; lia.
    - fold bp. intros b z al k [E|[]] Hk. inversion E; subst b z al.
      eapply alloc_not_linked; eauto.
    - cbn [total]. fold bp. intros x Hx. subst s1. upd_tac. reflexivity.
    - fold bp. intros a z al [E|[]]; inversion E; subst. upd_tac.
      split; reflexivity. }
  assert (Sub : forall a sa, a <> bp ->
            In (a, sa, false) (blist (FreeBlocks s + 80)
                                 (l1 ++ [(sz, false)] ++ l2)) ->
            In (a, sa, false) (blist (FreeBlocks s + 80) bl)).
  { intros a sa Hne Ha. unfold bl. apply blist_In_app3 in Ha.
    apply blist_In_app3. destruct Ha as [Ha|[Ha|Ha]]; [tauto| |tauto].
    destruct Ha as [E|[]]. inversion E. unfold bp in Hne. lia. }
  assert (Hn1 : forall k, 0 <= k < 17 -> ~ In bp (idx k)).
  { intros k Hk. exact (alloc_not_linked s bl idx bp sz k R Hb Hk). }
  assert (Hcb : complete_but (FreeBlocks s + 80)
                  (l1 ++ [(sz, false)] ++ l2) idx bp).
  { intros a sa Ha Hne. apply Hc. apply Sub; auto. }
  pose proof (coalesce_spec s1 idx l1 sz l2) as HC.
  pose proof (coalesce_complete s1 idx l1 sz l2) as HK.
  cbv zeta in HC, HK. rewrite Q5 in HC, HK. fold bp in HC, HK.
  specialize (HC R1 Hn1 Hcb). specialize (HK R1 Hn1 Hcb).
  pose proof (lay_sizes _ _ L) as SZ.
  apply sizes_ok_app in SZ. destruct SZ as [S1 SZ].
  apply sizes_ok_app in SZ. destruct SZ as [SX S2].
  pose proof (coalesce_prev_shape l1 S1) as HPs.
  pose proof (coalesce_next_shape l2 S2) as HNs.
  destruct (coalesce_prev l1) as [l1' psz].
  destruct (coalesce_next l2) as [l2' nsz].
  destruct HK as [K1 K2].
  apply wp_bind. eapply wp_mono; [exact HC|].
  intros b s2 (E1 & E2 & R2 & SR2 & F2). cbv beta.
  pose proof SR2 as (Q1' & Q2' & Q3' & Q4' & Q5' & Q6').
  assert (Hb2 : In (b, psz + sz + nsz, false)
              (blist (FreeBlocks s2 + 80)
                 (l1' ++ [(psz + sz + nsz, false)] ++ l2'))).
  { rewrite Q5', Q5. apply blist_In_app3. right. left. left.
    f_equal. f_equal. lia. }
  eapply wp_mono; [eapply free_list_insert_spec; eauto|].
  { rewrite E1. exact K1. }
  intros _ s3 (R3 & SR3 & F3). cbv beta.
  rewrite <- E1. split; [exact R3|]. split; [|split].
  - apply complete_insert; auto.
    + apply (lay_sizes _ _ (proj1 R2)).
    + rewrite E1. exact K2.
    + rewrite Q5', Q5 in Hb2. exact Hb2.
  - eapply same_region_trans; eauto. eapply same_region_trans; eauto.
  - intros x Hx Hl.
    assert (Hrange : b <= bp /\ bp + sz <= b + (psz + sz + nsz)).
    { destruct HPs as [[-> _]|[? _]], HNs as [[-> _]|[? _]]; lia. }
    assert (Hl1 : ~ link_word s1 (l1 ++ [(sz, false)] ++ l2) x).
    { intros [Hs|(a & sa & Ha & Hax)]; apply Hl.
      - left. rewrite Q5 in Hs. exact Hs.
      - right. exists a, sa. split; auto. rewrite Q5 in Ha. apply Sub; auto.
        intros ->. lia. }
    assert (Hl2 : ~ link_word s2 (l1' ++ [(psz + sz + nsz, false)] ++ l2') x).
    { intros [Hs|(a & sa & Ha & Hax)]; apply Hl.
      - left. rewrite Q5', Q5 in Hs. exact Hs.
      - right. exists a, sa. split; auto. rewrite Q5', Q5 in Ha.
        apply blist_In_app3 in Ha. unfold bl. apply blist_In_app3.
        destruct Ha as [Ha|[Ha|Ha]].
        + left. destruct HPs as [[_ ->]|[_ ->]]; auto.
          rewrite blist_app. apply in_or_app. now left.
        + destruct Ha as [E|[]]. inversion E. subst a. lia.
        + right. right. cbn [total] in *.
          destruct HNs as [[-> ->]|[? ->]].
          * replace (FreeBlocks s + 80 + total l1 + (sz + 0))
              with (FreeBlocks s + 80 + total l1' + (psz + sz + 0 + 0));
              auto.
            fold bp. lia.
          * right.
            replace (FreeBlocks s + 80 + total l1 + (sz + 0) + nsz)
              with (FreeBlocks s + 80 + total l1' + (psz + sz + nsz + 0));
              auto.
            fold bp. lia. }
    rewrite F3 by exact Hl2. rewrite F2 by (auto; lia).
    subst s1. upd_tac. reflexivity.
Qed.

(** ** The search *)

Lemma GET_run s p : valid s p = true -> GET p s = Ok (mem s p) s.
Proof. intros V. unfold GET. now rewrite V. Qed.

Lemma GET_SIZE_run s p :
  valid s p = true -> GET_SIZE p s = Ok (size_of_word (mem s p)) s.
Proof. intros V. unfold GET_SIZE, bind. now rewrite GET_run. Qed.

Lemma scan_list_spec s tmp l :
  forall prev fuel,
  dlseg (mem s) prev 0 l ->
  (forall a, In a l -> a <> 0 /\ valid s (a - 4) = true /\
                       valid s (a + 4) = true /\ 4 <= a < 2 ^ 32 - 4) ->
  (List.length l < fuel)%nat ->
  scan_list fuel tmp (hd 0 l) s = Ok (first_fit s tmp l) s.
Proof.
  induction l as [|a r IH]; intros prev fuel D V Hf.
  - destruct fuel; [inversion Hf|]. reflexivity.
  - destruct fuel as [|fuel]; [inversion Hf|].
    destruct (V a) as (Ha0 & V1 & V2 & Hr); [now left|].
    cbn [dlseg hd] in *. destruct D as (D1 & D2 & D3).
    cbn [scan_list]. apply Z.eqb_neq in Ha0. rewrite Ha0.
    unfold pAtC_GET, HDRP, pAtC, WSIZE.
    rewrite !wrap_small by lia.
    unfold bind at 1. rewrite GET_SIZE_run by exact V1.
    unfold first_fit. cbn [find]. unfold fits at 1.
    destruct (tmp <=? size_of_word (mem s (a - 4))); [reflexivity|].
    unfold bind. rewrite GET_run by exact V2. rewrite D2.
    apply (IH a); auto.
    + intros b Hb. apply V. now right.
    + simpl in Hf. lia.
Qed.

Lemma first_fit_app s tmp l1 l2 :
  (forall a, In a l1 -> a <> 0) ->
  first_fit s tmp (l1 ++ l2) =
  if first_fit s tmp l1 =? 0 then first_fit s tmp l2 else first_fit s tmp l1.
Proof.
  intros Hn. unfold first_fit. induction l1 as [|a r IH]; cbn [find app].
  - reflexivity.
  - destruct (fits s tmp a).
    + assert (a <> 0) by (apply Hn; now left).
      apply Z.eqb_neq in H. now rewrite H.
    + apply IH. intros b Hb. apply Hn. now right.
Qed.

(* a bucket's list is shorter than the fuel of the traversal *)
Lemma blist_length a bl : List.length (blist a bl) = List.length bl.
Proof.
  revert a. induction bl as [|[sz al] r IH]; intros a; simpl; auto.
Qed.

Lemma total_length bl : sizes_ok bl -> 16 * Z.of_nat (List.length bl) <= total bl.
Proof.
  induction bl as [|[sz al] r IH]; intros S; [simpl; lia|].
  apply sizes_ok_cons in S. destruct S as [[S1 _] S2].
  specialize (IH S2). cbn [List.length total]. lia.
Qed.

Lemma bucket_length s bl idx k :
  rep s bl idx -> 0 <= k < 17 -> (List.length (idx k) < list_fuel s)%nat.
Proof.
  intros R Hk. pose proof R as (L & I & [N1 N2]).
  assert (Hl : (List.length (idx k) <= List.length (map (fun t => fst (fst t))
                              (blist (FreeBlocks s + 80) bl)))%nat).
  { apply NoDup_incl_length; [auto|].
    intros a Ha. destruct (N1 k a Hk Ha) as (sz & Hb & _).
    apply in_map_iff. exists (a, sz, false). auto. }
  rewrite length_map, blist_length in Hl.
  pose proof (total_length _ (lay_sizes _ _ L)).
  pose proof (lay_brk _ _ L). pose proof (lay_start _ _ L).
  unfold list_fuel, WSIZE.
  assert (Z.of_nat (List.length (idx k)) <= (mem_brk s - mem_start_brk s) / 4)
    by lia.
  lia.
Qed.

Lemma bucket_scan s bl idx tmp k :
  rep s bl idx -> 0 <= k < 17 ->
  scan_list (list_fuel s) tmp (hd 0 (idx k)) s
  = Ok (first_fit s tmp (idx k)) s.
Proof.
  intros R Hk. pose proof R as (L & I & [N1 N2]).
  destruct (I k Hk) as [I1 I2].
  eapply scan_list_spec; [exact I2| |eapply bucket_length; eauto].
  intros a Ha. destruct (N1 k a Hk Ha) as (sz & Hb & _).
  pose proof (block_facts _ _ _ _ _ L Hb) as (G & B & _).
  repeat split; try lia; apply valid_iff; lia.
Qed.

Lemma scan_classes_spec s bl idx tmp :
  rep s bl idx ->
  forall n fuel c, 0 <= c -> Z.of_nat n = 17 - c -> (n <= fuel)%nat ->
  scan_classes fuel tmp c s = Ok (first_fit s tmp (candidates idx c n)) s.
Proof.
  intros R. pose proof R as (L & I & [N1 N2]).
  induction n as [|n IH]; intros fuel c Hc Hn Hf.
  - destruct fuel as [|fuel]; [reflexivity|]. cbn [scan_classes].
    replace (c <? ClassSize) with false; [reflexivity|].
    symmetry. apply Z.ltb_ge. unfold ClassSize. lia.
  - destruct fuel as [|fuel]; [lia|]. cbn [scan_classes candidates].
    assert (Hk : 0 <= c < 17) by lia.
    replace (c <? ClassSize) with true
      by (symmetry; apply Z.ltb_lt; unfold ClassSize; lia).
    destruct (I c Hk) as [I1 I2].
    pose proof (lay_pos _ _ L). pose proof (lay_start _ _ L).
    pose proof (lay_brk _ _ L). pose proof (lay_max _ _ L).
    pose proof (lay_lim _ _ L). pose proof (lay_align _ _ L).
    pose proof (total_nonneg _ (lay_sizes _ _ L)).
    assert (V : valid s (FreeBlocks s + 4 * c) = true)
      by (apply valid_iff; lia).
    unfold bind at 1. unfold get_FreeBlocks. unfold WSIZE.
    rewrite wrap_small by lia.
    unfold bind at 1. rewrite GET_run by exact V.
    assert (Hnz : forall a, In a (idx c) -> a <> 0).
    { intros a Ha. destruct (N1 c a Hk Ha) as (sz & Hb & _).
      pose proof (block_facts _ _ _ _ _ L Hb). lia. }
    rewrite first_fit_app by exact Hnz.
    assert (Er : (if negb (mem s (FreeBlocks s + 4 * c) =? 0)
                  then bp <- GET (FreeBlocks s + 4 * c);;
                       (fun s0 => scan_list (list_fuel s0) tmp bp s0)
                  else ret NULL) s
                 = Ok (first_fit s tmp (idx c)) s).
    { rewrite I1. destruct (idx c) as [|h r] eqn:El.
      - reflexivity.
      - cbn [hd]. assert (h <> 0) by (apply Hnz; now left).
        apply Z.eqb_neq in H6. rewrite H6. cbn [negb].
        unfold bind. rewrite GET_run by exact V. rewrite I1.
        rewrite <- El. replace h with (hd 0 (idx c)) by now rewrite El.
        eapply bucket_scan; eauto. }
    unfold bind at 1. rewrite Er.
    destruct (first_fit s tmp (idx c) =? 0); cbn [negb]; [|reflexivity].
    apply IH; lia.
Qed.

Lemma find_fit_spec s bl idx asize :
  rep s bl idx ->
  find_fit asize s
  = Ok (first_fit s asize
          (candidates idx (size_class_of asize)
             (Z.to_nat (17 - size_class_of asize)))) s.
Proof.
  intros R. unfold find_fit.
  pose proof (size_class_of_range asize).
  eapply scan_classes_spec; eauto; lia.
Qed.

Lemma In_candidates idx c n a :
  In a (candidates idx c n) <->
  exists k, c <= k < c + Z.of_nat n /\ In a (idx k).
Proof.
  revert c. induction n as [|n IH]; intros c; cbn [candidates].
  - split; [intros [] | intros (k & Hk & _); lia].
  - rewrite in_app_iff, IH. split.
    + intros [H|(k & Hk & H)]; [exists c | exists k]; split; auto; lia.
    + intros (k & Hk & H). destruct (Z.eq_dec k c) as [->|]; auto.
      right. exists k. split; auto. lia.
Qed.

Lemma first_fit_cases s tmp l :
  (first_fit s tmp l = 0 /\ forall a, In a l -> fits s tmp a = false) \/
  (In (first_fit s tmp l) l /\ fits s tmp (first_fit s tmp l) = true).
Proof.
  unfold first_fit. destruct (find (fits s tmp) l) as [a|] eqn:E.
  - right. apply find_some in E. exact E.
  - left. split; auto. intros a Ha. eapply find_none in E; eauto.
Qed.

(** ** Heap extension *)

Lemma rep_extend s s' bl idx size :
  rep s bl idx -> grown s s' size ->
  16 <= size -> size mod 8 = 0 -> mem_brk s + size <= mem_max_addr s ->
  (forall x, x < mem_brk s - 4 -> mem s' x = mem s x) ->
  mem s' (mem_brk s - 4) = tag size false ->
  mem s' (mem_brk s + size - 8) = tag size false ->
  mem s' (mem_brk s + size - 4) = 1 ->
  rep s' (bl ++ [(size, false)]) idx.
Proof.
  intros R (G1 & G2 & G3 & G4 & G5 & G6) H16 H8 Hmax Hf Hh Hft He.
  pose proof R as (L & I & [N1 N2]).
  pose proof (total_nonneg _ (lay_sizes _ _ L)) as Ht.
  pose proof (lay_brk _ _ L) as Hbrk. pose proof (lay_pos _ _ L) as Hpos.
  split; [|split].
  - pose proof (lay_sizes _ _ L) as Sz.
    constructor; rewrite ?G1, ?G2, ?G3, ?G4, ?G5; try apply L.
    + rewrite Hf by lia. apply L.
    + rewrite Hf by lia. apply L.
    + apply sizes_ok_app. split; auto.
      intros z al [E|[]]. inversion E; subst. auto.
    + intros a z al Ha. rewrite blist_app in Ha. apply in_app_or in Ha.
      destruct Ha as [Ha|[E|[]]].
      * pose proof (blist_In_range _ _ _ _ _ Sz Ha).
        pose proof (blist_In_sizes _ _ _ _ _ Sz Ha).
        rewrite !Hf by lia. apply (lay_blocks _ _ L). exact Ha.
      * inversion E; subst a z al. rewrite <- Hbrk.
        split; [exact Hh | exact Hft].
    + rewrite total_app. cbn [total]. lia.
    + replace (mem_brk s + size - 4) with (mem_brk s + size - 4) by lia.
      exact He.
    + pose proof (lay_max _ _ L). lia.
  - intros k Hk. rewrite G5. destruct (I k Hk) as [I1 I2].
    rewrite Hf by lia. split; auto.
    eapply dlseg_frame; [|exact I2].
    intros a Ha. destruct (N1 k a Hk Ha) as (z & Hb & _).
    pose proof (block_facts _ _ _ _ _ L Hb).
    rewrite !Hf by lia. auto.
  - rewrite G5. split; auto.
    intros k a Hk Ha. destruct (N1 k a Hk Ha) as (z & Hb & Hc).
    exists z. split; auto. rewrite blist_app. apply in_or_app. now left.
Qed.

Lemma to_int_small x : 0 <= x < 2 ^ 31 -> to_int x = x.
Proof.
  intros H. unfold to_int. destruct (Z.ltb_spec x (2 ^ 31)); lia.
Qed.

Lemma to_int_big x : 2 ^ 31 <= x < 2 ^ 32 -> to_int x = x - 2 ^ 32.
Proof.
  intros H. unfold to_int. destruct (Z.ltb_spec x (2 ^ 31)); lia.
Qed.

Lemma to_int_aligned x : 0 <= x < 2 ^ 32 -> x mod 8 = 0 -> to_int x <> -1.
Proof.
  intros H H8. unfold to_int. destruct (Z.ltb_spec x (2 ^ 31)); lia.
Qed.

Lemma wp_mem_sbrk incr (Q : Z -> state -> Prop) s :
  (if (to_int incr <? 0) || (mem_max_addr s <? mem_brk s + to_int incr)
   then Q (wrap (-1)) s
   else Q (mem_brk s) (set_brk s (mem_brk s + to_int incr))) ->
  wp (mem_sbrk incr) Q s.
Proof.
  intros H. unfold wp, mem_sbrk.
  destruct ((to_int incr <? 0) || (mem_max_addr s <? mem_brk s + to_int incr));
    eauto.
Qed.

Lemma extend_heap_spec s bl idx size :
  rep s bl idx -> complete (FreeBlocks s + 80) bl idx ->
  16 <= size < 2 ^ 32 -> size mod 8 = 0 ->
  wp (extend_heap (size / 4)) (fun b s' =>
    (b = NULL /\ s' = s /\
     (2 ^ 31 <= size \/ mem_max_addr s < mem_brk s + size)) \/
    (size < 2 ^ 31 /\ mem_brk s + size <= mem_max_addr s /\
     let '(l1', psz) := coalesce_prev bl in
     let S := psz + size in
     let idx' := idx_insert (coalesce_index idx bl (mem_brk s) size [])
                            (size_class_of S) b in
     b = mem_brk s - psz /\ b = FreeBlocks s + 80 + total l1' /\
     rep s' (l1' ++ [(S, false)]) idx' /\
     complete (FreeBlocks s + 80) (l1' ++ [(S, false)]) idx' /\
     grown s s' size /\
     (forall x, x < b - 4 -> ~ link_word s bl x -> mem s' x = mem s x))) s.
Proof.
  intros R Hc Hs H8. pose proof R as (L & I & [N1 N2]).
  pose proof (lay_pos _ _ L) as Hpos. pose proof (lay_start _ _ L) as Hst.
  pose proof (lay_brk _ _ L) as Hbrk. pose proof (lay_max _ _ L) as Hmx.
  pose proof (lay_lim _ _ L) as Hlim. pose proof (lay_align _ _ L) as Hal.
  pose proof (lay_sizes _ _ L) as Sz.
  pose proof (total_nonneg _ Sz) as Ht.
  assert (Hbal : mem_brk s mod 8 = 0).
  { rewrite Hbrk. clear - Hal Sz. induction bl as [|[z al] r IH]; cbn [total].
    - lia.
    - apply sizes_ok_cons in Sz. destruct Sz as [[? ?] Sz].
      specialize (IH Sz). lia. }
  unfold extend_heap.
  replace (negb (size / 4 mod 2 =? 0)) with false
    by (symmetry; apply negb_false_iff, Z.eqb_eq; lia).
  unfold WSIZE. replace (wrap (size / 4 * 4)) with size
    by (rewrite wrap_small; lia).
  apply wp_bind, wp_mem_sbrk.
  destruct ((to_int size <? 0) || (mem_max_addr s <? mem_brk s + to_int size))
    eqn:Efail.
  - (* the growth primitive refuses *)
    replace (to_int (wrap (-1)) =? -1) with true by reflexivity.
    apply wp_ret. left. split; [reflexivity|]. split; [reflexivity|].
    apply orb_true_iff in Efail. destruct (Z.ltb_spec size (2 ^ 31)).
    + rewrite to_int_small in Efail by lia.
      destruct Efail as [E|E]; [apply Z.ltb_lt in E; lia|].
      apply Z.ltb_lt in E. now right.
    + now left.
  - apply orb_false_iff in Efail. destruct Efail as [E1 E2].
    apply Z.ltb_ge in E1. apply Z.ltb_ge in E2.
    assert (Hlt : size < 2 ^ 31).
    { destruct (Z.ltb_spec size (2 ^ 31)); auto.
      rewrite to_int_big in E1 by lia. lia. }
    rewrite (to_int_small size) in * by lia.
    replace (to_int (mem_brk s) =? -1) with false
      by (symmetry; apply Z.eqb_neq, to_int_aligned; lia).
    match goal with |- wp _ _ ?st => remember st as s0 eqn:Es0 end.
    assert (G0 : grown s s0 size) by (subst s0; unfold grown; simpl; tauto).
    pose proof G0 as (G1 & G2 & G3 & G4 & G5 & G6).
    assert (Em : mem s0 = mem s) by (subst s0; reflexivity).
    set (bp := mem_brk s) in *.
    norm. do 9 wp_step. clear Es0.
    match goal with |- wp _ _ ?s2 => remember s2 as s1 eqn:Es1 end.
    assert (G10 : grown s s1 size) by (subst s1; exact G0).
    assert (R1 : rep s1 (bl ++ [(size, false)] ++ []) idx).
    { change (bl ++ [(size, false)] ++ []) with (bl ++ [(size, false)]).
      apply (rep_extend s s1 bl idx size R G10); try lia; fold bp.
      - intros x Hx. subst s1. upd_tac. now rewrite Em.
      - subst s1. upd_tac. reflexivity.
      - subst s1. upd_tac. reflexivity.
      - subst s1. upd_tac. reflexivity. }
    assert (Hn1 : forall k, 0 <= k < 17 -> ~ In bp (idx k)).
    { intros k Hk Hi. destruct (N1 k bp Hk Hi) as (z & Hb & _).
      pose proof (blist_In_range _ _ _ _ _ Sz Hb).
      pose proof (blist_In_sizes _ _ _ _ _ Sz Hb). unfold bp in *. lia. }
    assert (Hcb : complete_but (FreeBlocks s + 80)
                    (bl ++ [(size, false)] ++ []) idx bp).
    { intros a z Ha Hne. apply Hc. apply blist_In_app3 in Ha.
      destruct Ha as [Ha|[Ha|Ha]]; auto.
      - destruct Ha as [E|[]]. inversion E. unfold bp in *. lia.
      - destruct Ha. }
    pose proof (coalesce_spec s1 idx bl size []) as HC.
    pose proof (coalesce_complete s1 idx bl size []) as HK.
    cbv zeta in HC, HK. destruct G10 as (G1' & G2' & G3' & G4' & G5' & G6').
    rewrite G5' in HC, HK.
    replace (FreeBlocks s + 80 + total bl) with bp in HC, HK
      by (unfold bp; lia).
    specialize (HC R1 Hn1 Hcb). specialize (HK R1 Hn1 Hcb).
    pose proof (coalesce_prev_shape bl Sz) as HPs.
    destruct (coalesce_prev bl) as [l1' psz].
    change (coalesce_next []) with (@nil (Z * bool), 0) in HC, HK.
    cbv iota beta in HC, HK. destruct HK as [K1 K2].
    apply wp_bind. eapply wp_mono; [exact HC|].
    intros b s2 (B1 & B2 & R2 & SR2 & F2). cbv beta.
    pose proof SR2 as (Q1 & Q2 & Q3 & Q4 & Q5 & Q6).
    replace (psz + size + 0) with (psz + size) in * by lia.
    assert (Hb2 : In (b, psz + size, false)
                (blist (FreeBlocks s2 + 80) (l1' ++ [(psz + size, false)]))).
    { rewrite Q5, G5'. rewrite blist_app. apply in_or_app. right. left.
      f_equal. f_equal. lia. }
    apply wp_bind.
    eapply wp_mono; [eapply free_list_insert_spec; eauto|].
    { rewrite B1. exact K1. }
    intros _ s3 (R3 & SR3 & F3). cbv beta. apply wp_ret. right.
    split; [exact Hlt|]. split; [lia|].
    rewrite <- B1. split; [reflexivity|]. split; [exact B2|].
    split; [exact R3|]. split; [|split].
    + apply complete_insert; auto.
      * apply (lay_sizes _ _ (proj1 R2)).
      * rewrite B1. exact K2.
      * rewrite Q5, G5' in Hb2. exact Hb2.
    + destruct SR3 as (T1 & T2 & T3 & T4 & T5 & T6).
      unfold grown. rewrite T1, T2, T3, T4, T5, T6, Q1, Q2, Q3, Q4, Q5, Q6.
      tauto.
    + intros x Hx Hl.
      assert (Hbb : b <= bp).
      { destruct HPs as [[-> _]|[? _]]; lia. }
      assert (Hl1 : ~ link_word s1 (bl ++ [(size, false)] ++ []) x).
      { intros [Hw|(a & sa & Ha & Hax)]; apply Hl.
        - left. rewrite G5' in Hw. exact Hw.
        - right. exists a, sa. split; auto. rewrite G5' in Ha.
          apply blist_In_app3 in Ha. destruct Ha as [Ha|[Ha|Ha]]; auto.
          + destruct Ha as [E|[]]. inversion E. unfold bp in *. lia.
          + destruct Ha. }
      assert (Hl2 : ~ link_word s2 (l1' ++ [(psz + size, false)]) x).
      { intros [Hw|(a & sa & Ha & Hax)]; apply Hl.
        - left. rewrite Q5, G5' in Hw. exact Hw.
        - right. exists a, sa. split; auto. rewrite Q5, G5' in Ha.
          rewrite blist_app in Ha. apply in_app_or in Ha.
          destruct Ha as [Ha|Ha].
          + destruct HPs as [[_ ->]|[_ ->]]; auto.
            rewrite blist_app. apply in_or_app. now left.
          + destruct Ha as [E|[]]. inversion E. lia. }
      rewrite F3 by exact Hl2. rewrite F2 by (auto; lia).
      subst s1. upd_tac. now rewrite Em.
Qed.

(** ** Allocation *)

(* the words of an allocated block are not link words *)
Lemma payload_not_link s bl a z x :
  layout s bl -> In (a, z, true) (blist (FreeBlocks s + 80) bl) ->
  a - 4 <= x < a + z - 4 -> ~ link_word s bl x.
Proof.
  intros L Ha Hx [Hs|(b & sb & Hb & Hbx)].
  - pose proof (block_facts _ _ _ _ _ L Ha). lia.
  - pose proof (block_facts _ _ _ _ _ L Ha).
    pose proof (block_facts _ _ _ _ _ L Hb).
    pose proof (blist_In_disjoint _ _ _ _ _ _ _ _ (lay_sizes _ _ L) Ha Hb)
      as [(_ & _ & E)|D]; [discriminate | lia].
Qed.

Lemma place_complete s idx l1 csz l2 asize :
  let bp := FreeBlocks s + 80 + total l1 in
  let bl := l1 ++ [(csz, false)] ++ l2 in
  rep s bl idx -> complete (FreeBlocks s + 80) bl idx ->
  16 <= asize <= csz -> asize mod 8 = 0 ->
  wp (place bp asize) (fun _ s' =>
    same_region s s' /\
    exists bl' idx',
      rep s' bl' idx' /\ complete (FreeBlocks s + 80) bl' idx' /\
      alloc_step s s' bl bl' bp asize /\
      bl' = (if csz - asize >=? 16
             then l1 ++ [(asize, true); (csz - asize, false)] ++ l2
             else l1 ++ [(csz, true)] ++ l2) /\
      (forall k, 0 <= k < 17 ->
         idx' k = if csz - asize >=? 16
                  then idx_insert (idx_remove idx bp)
                         (size_class_of (csz - asize)) (bp + asize) k
                  else idx_remove idx bp k)) s.
Proof.
  intros bp bl R Hc Ha Ha8. pose proof R as (L & I & [N1 N2]).
  assert (Hb : In (bp, csz, false) (blist (FreeBlocks s + 80) bl)).
  { apply blist_In_app3. right. left. now left. }
  pose proof (block_facts _ _ _ _ _ L Hb) as (G & B & Th & Tf).
  pose proof (Hc _ _ Hb) as Hi. destruct (in_split _ _ Hi) as (i1 & i2 & El).
  pose proof (size_class_of_range csz) as Hk.
  pose proof (lay_sizes _ _ L) as SZ.
  apply sizes_ok_app in SZ. destruct SZ as [S1 SZ].
  apply sizes_ok_app in SZ. destruct SZ as [SX S2].
  eapply wp_mono;
    [eapply (place_spec s idx l1 csz l2 _ i1 i2 asize); eauto|].
  intros _ s' (SR & F & R'). cbv beta. split; [exact SR|].
  assert (Eidx : forall k, 0 <= k < 17 ->
            idx_set idx (size_class_of csz) (i1 ++ i2) k
            = idx_remove idx bp k).
  { intros k Hk'. eapply idx_remove_set; eauto. }
  assert (Keep : forall a z al,
    In (a, z, al) (blist (FreeBlocks s + 80) l1) \/
    In (a, z, al) (blist (FreeBlocks s + 80 + total l1 + csz) l2) ->
    In (a, z, al) (blist (FreeBlocks s + 80) bl) /\
    (a + z <= bp \/ bp + csz <= a) /\ 16 <= z).
  { intros a z al [H|H].
    - pose proof (blist_In_range _ _ _ _ _ S1 H).
      pose proof (blist_In_sizes _ _ _ _ _ S1 H).
      split; [apply blist_In_app3; auto | unfold bp; lia].
    - pose proof (blist_In_range _ _ _ _ _ S2 H).
      pose proof (blist_In_sizes _ _ _ _ _ S2 H).
      split; [|unfold bp; lia].
      apply blist_In_app3. right. right. cbn [total].
      replace (FreeBlocks s + 80 + total l1 + (csz + 0))
        with (FreeBlocks s + 80 + total l1 + csz) by lia. exact H. }
  assert (Old : forall a z al,
    In (a, z, al) (blist (FreeBlocks s + 80) bl) ->
    (a = bp /\ z = csz /\ al = false) \/
    In (a, z, al) (blist (FreeBlocks s + 80) l1) \/
    In (a, z, al) (blist (FreeBlocks s + 80 + total l1 + csz) l2)).
  { intros a z al H. apply blist_In_app3 in H. cbn [total] in H.
    replace (FreeBlocks s + 80 + total l1 + (csz + 0))
      with (FreeBlocks s + 80 + total l1 + csz) in H by lia.
    destruct H as [H|[[E|[]]|H]]; auto. inversion E. left. auto. }
  assert (Pay : forall a z, In (a, z, true) (blist (FreeBlocks s + 80) bl) ->
            forall x, a <= x < a + z - 8 -> mem s' x = mem s x).
  { intros a z Hin x Hx. destruct (Old _ _ _ Hin) as [(_ & _ & E)|H];
      [discriminate|].
    destruct (Keep _ _ _ H) as (_ & D & _).
    apply F; [lia|]. eapply payload_not_link; eauto. lia. }
  destruct (csz - asize >=? 16) eqn:Esplit.
  - assert (16 <= csz - asize) by lia.
    eexists _, _. split; [exact R'|]. split; [|split; [|split]].
    + intros a z Hin. apply blist_In_app3 in Hin. cbn [total blist] in Hin.
      destruct Hin as [H'|[[E|[E|[]]]|H']].
      * destruct (Keep _ _ _ (or_introl H')) as (K1 & K2 & K3).
        apply In_idx_insert. right.
        rewrite Eidx by apply size_class_of_range.
        apply In_idx_remove. split; [apply Hc; auto | lia].
      * inversion E.
      * inversion E. subst a z. apply In_idx_insert. left. auto.
      * replace (FreeBlocks s + 80 + total l1 + (asize + (csz - asize + 0)))
          with (FreeBlocks s + 80 + total l1 + csz) in H' by lia.
        destruct (Keep _ _ _ (or_intror H')) as (K1 & K2 & K3).
        apply In_idx_insert. right.
        rewrite Eidx by apply size_class_of_range.
        apply In_idx_remove. split; [apply Hc; auto | lia].
    + split; [|split].
      * exists asize. split; [|lia]. apply blist_In_app3. right. left. now left.
      * intros a z Hin. split; [|split; [|apply Pay; auto]].
        -- destruct (Old _ _ _ Hin) as [(_ & _ & E)|H']; [discriminate|].
           apply blist_In_app3. cbn [total].
           replace (FreeBlocks s + 80 + total l1 + (asize + (csz - asize + 0)))
             with (FreeBlocks s + 80 + total l1 + csz) by lia. tauto.
        -- destruct (Old _ _ _ Hin) as [(_ & _ & E)|H']; [discriminate|].
           destruct (Keep _ _ _ H') as (_ & D & ?). lia.
      * intros a z Hin. apply blist_In_app3 in Hin. cbn [total blist] in Hin.
        replace (FreeBlocks s + 80 + total l1 + (asize + (csz - asize + 0)))
          with (FreeBlocks s + 80 + total l1 + csz) in Hin by lia.
        destruct Hin as [H'|[[E|[E|[]]]|H']].
        -- right. apply (Keep _ _ _ (or_introl H')).
        -- inversion E. left. reflexivity.
        -- inversion E.
        -- right. apply (Keep _ _ _ (or_intror H')).
    + reflexivity.
    + intros k Hk'. unfold idx_insert.
      destruct (Z.eq_dec k (size_class_of (csz - asize))) as [->|Hne].
      * rewrite !idx_set_same. now rewrite Eidx.
      * rewrite (idx_set_other (idx_remove idx bp)) by auto.
        rewrite idx_set_other by auto. now apply Eidx.
  - assert (csz - asize < 16) by lia.
    eexists _, _. split; [exact R'|]. split; [|split; [|split]].
    + intros a z Hin. apply blist_In_app3 in Hin. cbn [total blist] in Hin.
      replace (FreeBlocks s + 80 + total l1 + (csz + 0))
        with (FreeBlocks s + 80 + total l1 + csz) in Hin by lia.
      destruct Hin as [H'|[[E|[]]|H']].
      * destruct (Keep _ _ _ (or_introl H')) as (K1 & K2 & K3).
        rewrite Eidx by apply size_class_of_range.
        apply In_idx_remove. split; [apply Hc; auto | lia].
      * inversion E.
      * destruct (Keep _ _ _ (or_intror H')) as (K1 & K2 & K3).
        rewrite Eidx by apply size_class_of_range.
        apply In_idx_remove. split; [apply Hc; auto | lia].
    + split; [|split].
      * exists csz. split; [|lia]. apply blist_In_app3. right. left. now left.
      * intros a z Hin. split; [|split; [|apply Pay; auto]].
        -- destruct (Old _ _ _ Hin) as [(_ & _ & E)|H']; [discriminate|].
           apply blist_In_app3. cbn [total].
           replace (FreeBlocks s + 80 + total l1 + (csz + 0))
             with (FreeBlocks s + 80 + total l1 + csz) by lia. tauto.
        -- destruct (Old _ _ _ Hin) as [(_ & _ & E)|H']; [discriminate|].
           destruct (Keep _ _ _ H') as (_ & D & ?). lia.
      * intros a z Hin. apply blist_In_app3 in Hin. cbn [total blist] in Hin.
        replace (FreeBlocks s + 80 + total l1 + (csz + 0))
          with (FreeBlocks s + 80 + total l1 + csz) in Hin by lia.
        destruct Hin as [H'|[[E|[]]|H']].
        -- right. apply (Keep _ _ _ (or_introl H')).
        -- inversion E. left. reflexivity.
        -- right. apply (Keep _ _ _ (or_intror H')).
    + reflexivity.
    + intros k Hk'. apply Eidx; auto.
Qed.

Lemma round_size_spec n :
  0 < n <= 2 ^ 32 - 16 ->
  16 <= round_size n < 2 ^ 32 /\ round_size n mod 8 = 0 /\
  n + 8 <= round_size n <= n + 15 + 8.
Proof.
  intros H. unfold round_size, DSIZE.
  destruct (Z.gtb_spec n 8).
  - rewrite (wrap_small (n + 8)) by lia.
    rewrite (wrap_small (n + 8 + (8 - 1))) by lia.
    rewrite wrap_small by lia. lia.
  - lia.
Qed.

Lemma region_le_refl s : region_le s s.
Proof. unfold region_le. repeat split; auto; lia. Qed.

Lemma same_region_le s s' : same_region s s' -> region_le s s'.
Proof. unfold same_region, region_le. intuition lia. Qed.

Lemma region_le_trans s1 s2 s3 :
  region_le s1 s2 -> region_le s2 s3 -> region_le s1 s3.
Proof. unfold region_le. intuition (try congruence; try lia). Qed.

Lemma mm_malloc_spec s bl idx n :
  rep s bl idx -> complete (FreeBlocks s + 80) bl idx ->
  0 < n <= 2 ^ 32 - 16 ->
  wp (mm_malloc n) (fun p s' =>
    (p = NULL /\ s' = s) \/
    (p <> NULL /\ region_le s s' /\
     exists bl' idx',
       rep s' bl' idx' /\ complete (FreeBlocks s + 80) bl' idx' /\
       alloc_step s s' bl bl' p (round_size n))) s.
Proof.
  intros R Hc Hn. pose proof R as (L & I & [N1 N2]).
  pose proof (round_size_spec n Hn) as (A1 & A2 & A3).
  unfold mm_malloc.
  replace (n <=? 0) with false by (symmetry; apply Z.leb_gt; lia).
  set (asize := round_size n) in *.
  apply wp_bind. unfold wp at 1. rewrite (find_fit_spec s bl idx asize R).
  eexists _, _. split; [reflexivity|].
  set (cands := candidates idx (size_class_of asize)
                  (Z.to_nat (17 - size_class_of asize))).
  destruct (first_fit_cases s asize cands) as [[E0 _]|[Hin Hfit]].
  - (* no fit: extend the heap *)
    rewrite E0. cbn [NULL Z.eqb negb].
    assert (Hsz : 16 <= MAX asize CHUNKSIZE < 2 ^ 32 /\
                  MAX asize CHUNKSIZE mod 8 = 0 /\
                  asize <= MAX asize CHUNKSIZE).
    { unfold MAX, CHUNKSIZE. change (Z.shiftl 1 12) with 4096.
      destruct (Z.gtb_spec asize 4096); lia. }
    destruct Hsz as (Z1 & Z2 & Z3). unfold WSIZE.
    apply wp_bind.
    eapply wp_mono; [eapply extend_heap_spec; eauto|].
    intros b s1 [(-> & -> & _)|(Hlt & Hmax & HE)]; cbv beta.
    + cbn [NULL Z.eqb]. apply wp_ret. now left.
    + pose proof (coalesce_prev_shape bl (lay_sizes _ _ L)) as HPs.
      destruct (coalesce_prev bl) as [l1' psz]. cbv zeta in HE.
      destruct HE as (B1 & B2 & R1 & C1 & G1 & F1).
      pose proof G1 as (Q1 & Q2 & Q3 & Q4 & Q5 & Q6).
      assert (Hb0 : b <> 0).
      { pose proof (lay_pos _ _ L).
        pose proof (total_nonneg _ (lay_sizes _ _ (proj1 R1))).
        rewrite total_app in H0.
        assert (0 <= total l1').
        { apply total_nonneg. pose proof (lay_sizes _ _ (proj1 R1)) as S.
          apply sizes_ok_app in S. tauto. }
        lia. }
      replace (b =? NULL) with false by (symmetry; apply Z.eqb_neq; auto).
      apply wp_bind.
      match type of R1 with
      | rep _ _ ?i =>
          pose proof (place_complete s1 i l1' (psz + MAX asize CHUNKSIZE) []
                        asize) as HP
      end.
      cbv zeta in HP. rewrite Q5, <- B2 in HP.
      assert (Hps : 0 <= psz) by (destruct HPs as [[-> _]|[? _]]; lia).
      eapply wp_mono; [apply HP|]; clear HP.
      * exact R1.
      * exact C1.
      * lia.
      * exact A2.
      * intros _ s2 (SR2 & bl' & idx' & R2 & C2 & AS & _). cbv beta.
        apply wp_ret. right. split; [exact Hb0|]. split.
        { destruct SR2 as (T1 & T2 & T3 & T4 & T5 & T6).
          unfold region_le. rewrite T1, T2, T3, T4, T5, T6, Q1, Q2, Q3, Q4, Q5.
          repeat split; auto. lia. }
        exists bl', idx'. split; [exact R2|]. split; [exact C2|].
        destruct AS as (AS1 & AS2 & AS3). rewrite Q5 in *.
        assert (Sub : forall a z, In (a, z, true) (blist (FreeBlocks s + 80) bl)
                  <-> In (a, z, true)
                        (blist (FreeBlocks s + 80)
                           (l1' ++ [(psz + MAX asize CHUNKSIZE, false)] ++ []))).
        { intros a z. rewrite blist_In_app3.
          destruct HPs as [[_ ->]|[_ ->]].
          - split; [tauto|]. intros [H|[[E|[]]|[]]]; auto. inversion E.
          - rewrite blist_app, in_app_iff. split.
            + intros [H|[E|[]]]; [now left | inversion E].
            + intros [H|[[E|[]]|[]]]; auto. inversion E. }
        split; [exact AS1|]. split.
        -- intros a z Ha. destruct (AS2 a z (proj1 (Sub a z) Ha))
             as (P1 & P2 & P3).
           split; [exact P1|]. split; [exact P2|].
           intros x Hx. rewrite P3 by exact Hx. apply F1.
           ++ apply Sub in Ha. apply blist_In_app3 in Ha.
              destruct Ha as [Ha|[[E|[]]|[]]]; [|inversion E].
              assert (S1 : sizes_ok l1').
              { pose proof (lay_sizes _ _ (proj1 R1)) as S.
                apply sizes_ok_app in S. tauto. }
              pose proof (blist_In_range _ _ _ _ _ S1 Ha). lia.
           ++ eapply payload_not_link; eauto. lia.
        -- intros a z Ha. destruct (AS3 a z Ha) as [->|H']; auto.
           right. apply Sub. exact H'.
  - (* a fit in the index *)
    set (bp := first_fit s asize cands) in *.
    apply In_candidates in Hin. destruct Hin as (k & Hk & Hik).
    pose proof (size_class_of_range asize) as Hca.
    assert (Hk' : 0 <= k < 17) by lia.
    destruct (node_facts _ _ _ _ _ R Hk' Hik) as (csz & Hb & Hcl & Gb).
    pose proof (block_facts _ _ _ _ _ L Hb) as (G & B & Th & Tf).
    unfold fits in Hfit. rewrite Th, size_of_tag in Hfit by lia.
    apply Z.leb_le in Hfit.
    replace (bp =? NULL) with false
      by (symmetry; apply Z.eqb_neq; unfold NULL; lia).
    cbn [negb]. apply wp_bind.
    destruct (blist_In_split _ _ _ _ _ Hb) as (l1 & l2 & El & Ebp).
    pose proof (place_complete s idx l1 csz l2 asize) as HP.
    cbv zeta in HP. rewrite <- Ebp in HP.
    change ((csz, false) :: l2) with ([(csz, false)] ++ l2) in El.
    rewrite <- El in HP.
    eapply wp_mono; [apply HP; auto; lia|]; clear HP.
    intros _ s2 (SR2 & bl' & idx' & R2 & C2 & AS & _). cbv beta.
    apply wp_ret. right. split; [unfold NULL; lia|].
    split; [apply same_region_le; exact SR2|].
    exists bl', idx'. auto.
Qed.

(** ** Bootstrap *)

Lemma wp_set_HeapBlocks v (Q : unit -> state -> Prop) s :
  Q tt (mkState (mem s) (mem_start_brk s) (mem_brk s) (mem_max_addr s)
                v (FreeBlocks s) (console s)) ->
  wp (set_HeapBlocks v) Q s.
Proof. intros H. eexists tt, _. split; [reflexivity | exact H]. Qed.

Lemma wp_set_FreeBlocks v (Q : unit -> state -> Prop) s :
  Q tt (mkState (mem s) (mem_start_brk s) (mem_brk s) (mem_max_addr s)
                (HeapBlocks s) v (console s)) ->
  wp (set_FreeBlocks v) Q s.
Proof. intros H. eexists tt, _. split; [reflexivity | exact H]. Qed.

Lemma wp_memset0 p n (Q : unit -> state -> Prop) s :
  0 < n -> range_ok s p n = true ->
  Q tt (set_mem s (fun a => if (p <=? a) && (a <? p + n) then 0
                            else mem s a)) ->
  wp (memset0 p n) Q s.
Proof.
  intros Hn V H. eexists tt, _. unfold memset0.
  replace (n =? 0) with false by (symmetry; apply Z.eqb_neq; lia).
  rewrite V. split; [reflexivity | exact H].
Qed.

Lemma mm_init_spec s :
  fresh s -> mem_start_brk s + 4176 <= mem_max_addr s ->
  wp mm_init (fun r s' =>
    r = 0 /\ FreeBlocks s' = mem_start_brk s /\
    mem_start_brk s' = mem_start_brk s /\
    mem_max_addr s' = mem_max_addr s /\ console s' = console s /\
    rep s' [(4096, false)]
        (idx_insert (fun _ => []) (size_class_of 4096)
                    (mem_start_brk s + 80)) /\
    complete (FreeBlocks s' + 80) [(4096, false)]
        (idx_insert (fun _ => []) (size_class_of 4096)
                    (mem_start_brk s + 80))) s.
Proof.
  intros (F1 & F2 & F3 & F4) Hmax. unfold mm_init.
  unfold WSIZE, ClassSize, DSIZE. change (4 * (17 + 2 + 1)) with 80.
  change (17 * 4) with 68. change (1 * 4) with 4. change (2 * 4) with 8.
  apply wp_bind, wp_mem_sbrk. rewrite (to_int_small 80) by lia.
  replace ((80 <? 0) || (mem_max_addr s <? mem_brk s + 80)) with false.
  2:{ symmetry. apply orb_false_iff. split; [reflexivity|].
      apply Z.ltb_ge. lia. }
  apply wp_bind, wp_set_HeapBlocks.
  replace (to_int (mem_brk s) =? -1) with false
    by (symmetry; apply Z.eqb_neq, to_int_aligned; lia).
  set (base := mem_start_brk s) in *. rewrite F1.
  apply wp_bind, wp_memset0; [lia| |].
  { unfold range_ok, WSIZE. cbn [mem_start_brk mem_brk set_brk].
    fold base.
    apply andb_true_iff. split; [apply andb_true_iff; split|].
    - apply Z.leb_le. lia.
    - apply Z.leb_le. lia.
    - apply Z.eqb_eq. lia. }
  apply wp_bind, wp_set_FreeBlocks.
  rewrite !wrap_small by lia.
  replace (base + 68 + 4) with (base + 72) by lia.
  replace (base + 68 + 8) with (base + 76) by lia.
  apply wp_bind, wp_set_HeapBlocks.
  cbn [mem mem_start_brk mem_brk mem_max_addr HeapBlocks FreeBlocks console
       set_mem set_brk].
  fold base.
  match goal with |- wp _ _ ?st => remember st as s0 eqn:Es0 end.
  assert (V0 : forall p, valid s0 p = true <->
                         base <= p /\ p + 4 <= base + 80 /\ p mod 4 = 0).
  { intros p. rewrite valid_iff. subst s0. cbn. tauto. }
  apply wp_bind, wp_PUT; [apply V0; lia|].
  apply wp_bind, wp_PUT; [rewrite valid_set_mem; apply V0; lia|].
  apply wp_bind, wp_PUT; [rewrite !valid_set_mem; apply V0; lia|].
  rewrite !set_mem_twice. tags.
  change (PACK 8 (b2z true)) with 9. change (wrap 9) with 9.
  change (wrap 1) with 1.
  apply wp_bind, wp_set_HeapBlocks.
  subst s0. cbn [mem mem_start_brk mem_brk mem_max_addr HeapBlocks FreeBlocks
                 console set_mem set_brk].
  fold base.
  match goal with |- wp _ _ ?st => remember st as s1 eqn:Es1 end.
  assert (R1 : rep s1 [] (fun _ => [])).
  { subst s1. split; [|split].
    - constructor; cbn [mem mem_start_brk mem_brk mem_max_addr HeapBlocks
                        FreeBlocks console total]; try lia; try reflexivity.
      + upd_tac. reflexivity.
      + upd_tac. reflexivity.
      + intros z al [].
      + intros a z al [].
      + replace (base + 80 - 4) with (base + 76) by lia. upd_tac. reflexivity.
    - intros k Hk. cbn [mem FreeBlocks hd]. split; [|exact I].
      rewrite !upd_other by lia.
      replace ((base <=? base + 4 * k) && (base + 4 * k <? base + 68))
        with true; [reflexivity|].
      symmetry. apply andb_true_iff. split; [apply Z.leb_le | apply Z.ltb_lt];
        lia.
    - split; [intros k a Hk []|]. intros k Hk. constructor. }
  assert (C1 : complete (FreeBlocks s1 + 80) [] (fun _ => [])).
  { intros a z []. }
  unfold CHUNKSIZE. change (Z.shiftl 1 12) with 4096.
  apply wp_bind.
  eapply wp_mono; [eapply (extend_heap_spec s1 [] _ 4096); eauto; lia|].
  assert (E1 : FreeBlocks s1 = base /\ mem_brk s1 = base + 80 /\
               mem_max_addr s1 = mem_max_addr s /\
               mem_start_brk s1 = base /\ console s1 = console s).
  { subst s1. cbn. tauto. }
  destruct E1 as (E1 & E2 & E3 & E4 & E5).
  intros b s2 [(_ & _ & [Hx|Hx])|(_ & _ & HE)]; cbv beta; try lia.
  change (coalesce_prev []) with (@nil (Z * bool), 0) in HE.
  cbv iota beta zeta in HE.
  destruct HE as (B1 & B2 & R2 & C2 & G2 & _).
  destruct G2 as (Q1 & Q2 & Q3 & Q4 & Q5 & Q6).
  replace (b =? NULL) with false
    by (symmetry; apply Z.eqb_neq; unfold NULL; lia).
  apply wp_ret. rewrite Q5, Q1, Q3, Q6, E1, E3, E4, E5.
  repeat (split; [reflexivity|]).
  rewrite E1, E2 in *.
  replace (base + 80 - 0) with (base + 80) in B1 by lia. subst b.
  split.
  - eapply rep_ext; [|exact R2]. intros k Hk. reflexivity.
  - exact C2.
Qed.

(** ** Resizing *)

Lemma realloc_round n :
  (if n <=? DSIZE then 2 * DSIZE
   else wrap (DSIZE * (wrap (wrap (n + DSIZE) + (DSIZE - 1)) / DSIZE)))
  = round_size n.
Proof.
  unfold round_size, DSIZE.
  destruct (Z.leb_spec n 8), (Z.gtb_spec n 8); try reflexivity; lia.
Qed.

(* writes inside the payload of an allocated block keep the representation *)
Lemma rep_payload s s' bl idx a z :
  rep s bl idx -> In (a, z, true) (blist (FreeBlocks s + 80) bl) ->
  same_region s s' ->
  (forall x, x < a \/ a + z - 8 <= x -> mem s' x = mem s x) ->
  rep s' bl idx.
Proof.
  intros R Ha SR F. pose proof R as (L & I & [N1 N2]).
  destruct (blist_In_split _ _ _ _ _ Ha) as (l1 & l2 & El & Ea).
  change ((z, true) :: l2) with ([(z, true)] ++ l2) in El. subst bl.
  pose proof (block_facts _ _ _ _ _ L Ha) as (G & B & Th & Tf).
  eapply (rep_replace s s' idx l1 [(z, true)] [(z, true)] l2); eauto.
  - intros z' al [E|[]]. inversion E; subst. lia.
  - rewrite <- Ea. intros b z' al k [E|[]] Hk. inversion E; subst b z' al.
    eapply alloc_not_linked; eauto.
  - rewrite <- Ea. cbn [total]. intros x Hx. apply F. lia.
  - rewrite <- Ea. intros b z' al [E|[]]. inversion E; subst b z' al.
    rewrite !F by lia. auto.
Qed.

Lemma wp_memcpy dst src n (Q : unit -> state -> Prop) s :
  0 < n -> range_ok s src n = true -> range_ok s dst n = true ->
  Q tt (set_mem s (fun a => if (dst <=? a) && (a <? dst + n)
                            then mem s (a - dst + src) else mem s a)) ->
  wp (memcpy dst src n) Q s.
Proof.
  intros Hn V1 V2 H. eexists tt, _. unfold memcpy.
  replace (n =? 0) with false by (symmetry; apply Z.eqb_neq; lia).
  rewrite V1, V2. split; [reflexivity | exact H].
Qed.

Lemma run_GET_SIZE {B} p (k : Z -> M B) s :
  valid s p = true ->
  (x <- GET_SIZE p ;; k x) s = k (size_of_word (mem s p)) s.
Proof. intros V. unfold bind at 1. now rewrite GET_SIZE_run. Qed.

Lemma run_GET_ALLOC {B} p (k : Z -> M B) s :
  valid s p = true ->
  (x <- GET_ALLOC p ;; k x) s = k (alloc_of_word (mem s p)) s.
Proof.
  intros V. unfold bind at 1, GET_ALLOC. unfold bind at 1.
  now rewrite GET_run.
Qed.

Lemma run_ret {A B} (a : A) (k : A -> M B) s : (x <- ret a ;; k x) s = k a s.
Proof. reflexivity. Qed.

Lemma run_assoc {A B C} (c : M A) (f : A -> M B) (k : B -> M C) s :
  (x <- (y <- c ;; f y) ;; k x) s = (y <- c ;; x <- f y ;; k x) s.
Proof. unfold bind. destruct (c s); reflexivity. Qed.

(* the common premises of the resize lemmas: a heap and a live block *)
Section Resize.

Variables (s : state) (idx : Z -> list Z) (l1 l2 : list (Z * bool)).
Variables (old n : Z).

Let oldbp := FreeBlocks s + 80 + total l1.
Let bl := l1 ++ [(old, true)] ++ l2.

Hypothesis R : rep s bl idx.
Hypothesis Hc : complete (FreeBlocks s + 80) bl idx.

Lemma resize_block_facts :
  In (oldbp, old, true) (blist (FreeBlocks s + 80) bl) /\
  (0 < FreeBlocks s /\ FreeBlocks s mod 8 = 0 /\
   mem_start_brk s = FreeBlocks s /\ mem_brk s < 2 ^ 32) /\
  (FreeBlocks s + 80 <= oldbp /\ oldbp + old <= mem_brk s /\
   oldbp mod 8 = 0 /\ 16 <= old /\ old mod 8 = 0) /\
  mem s (oldbp - 4) = tag old true /\ mem s (oldbp + old - 8) = tag old true.
Proof.
  assert (Hb : In (oldbp, old, true) (blist (FreeBlocks s + 80) bl)).
  { apply blist_In_app3. right. left. now left. }
  split; [exact Hb|].
  pose proof (block_facts _ _ _ _ _ (proj1 R) Hb) as (G & B & Th & Tf).
  pose proof (lay_pos _ _ (proj1 R)). tauto.
Qed.

(* resize to the size the block already has *)
Lemma mm_realloc_same :
  0 < n -> round_size n = old ->
  mm_realloc oldbp n s = Ok oldbp s.
Proof.
  intros Hn E.
  destruct resize_block_facts as (Hb & G & B & Th & Tf).
  assert (W : wp (mm_realloc oldbp n) (fun q s' => q = oldbp /\ s' = s) s).
  { unfold mm_realloc. rewrite realloc_round. norm. wp_step.
    replace (oldbp =? NULL) with false
      by (symmetry; apply Z.eqb_neq; unfold NULL; lia).
    replace (n =? 0) with false by (symmetry; apply Z.eqb_neq; lia).
    rewrite E, Z.eqb_refl. apply wp_ret. auto. }
  destruct W as (q & s' & E' & -> & ->). exact E'.
Qed.

(* shrinking by less than a minimum block keeps the block as it is *)
Lemma mm_realloc_shrink_keep :
  0 < n -> round_size n < old -> old - round_size n < 16 ->
  mm_realloc oldbp n s = Ok oldbp s.
Proof.
  intros Hn E1 E2.
  destruct resize_block_facts as (Hb & G & B & Th & Tf).
  assert (A : 0 <= round_size n).
  { unfold round_size, DSIZE. destruct (n >? 8); [apply wrap_range | lia]. }
  assert (W : wp (mm_realloc oldbp n) (fun q s' => q = oldbp /\ s' = s) s).
  { unfold mm_realloc. rewrite realloc_round. norm. wp_step.
    replace (oldbp =? NULL) with false
      by (symmetry; apply Z.eqb_neq; unfold NULL; lia).
    replace (n =? 0) with false by (symmetry; apply Z.eqb_neq; lia).
    replace (round_size n =? old) with false
      by (symmetry; apply Z.eqb_neq; lia).
    replace (round_size n >? old) with false
      by (symmetry; rewrite Z.gtb_ltb; apply Z.ltb_ge; lia).
    norm.
    replace (old - round_size n >=? 16) with false
      by (symmetry; rewrite Z.geb_leb; apply Z.leb_gt; lia).
    apply wp_bind, wp_ret. apply wp_ret. auto. }
  destruct W as (q & s' & E' & -> & ->). exact E'.
Qed.

(* resize to zero releases the block *)
Lemma mm_realloc_zero :
  wp (mm_realloc oldbp 0) (fun q s' =>
    exists u, mm_free oldbp s = Ok u s' /\ q = NULL) s.
Proof.
  destruct resize_block_facts as (Hb & G & B & Th & Tf).
  unfold mm_realloc. norm. wp_step.
  replace (oldbp =? NULL) with false
    by (symmetry; apply Z.eqb_neq; unfold NULL; lia).
  cbn [Z.eqb].
  destruct (mm_free_spec s idx l1 old l2 R Hc) as (u & s' & E & _).
  fold oldbp in E. apply wp_bind. exists u, s'. split; [exact E|].
  apply wp_ret. eauto.
Qed.

(* shrinking by at least a minimum block splits the block in place *)
Lemma mm_realloc_shrink_split :
  0 < n -> 16 <= round_size n -> round_size n mod 8 = 0 ->
  16 <= old - round_size n ->
  let size2 := round_size n in
  let bl' := l1 ++ [(size2, true); (old - size2, false)] ++ l2 in
  let idx' := idx_insert idx (size_class_of (old - size2)) (oldbp + size2) in
  wp (mm_realloc oldbp n) (fun q s' =>
    q = oldbp /\ same_region s s' /\ rep s' bl' idx' /\
    complete (FreeBlocks s + 80) bl' idx' /\
    (forall x, (x < oldbp + size2 - 8 \/ oldbp + old - 4 <= x) ->
               x <> oldbp - 4 -> ~ link_word s bl x -> mem s' x = mem s x)) s.
Proof.
  intros Hn A1 A2 Hsp size2 bl' idx'.
  destruct resize_block_facts as (Hb & G & B & Th & Tf).
  pose proof R as (L & I & [N1 N2]).
  unfold mm_realloc, put_head_foot, put. rewrite realloc_round.
  fold size2 in A1, A2, Hsp |- *. norm. wp_step.
  replace (oldbp =? NULL) with false
    by (symmetry; apply Z.eqb_neq; unfold NULL; lia).
  replace (n =? 0) with false by (symmetry; apply Z.eqb_neq; lia).
  replace (size2 =? old) with false by (symmetry; apply Z.eqb_neq; lia).
  replace (size2 >? old) with false
    by (symmetry; rewrite Z.gtb_ltb; apply Z.ltb_ge; lia).
  norm.
  replace (old - size2 >=? 16) with true
    by (symmetry; rewrite Z.geb_leb; apply Z.leb_le; lia).
  do 19 wp_step.
  match goal with |- wp _ _ ?s2 => remember s2 as s1 eqn:Es1 end.
  assert (SR1 : same_region s s1) by (subst s1; apply same_region_set_mem).
  pose proof SR1 as (Q1 & Q2 & Q3 & Q4 & Q5 & Q6).
  assert (R1 : rep s1 bl' idx).
  { eapply (rep_replace s s1 idx l1 [(old, true)]
              [(size2, true); (old - size2, false)] l2); eauto.
    - simpl. lia.
    - intros z al [E|[E|[]]]; inversion E; subst; lia.
    - fold oldbp. intros b z al k [E|[]] Hk. inversion E; subst b z al.
      eapply alloc_not_linked; eauto.
    - cbn [total]. fold oldbp. intros x Hx. subst s1. upd_tac. reflexivity.
    - fold oldbp. intros a z al [E|[E|[]]]; inversion E; subst a z al.
      + subst s1. upd_tac. split; reflexivity.
      + subst s1. upd_tac. split; reflexivity. }
  assert (Hnb : In (oldbp + size2, old - size2, false)
              (blist (FreeBlocks s1 + 80) bl')).
  { rewrite Q5. apply blist_In_app3. right. left. right. left. reflexivity. }
  assert (Hni : forall k, 0 <= k < 17 -> ~ In (oldbp + size2) (idx k)).
  { intros k Hk Hi. destruct (N1 k _ Hk Hi) as (z & Hz & _).
    pose proof (blist_In_disjoint _ _ _ _ _ _ _ _ (lay_sizes _ _ L) Hb Hz).
    pose proof (blist_In_sizes _ _ _ _ _ (lay_sizes _ _ L) Hz). lia. }
  eapply wp_mono; [eapply free_list_insert_spec; eauto|].
  intros _ s2 (R2 & SR2 & F2). cbv beta. apply wp_ret.
  split; [reflexivity|]. split; [eapply same_region_trans; eauto|].
  split; [exact R2|]. split.
  - intros a z Ha. apply In_idx_insert.
    apply blist_In_app3 in Ha. cbn [total blist] in Ha.
    destruct Ha as [Ha|[[E|[E|[]]]|Ha]].
    + right. apply Hc. apply blist_In_app3. now left.
    + inversion E.
    + inversion E. left. auto.
    + right. apply Hc. apply blist_In_app3. right. right. cbn [total].
      replace (FreeBlocks s + 80 + total l1 + (old + 0))
        with (FreeBlocks s + 80 + total l1 + (size2 + (old - size2 + 0)))
        by lia. exact Ha.
  - intros x Hx Hx' Hl. rewrite F2.
    + subst s1. upd_tac. reflexivity.
    + intros [Hw|(a & z & Ha & Hax)]; apply Hl.
      * left. rewrite Q5 in Hw. exact Hw.
      * rewrite Q5 in Ha. apply blist_In_app3 in Ha. cbn [total blist] in Ha.
        right. exists a, z. split; auto. apply blist_In_app3.
        destruct Ha as [Ha|[[E|[E|[]]]|Ha]]; auto.
        -- inversion E.
        -- inversion E. subst a. fold oldbp in Hax. lia.
        -- right. right. cbn [total].
           replace (FreeBlocks s + 80 + total l1 + (old + 0))
             with (FreeBlocks s + 80 + total l1 + (size2 + (old - size2 + 0)))
             by lia. exact Ha.
Qed.

(* growing into a free successor that is large enough *)
Lemma mm_realloc_grow_in_place nsz l2' :
  0 < n -> old < round_size n < 2 ^ 32 ->
  l2 = (nsz, false) :: l2' -> round_size n <= nsz + old ->
  let bl' := l1 ++ [(old + nsz, true)] ++ l2' in
  let idx' := idx_remove idx (oldbp + old) in
  wp (mm_realloc oldbp n) (fun q s' =>
    q = oldbp /\ same_region s s' /\ rep s' bl' idx' /\
    complete (FreeBlocks s + 80) bl' idx' /\
    (forall x, oldbp <= x < oldbp + old - 8 -> mem s' x = mem s x) /\
    (forall x, (x < oldbp - 4 \/ oldbp + old + nsz - 4 <= x) ->
               ~ link_word s bl x -> mem s' x = mem s x)) s.
Proof.
  intros Hn A El2 Hfit bl' idx'.
  destruct resize_block_facts as (Hb & G & B & Th & Tf).
  pose proof R as (L & I & [N1 N2]).
  assert (Hnb : In (oldbp + old, nsz, false) (blist (FreeBlocks s + 80) bl)).
  { unfold bl. rewrite El2. apply blist_In_app3. right. right. cbn [total].
    left. f_equal. f_equal. unfold oldbp. lia. }
  pose proof (block_facts _ _ _ _ _ L Hnb) as (_ & Bn & Tnh & Tnf).
  unfold mm_realloc, put_head_foot. rewrite realloc_round.
  set (size2 := round_size n) in *. norm. wp_step.
  replace (oldbp =? NULL) with false
    by (symmetry; apply Z.eqb_neq; unfold NULL; lia).
  replace (n =? 0) with false by (symmetry; apply Z.eqb_neq; lia).
  replace (size2 =? old) with false by (symmetry; apply Z.eqb_neq; lia).
  replace (size2 >? old) with true
    by (symmetry; rewrite Z.gtb_ltb; apply Z.ltb_lt; lia).
  do 3 wp_step. wp_step. do 3 wp_step. wp_step.
  cbn [b2z Z.eqb andb].
  replace (nsz + old >=? size2) with true
    by (symmetry; rewrite Z.geb_leb; apply Z.leb_le; lia).
  do 3 wp_step. apply wp_bind.
  eapply wp_mono; [eapply free_list_remove_ok; eauto|].
  intros _ s1 (R1 & SR1 & F1 & _ & _). cbv beta.
  pose proof SR1 as (Q1 & Q2 & Q3 & Q4 & Q5 & Q6).
  pose proof Hb as Hb1. rewrite <- Q5 in Hb1.
  pose proof (block_facts _ _ _ _ _ (proj1 R1) Hb1) as (_ & _ & Th1 & Tf1).
  do 7 wp_step.
  match goal with |- _ /\ _ /\ rep ?s2 _ _ /\ _ =>
    remember s2 as s' eqn:Es' end.
  assert (SR' : same_region s1 s') by (subst s'; apply same_region_set_mem).
  split; [reflexivity|]. split; [eapply same_region_trans; eauto|].
  assert (R' : rep s' bl' idx').
  { unfold bl in R1. rewrite El2 in R1. unfold idx'.
    eapply (rep_replace s1 s' _ l1 [(old, true); (nsz, false)]
              [(old + nsz, true)] l2'); eauto.
    - simpl. lia.
    - intros z al [E|[]]; inversion E; subst; lia.
    - rewrite Q5. fold oldbp. intros b z al k [E|[E|[]]] Hk;
        inversion E; subst b z al; rewrite In_idx_remove.
      + intros [Hi _]. exact (alloc_not_linked _ _ _ _ _ _ R Hb Hk Hi).
      + intros [_ Hi]. apply Hi. reflexivity.
    - rewrite Q5. cbn [total]. fold oldbp. intros x Hx. subst s'. upd_tac.
      reflexivity.
    - rewrite Q5. fold oldbp. intros a z al [E|[]]; inversion E; subst.
      upd_tac. split; reflexivity. }
  split; [exact R'|]. split; [|split].
  - intros a z Ha. unfold idx'. apply In_idx_remove.
    apply blist_In_app3 in Ha. cbn [total blist] in Ha.
    pose proof (lay_sizes _ _ L) as SZ. unfold bl in SZ. rewrite El2 in SZ.
    apply sizes_ok_app in SZ. destruct SZ as [S1 SZ].
    apply sizes_ok_app in SZ. destruct SZ as [_ S2].
    apply sizes_ok_cons in S2. destruct S2 as [_ S2].
    destruct Ha as [Ha|[[E|[]]|Ha]].
    + pose proof (blist_In_range _ _ _ _ _ S1 Ha).
      pose proof (blist_In_sizes _ _ _ _ _ S1 Ha).
      split; [|unfold oldbp; lia].
      apply Hc. apply blist_In_app3. now left.
    + inversion E.
    + pose proof (blist_In_range _ _ _ _ _ S2 Ha).
      pose proof (blist_In_sizes _ _ _ _ _ S2 Ha).
      split; [|unfold oldbp; lia].
      apply Hc. unfold bl. rewrite El2. apply blist_In_app3. right. right.
      cbn [total blist]. right.
      replace (FreeBlocks s + 80 + total l1 + (old + 0) + nsz)
        with (FreeBlocks s + 80 + total l1 + (old + nsz + 0)) by lia.
      exact Ha.
  - intros x Hx. subst s'. upd_tac. apply F1.
    eapply payload_not_link; eauto. lia.
  - intros x Hx Hl. subst s'. upd_tac. auto.
Qed.

(* the steps of resize up to the choice between growing in place and moving
   the block: the successor is allocated or too small *)
Lemma mm_realloc_grow_enter :
  0 < n -> old < round_size n < 2 ^ 32 ->
  snd (next_blk l2) = true \/ fst (next_blk l2) + old < round_size n ->
  mm_realloc oldbp n s =
  (newbp <- mm_malloc n ;;
   memcpy newbp oldbp (old - 8) ;;;
   mm_free oldbp ;;;
   ret newbp) s.
Proof.
  intros Hn A Hnx.
  destruct resize_block_facts as (Hb & G & B & Th & Tf).
  pose proof R as (L & I & [N1 N2]).
  pose proof (next_header s (l1 ++ [(old, true)]) l2) as HN.
  unfold bl in L. rewrite <- app_assoc in HN. specialize (HN L).
  rewrite total_app in HN. cbn [total] in HN.
  replace (FreeBlocks s + 80 + (total l1 + (old + 0))) with (oldbp + old)
    in HN by (unfold oldbp; lia).
  cbv zeta in HN. destruct (next_blk l2) as [nsz nal]. cbn [fst snd] in *.
  destruct HN as (N3 & N4 & N5 & N6 & _).
  assert (V1 : valid s (oldbp - 4) = true) by (apply valid_iff; lia).
  assert (V2 : valid s (oldbp + old - 4) = true) by (apply valid_iff; lia).
  unfold mm_realloc. rewrite realloc_round.
  set (size2 := round_size n) in *.
  unfold NEXT_BLKP, HDRP, WSIZE, DSIZE.
  rewrite (wrap_small (oldbp - 4)) by lia.
  rewrite run_GET_SIZE by exact V1. rewrite Th, size_of_tag by lia.
  replace (oldbp =? NULL) with false
    by (symmetry; apply Z.eqb_neq; unfold NULL; lia).
  replace (n =? 0) with false by (symmetry; apply Z.eqb_neq; lia).
  replace (size2 =? old) with false by (symmetry; apply Z.eqb_neq; lia).
  replace (size2 >? old) with true
    by (symmetry; rewrite Z.gtb_ltb; apply Z.ltb_lt; lia).
  rewrite run_assoc, run_GET_SIZE by exact V1.
  rewrite Th, size_of_tag by lia. rewrite run_ret.
  rewrite (wrap_small (oldbp + old)) by lia.
  rewrite (wrap_small (oldbp + old - 4)) by lia.
  rewrite run_GET_SIZE by exact V2. rewrite N3, size_of_tag by lia.
  rewrite run_assoc, run_GET_SIZE by exact V1.
  rewrite Th, size_of_tag by lia. rewrite run_ret.
  rewrite (wrap_small (oldbp + old)) by lia.
  rewrite (wrap_small (oldbp + old - 4)) by lia.
  rewrite run_GET_ALLOC by exact V2. rewrite N3, alloc_of_tag by lia.
  rewrite (wrap_small (old - 8)) by lia.
  replace ((b2z nal =? 0) && (wrap (nsz + old) >=? size2)) with false;
    [reflexivity|].
  symmetry. apply andb_false_iff.
  destruct Hnx as [->|Hlt]; [left; reflexivity | right].
  rewrite wrap_small by lia. rewrite Z.geb_leb. apply Z.leb_gt. lia.
Qed.

(* moving the block: allocate, copy the old payload, release the old block *)
Lemma mm_realloc_move p s1 :
  0 < n <= 2 ^ 32 - 16 -> old < round_size n ->
  snd (next_blk l2) = true \/ fst (next_blk l2) + old < round_size n ->
  mm_malloc n s = Ok p s1 -> p <> NULL ->
  wp (mm_realloc oldbp n) (fun q s' =>
    q = p /\ region_le s s' /\
    exists bl' idx',
      rep s' bl' idx' /\ complete (FreeBlocks s + 80) bl' idx' /\
      (exists z, In (p, z, true) (blist (FreeBlocks s + 80) bl') /\
                 round_size n <= z) /\
      (forall z, ~ In (oldbp, z, true) (blist (FreeBlocks s + 80) bl')) /\
      (forall x, p <= x < p + (old - 8) ->
                 mem s' x = mem s (x - p + oldbp)) /\
      (forall a z, In (a, z, true) (blist (FreeBlocks s + 80) bl) ->
         a <> oldbp ->
         In (a, z, true) (blist (FreeBlocks s + 80) bl') /\
         forall x, a <= x < a + z - 8 -> mem s' x = mem s x)) s.
Proof.
  intros Hn Hgrow Hnx Em Hp.
  destruct resize_block_facts as (Hb & G & B & Th & Tf).
  pose proof (round_size_spec n Hn) as (A1 & A2 & A3).
  pose proof (wp_result _ _ _ _ _ (mm_malloc_spec s bl idx n R Hc Hn) Em)
    as [[E _]|(_ & RL & bl1 & idx1 & R1 & C1 & AS)]; [contradiction|].
  destruct AS as ((z & Hpz & Hz) & AS2 & AS3).
  destruct (AS2 _ _ Hb) as (Hb1 & Hne & Pay).
  pose proof RL as (Q1 & Q2 & Q3 & Q4 & Q5 & Q6).
  rewrite <- Q5 in Hb1, Hpz.
  pose proof (block_facts _ _ _ _ _ (proj1 R1) Hb1) as (G1 & B1 & Th1 & Tf1).
  pose proof (block_facts _ _ _ _ _ (proj1 R1) Hpz) as (_ & Bp & Tph & Tpf).
  pose proof (blist_In_disjoint _ _ _ _ _ _ _ _ (lay_sizes _ _ (proj1 R1))
                Hb1 Hpz) as Dis.
  assert (Dis' : oldbp + old <= p \/ p + z <= oldbp) by lia. clear Dis.
  unfold wp. rewrite mm_realloc_grow_enter by (auto; lia).
  unfold bind at 1. rewrite Em.
  assert (V1 : range_ok s1 oldbp (old - 8) = true).
  { unfold range_ok, WSIZE. apply andb_true_iff.
    split; [apply andb_true_iff; split|].
    - apply Z.leb_le. lia.
    - apply Z.leb_le. lia.
    - apply Z.eqb_eq. lia. }
  assert (V2 : range_ok s1 p (old - 8) = true).
  { unfold range_ok, WSIZE. apply andb_true_iff.
    split; [apply andb_true_iff; split|].
    - apply Z.leb_le. lia.
    - apply Z.leb_le. lia.
    - apply Z.eqb_eq. lia. }
  unfold bind at 1. unfold memcpy.
  replace (old - 8 =? 0) with false by (symmetry; apply Z.eqb_neq; lia).
  rewrite V1, V2. cbn [negb].
  match goal with |- context [bind (mm_free oldbp) _ ?st] =>
    remember st as s2 eqn:Es2 end.
  assert (SR2 : same_region s1 s2) by (subst s2; apply same_region_set_mem).
  assert (R2 : rep s2 bl1 idx1).
  { eapply (rep_payload s1 s2 bl1 idx1 p z); eauto.
    intros x Hx. subst s2. cbn [mem set_mem].
    replace ((p <=? x) && (x <? p + (old - 8))) with false; [reflexivity|].
    symmetry. apply andb_false_iff.
    destruct Hx; [left; apply Z.leb_gt | right; apply Z.ltb_ge]; lia. }
  pose proof SR2 as (T1 & T2 & T3 & T4 & T5 & T6).
  destruct (blist_In_split _ _ _ _ _ Hb1) as (m1 & m2 & El & Eo).
  change ((old, true) :: m2) with ([(old, true)] ++ m2) in El.
  pose proof (mm_free_spec s2 idx1 m1 old m2) as HF. cbv zeta in HF.
  rewrite T5, <- Eo, <- El in HF.
  rewrite <- Q5 in C1. specialize (HF R2 C1).
  pose proof (lay_sizes _ _ (proj1 R1)) as SZ. rewrite El in SZ.
  apply sizes_ok_app in SZ. destruct SZ as [S1 SZ].
  apply sizes_ok_app in SZ. destruct SZ as [_ S2].
  pose proof (coalesce_prev_shape m1 S1) as HPs.
  pose proof (coalesce_next_shape m2 S2) as HNs.
  destruct (coalesce_prev m1) as [m1' psz].
  destruct (coalesce_next m2) as [m2' nsz].
  destruct HF as (u & s3 & Ef & R3 & C3 & SR3 & F3).
  unfold bind at 1. rewrite Ef. eexists _, _. split; [reflexivity|].
  cbv beta. split; [reflexivity|].
  pose proof SR3 as (U1 & U2 & U3 & U4 & U5 & U6).
  split.
  { unfold region_le.
    rewrite U1, U2, U3, U4, U5, U6, T1, T2, T3, T4, T5, T6, Q1, Q3, Q4, Q5, Q6.
    repeat split; auto. }
  rewrite Q5 in *.
  (* geometry of the merged block *)
  assert (Et1 : total m1 = total m1' + psz).
  { destruct HPs as [[-> ->]|[_ ->]]; [lia|].
    rewrite total_app. cbn [total]. lia. }
  assert (Hps : 0 <= psz) by (destruct HPs as [[-> _]|[? _]]; lia).
  assert (Hns : 0 <= nsz) by (destruct HNs as [[-> _]|[? _]]; lia).
  assert (S1' : sizes_ok m1').
  { destruct HPs as [[_ ->]|[_ ->]]; auto.
    apply sizes_ok_app in S1. tauto. }
  assert (S2' : sizes_ok m2').
  { destruct HNs as [[_ ->]|[_ ->]]; auto.
    apply sizes_ok_cons in S2. tauto. }
  assert (Keep : forall a za,
    In (a, za, true) (blist (FreeBlocks s + 80) bl1) -> a <> oldbp ->
    In (a, za, true)
       (blist (FreeBlocks s + 80) (m1' ++ [(psz + old + nsz, false)] ++ m2'))
    /\ (a + za <= oldbp - psz \/ oldbp + old + nsz <= a)).
  { intros a za Ha Hna. rewrite El in Ha. apply blist_In_app3 in Ha.
    rewrite <- Eo in Ha. cbn [total blist] in Ha.
    destruct Ha as [Ha|[[E|[]]|Ha]].
    - assert (Ha' : In (a, za, true) (blist (FreeBlocks s + 80) m1')).
      { destruct HPs as [[_ ->]|[_ ->]]; auto.
        rewrite blist_app in Ha. apply in_app_or in Ha.
        destruct Ha as [Ha|[E|[]]]; auto. inversion E. }
      pose proof (blist_In_range _ _ _ _ _ S1' Ha').
      split; [apply blist_In_app3; now left | left; lia].
    - inversion E. lia.
    - assert (Ha' : In (a, za, true) (blist (oldbp + old + nsz) m2')).
      { destruct HNs as [[-> ->]|[_ ->]].
        - replace (oldbp + old + 0) with (oldbp + (old + 0)) by lia. exact Ha.
        - cbn [blist] in Ha. destruct Ha as [E|Ha]; [inversion E|].
          replace (oldbp + old + nsz) with (oldbp + (old + 0) + nsz) by lia.
          exact Ha. }
      pose proof (blist_In_range _ _ _ _ _ S2' Ha').
      split; [|right; lia]. apply blist_In_app3. right. right.
      cbn [total].
      replace (FreeBlocks s + 80 + total m1' + (psz + old + nsz + 0))
        with (oldbp + old + nsz) by lia. exact Ha'. }
  eexists _, _. split; [exact R3|]. split; [exact C3|].
  destruct (Keep p z Hpz (not_eq_sym Hne)) as [Kp1 Kp2].
  split; [exists z; auto|]. split; [|split].
  - intros z' Hin. apply blist_In_app3 in Hin. cbn [total blist] in Hin.
    destruct Hin as [Hin|[[E|[]]|Hin]].
    + pose proof (blist_In_range _ _ _ _ _ S1' Hin).
      pose proof (blist_In_sizes _ _ _ _ _ S1' Hin). lia.
    + inversion E.
    + pose proof (blist_In_range _ _ _ _ _ S2' Hin).
      pose proof (blist_In_sizes _ _ _ _ _ S2' Hin). lia.
  - intros x Hx. rewrite F3.
    + subst s2. cbn [mem set_mem].
      replace ((p <=? x) && (x <? p + (old - 8))) with true.
      * apply Pay. lia.
      * symmetry. apply andb_true_iff.
        split; [apply Z.leb_le | apply Z.ltb_lt]; lia.
    + lia.
    + rewrite <- T5 in Hpz. eapply payload_not_link; [apply R2|exact Hpz|lia].
  - intros a za Ha Hna. destruct (AS2 _ _ Ha) as (Ha1 & Hap & Paya).
    destruct (Keep a za Ha1 Hna) as [Ka1 Ka2]. split; [exact Ka1|].
    intros x Hx. rewrite F3.
    + subst s2. cbn [mem set_mem].
      replace ((p <=? x) && (x <? p + (old - 8))) with false;
        [apply Paya; exact Hx|].
      symmetry. apply andb_false_iff.
      pose proof (blist_In_disjoint _ _ _ _ _ _ _ _
                    (lay_sizes _ _ (proj1 R1)) Ha1 Hpz).
      pose proof (blist_In_sizes _ _ _ _ _ (lay_sizes _ _ (proj1 R1)) Ha1).
      assert (a + za <= p \/ p + z <= a) as [D|D] by lia;
        [left; apply Z.leb_gt | right; apply Z.ltb_ge]; lia.
    + lia.
    + pose proof Ha1 as Ha2. rewrite <- T5 in Ha2.
      eapply payload_not_link; [apply R2|exact Ha2|lia].
Qed.

(* when the allocation fails, the copy writes through the null pointer *)
Lemma mm_realloc_move_null s1 :
  0 < n -> old < round_size n < 2 ^ 32 ->
  snd (next_blk l2) = true \/ fst (next_blk l2) + old < round_size n ->
  mm_malloc n s = Ok NULL s1 -> s1 = s ->
  mm_realloc oldbp n s = Err (BadWrite NULL).
Proof.
  intros Hn A Hnx Em ->.
  destruct resize_block_facts as (Hb & G & B & Th & Tf).
  rewrite mm_realloc_grow_enter by auto.
  unfold bind at 1. rewrite Em. unfold bind at 1, memcpy.
  replace (old - 8 =? 0) with false by (symmetry; apply Z.eqb_neq; lia).
  assert (V1 : range_ok s oldbp (old - 8) = true).
  { unfold range_ok, WSIZE. apply andb_true_iff.
    split; [apply andb_true_iff; split|].
    - apply Z.leb_le. lia.
    - apply Z.leb_le. lia.
    - apply Z.eqb_eq. lia. }
  assert (V2 : range_ok s NULL (old - 8) = false).
  { unfold range_ok, NULL. apply andb_false_iff. left.
    apply andb_false_iff. left. apply Z.leb_gt. lia. }
  rewrite V1, V2. reflexivity.
Qed.

End Resize.

(** ** The views read back from memory agree with the representation *)

Lemma walk_blist m bl :
  forall a fuel,
  sizes_ok bl -> blocks_ok m a bl -> total bl < 2 ^ 32 ->
  size_of_word (m (a + total bl - 4)) = 0 ->
  (List.length bl < fuel)%nat ->
  walk fuel m a = blist a bl.
Proof.
  induction bl as [|[sz al] r IH]; intros a fuel S B Ht He Hf.
  - destruct fuel; [inversion Hf|]. cbn [walk blist total] in *.
    replace (a + 0 - 4) with (a - 4) in He by lia.
    now rewrite He.
  - destruct fuel as [|fuel]; [inversion Hf|].
    apply sizes_ok_cons in S. destruct S as [[S1 S2] S].
    pose proof (total_nonneg _ S) as Hr. cbn [total] in Ht, He.
    destruct (B a sz al) as [Th _]; [now left|].
    cbn [walk blist]. rewrite Th, size_of_tag, alloc_of_tag by lia.
    replace (sz =? 0) with false by (symmetry; apply Z.eqb_neq; lia).
    f_equal; [destruct al; reflexivity|].
    apply IH; auto.
    + intros x z b Hx. apply B. now right.
    + lia.
    + replace (a + sz + total r - 4) with (a + (sz + total r) - 4) by lia.
      exact He.
    + simpl in Hf. lia.
Qed.

Lemma heap_blocks_rep s bl idx :
  rep s bl idx -> heap_blocks s = blist (FreeBlocks s + 80) bl.
Proof.
  intros (L & _). pose proof (total_length _ (lay_sizes _ _ L)) as Hl.
  pose proof (total_nonneg _ (lay_sizes _ _ L)).
  pose proof (lay_brk _ _ L). pose proof (lay_start _ _ L).
  pose proof (lay_max _ _ L). pose proof (lay_lim _ _ L).
  pose proof (lay_pos _ _ L).
  unfold heap_blocks. rewrite (lay_hb _ _ L).
  replace (FreeBlocks s + 72 + 8) with (FreeBlocks s + 80) by lia.
  apply walk_blist.
  - apply L.
  - apply L.
  - lia.
  - replace (FreeBlocks s + 80 + total bl - 4) with (mem_brk s - 4) by lia.
    rewrite (lay_epi _ _ L). reflexivity.
  - unfold list_fuel, WSIZE.
    assert (Z.of_nat (List.length bl) <= (mem_brk s - mem_start_brk s) / 4)
      by lia.
    lia.
Qed.

Lemma follow_dll m l :
  forall prev fuel,
  dlseg m prev 0 l -> (forall a, In a l -> a <> 0) ->
  (List.length l < fuel)%nat ->
  follow fuel m (hd 0 l) = Some l.
Proof.
  induction l as [|a r IH]; intros prev fuel D Hn Hf.
  - destruct fuel; [inversion Hf | reflexivity].
  - destruct fuel as [|fuel]; [inversion Hf|].
    cbn [dlseg hd] in *. destruct D as (D1 & D2 & D3).
    cbn [follow].
    replace (a =? 0) with false
      by (symmetry; apply Z.eqb_neq, Hn; now left).
    rewrite D2, (IH a); auto.
    + intros b Hb. apply Hn. now right.
    + simpl in Hf. lia.
Qed.

Lemma bucket_rep s bl idx k :
  rep s bl idx -> 0 <= k < 17 -> bucket s k = Some (idx k).
Proof.
  intros R Hk. pose proof R as (L & I & [N1 N2]).
  destruct (I k Hk) as [I1 I2]. unfold bucket. rewrite I1.
  eapply follow_dll; [exact I2| |eapply bucket_length; eauto].
  intros a Ha. destruct (node_facts _ _ _ _ _ R Hk Ha) as (z & _ & _ & ?).
  pose proof (lay_pos _ _ L). lia.
Qed.

Lemma is_live_rep s bl idx p :
  rep s bl idx ->
  is_live s p = true <->
  exists sz, In (p, sz, true) (blist (FreeBlocks s + 80) bl).
Proof.
  intros R. unfold is_live. rewrite (heap_blocks_rep s bl idx R).
  rewrite existsb_exists. split.
  - intros ([[a z] al] & Hin & Ht). cbn [fst snd] in Ht.
    apply andb_true_iff in Ht. destruct Ht as [E ->].
    apply Z.eqb_eq in E. subst a. eauto.
  - intros (z & Hin). exists (p, z, true). split; auto.
    cbn [fst snd]. now rewrite Z.eqb_refl.
Qed.

Lemma heap_ok_index_consistent s : heap_ok s -> index_consistent s.
Proof.
  intros (bl & idx & R & C). pose proof R as (L & I & [N1 N2]).
  unfold index_consistent. rewrite (heap_blocks_rep s bl idx R). split.
  - intros k Hk. exists (idx k). split; [eapply bucket_rep; eauto|].
    split; auto.
  - intros a sz Ha. exists (idx (size_class_of sz)).
    split; [eapply bucket_rep; eauto; apply size_class_of_range|].
    apply C. exact Ha.
Qed.


(** ** Adjacent free blocks *)

Lemma map_snd_blist a bl : map snd (blist a bl) = map snd bl.
Proof.
  revert a. induction bl as [|[sz al] r IH]; intros a; cbn; [reflexivity|].
  now rewrite IH.
Qed.

Lemma adjacent_free_cons al r :
  adjacent_free (al :: r) = (negb al && negb (hd true r)) || adjacent_free r.
Proof.
  destruct r as [|al' r']; cbn [adjacent_free hd].
  - now rewrite andb_false_r.
  - reflexivity.
Qed.

Lemma adjacent_free_app l1 l2 :
  adjacent_free (l1 ++ l2) =
  adjacent_free l1 || adjacent_free l2 ||
  (negb (last l1 true) && negb (hd true l2)).
Proof.
  induction l1 as [|al r IH].
  - cbn. now rewrite orb_false_r.
  - change ((al :: r) ++ l2) with (al :: (r ++ l2)).
    rewrite !adjacent_free_cons, IH.
    destruct r as [|al' r'].
    + cbn [app hd last adjacent_free].
      generalize (hd true l2), (adjacent_free l2). intros b1 b2.
      destruct al, b1, b2; reflexivity.
    + change (last (al :: al' :: r') true) with (last (al' :: r') true).
      cbn [app hd].
      generalize (adjacent_free (al' :: r')), (adjacent_free l2),
        (last (al' :: r') true), (hd true l2).
      intros b1 b2 b3 b4. destruct al, al', b1, b2, b3, b4; reflexivity.
Qed.

Lemma last_map_snd (l : list (Z * bool)) d :
  last (map snd l) (snd d) = snd (last l d).
Proof.
  induction l as [|x r IH]; [reflexivity|].
  destruct r; [reflexivity|]. exact IH.
Qed.

(* releasing a block of a heap without adjacent free blocks leaves none *)
Lemma coalesce_no_adjacent l1 sz l2 :
  sizes_ok l1 -> sizes_ok l2 ->
  adjacent_free (map snd (l1 ++ [(sz, true)] ++ l2)) = false ->
  let '(l1', psz) := coalesce_prev l1 in
  let '(l2', nsz) := coalesce_next l2 in
  adjacent_free (map snd (l1' ++ [(psz + sz + nsz, false)] ++ l2')) = false.
Proof.
  intros S1 S2 H. rewrite !map_app in H. cbn [map snd] in H.
  rewrite adjacent_free_app in H. cbn [hd negb] in H.
  rewrite andb_false_r, orb_false_r in H.
  apply orb_false_iff in H. destruct H as [H1 H2].
  change ([true] ++ map snd l2) with (true :: map snd l2) in H2.
  rewrite adjacent_free_cons in H2. cbn [negb andb orb] in H2.
  assert (HP : snd (prev_blk l1) = false ->
               l1 = removelast l1 ++ [(fst (prev_blk l1), false)]).
  { unfold prev_blk.
    destruct (list_last_cases_gen l1) as [->|(l' & [z b] & ->)].
    - cbn. discriminate.
    - rewrite last_last, removelast_last. cbn. now intros ->. }
  assert (HN : snd (next_blk l2) = false ->
               l2 = (fst (next_blk l2), false) :: tl l2).
  { unfold next_blk. destruct l2 as [|[z b] r]; cbn; [discriminate|].
    now intros ->. }
  unfold coalesce_prev, coalesce_next in *.
  assert (P : forall l1' : list (Z * bool),
            (l1' = l1 /\ snd (prev_blk l1) = true) \/
            (exists psz, l1 = l1' ++ [(psz, false)]) ->
            adjacent_free (map snd l1') = false /\
            last (map snd l1') true = true).
  { intros l1' [[-> E]|(psz & E)].
    - split; [exact H1|]. unfold prev_blk in E.
      change true with (snd (8, true)) at 1. now rewrite last_map_snd.
    - rewrite E, map_app, adjacent_free_app in H1. cbn [map snd hd] in H1.
      apply orb_false_iff in H1. destruct H1 as [H1 H3].
      apply orb_false_iff in H1. destruct H1 as [H1 _].
      split; [exact H1|]. destruct (last (map snd l1') true); auto. }
  assert (N : forall l2' : list (Z * bool),
            (l2' = l2 /\ snd (next_blk l2) = true) \/
            (exists nsz, l2 = (nsz, false) :: l2') ->
            adjacent_free (map snd l2') = false /\
            hd true (map snd l2') = true).
  { intros l2' [[-> E]|(nsz & E)].
    - split; [exact H2|]. unfold next_blk in E.
      destruct l2 as [|[z al] r]; cbn in *; auto.
    - rewrite E in H2. cbn [map snd] in H2.
      rewrite adjacent_free_cons in H2. cbn [negb andb] in H2.
      apply orb_false_iff in H2. destruct H2 as [H2 H3].
      split; [exact H3|]. destruct (hd true (map snd l2')); auto. }
  destruct (snd (prev_blk l1)) eqn:Ep, (snd (next_blk l2)) eqn:En.
  all: cbv beta iota.
  all: match goal with
       | |- adjacent_free (map snd (?a ++ _ ++ ?b)) = false =>
           assert (PA : adjacent_free (map snd a) = false /\
                        last (map snd a) true = true)
             by (apply P;
                 first [left; split; reflexivity
                       | right; eexists; apply HP; reflexivity]);
           assert (NB : adjacent_free (map snd b) = false /\
                        hd true (map snd b) = true)
             by (apply N;
                 first [left; split; reflexivity
                       | right; eexists; apply HN; reflexivity]);
           destruct PA as [P1 P2]; destruct NB as [N1 N2];
           rewrite !map_app, adjacent_free_app, P1, P2;
           cbn [map snd app negb andb orb];
           rewrite adjacent_free_cons, N1, N2; reflexivity
       end.
Qed.

(** ** The heap invariant is kept by the public operations *)

Lemma live_split s bl idx p :
  rep s bl idx -> is_live s p = true ->
  exists l1 sz l2, bl = l1 ++ [(sz, true)] ++ l2 /\
                   p = FreeBlocks s + 80 + total l1.
Proof.
  intros R Hl. apply (is_live_rep s bl idx p R) in Hl.
  destruct Hl as (sz & Hin).
  destruct (blist_In_split _ _ _ _ _ Hin) as (l1 & l2 & -> & ->).
  exists l1, sz, l2. auto.
Qed.

Lemma heap_ok_init s0 r s :
  fresh s0 -> mem_start_brk s0 + 4176 <= mem_max_addr s0 ->
  mm_init s0 = Ok r s -> r = 0 /\ heap_ok s.
Proof.
  intros F Hm E.
  pose proof (wp_result _ _ _ _ _ (mm_init_spec s0 F Hm) E)
    as (-> & _ & _ & _ & _ & R & C).
  split; [reflexivity|]. eexists _, _. split; eauto.
Qed.

Lemma heap_ok_malloc s n p s' :
  heap_ok s -> 0 < n <= max_request -> mm_malloc n s = Ok p s' ->
  heap_ok s'.
Proof.
  intros (bl & idx & R & C) Hn E.
  pose proof (wp_result _ _ _ _ _ (mm_malloc_spec s bl idx n R C Hn) E)
    as [[_ ->]|(_ & RL & bl' & idx' & R' & C' & _)].
  - exists bl, idx. auto.
  - destruct RL as (_ & _ & _ & _ & Q5 & _).
    exists bl', idx'. rewrite Q5. auto.
Qed.

Lemma heap_ok_free s p u s' :
  heap_ok s -> is_live s p = true -> mm_free p s = Ok u s' -> heap_ok s'.
Proof.
  intros (bl & idx & R & C) Hl E.
  destruct (live_split s bl idx p R Hl) as (l1 & sz & l2 & -> & ->).
  pose proof (wp_result _ _ _ _ _ (mm_free_spec s idx l1 sz l2 R C) E) as H.
  destruct (coalesce_prev l1) as [l1' psz].
  destruct (coalesce_next l2) as [l2' nsz].
  destruct H as (R' & C' & SR & _).
  destruct SR as (_ & _ & _ & _ & Q5 & _).
  eexists _, _. rewrite Q5. eauto.
Qed.

Lemma heap_ok_realloc s p n q s' :
  heap_ok s -> is_live s p = true -> 0 <= n <= max_request ->
  mm_realloc p n s = Ok q s' -> heap_ok s'.
Proof.
  intros H Hl Hn E. pose proof H as (bl & idx & R & C).
  destruct (live_split s bl idx p R Hl) as (l1 & old & l2 & -> & ->).
  destruct (Z.eq_dec n 0) as [->|Hn0].
  - (* release *)
    pose proof (wp_result _ _ _ _ _ (mm_realloc_zero s idx l1 l2 old R C) E)
      as (u & Ef & _).
    eapply heap_ok_free; eauto.
  - assert (Hn' : 0 < n <= 2 ^ 32 - 16) by (unfold max_request in Hn; lia).
    pose proof (round_size_spec n Hn') as (A1 & A2 & A3).
    destruct (Z.lt_trichotomy (round_size n) old) as [Hlt|[Heq|Hgt]].
    + destruct (Z_lt_ge_dec (old - round_size n) 16) as [Hk|Hs].
      * rewrite (mm_realloc_shrink_keep s idx l1 l2 old n R) in E
          by (auto; lia).
        inversion E; subst. exact H.
      * pose proof (wp_result _ _ _ _ _
                      (mm_realloc_shrink_split s idx l1 l2 old n R C
                         ltac:(lia) ltac:(lia) A2 ltac:(lia)) E)
          as (_ & SR & R' & C' & _).
        destruct SR as (_ & _ & _ & _ & Q5 & _).
        eexists _, _. rewrite Q5. eauto.
    + rewrite (mm_realloc_same s idx l1 l2 old n R) in E by (auto; lia).
      inversion E; subst. exact H.
    + pose proof (coalesce_next_shape l2) as HNs.
      assert (S2 : sizes_ok l2).
      { pose proof (lay_sizes _ _ (proj1 R)) as SZ.
        apply sizes_ok_app in SZ. destruct SZ as [_ SZ].
        apply sizes_ok_app in SZ. tauto. }
      specialize (HNs S2). unfold coalesce_next in HNs.
      destruct (next_blk l2) as [nsz nal] eqn:En. cbn [fst snd] in HNs.
      assert (Hcase :
        (nal = false /\ round_size n <= nsz + old) \/
        (snd (next_blk l2) = true \/
         fst (next_blk l2) + old < round_size n)).
      { rewrite En. cbn [fst snd]. destruct nal; [right; now left|].
        destruct (Z_le_gt_dec (round_size n) (nsz + old));
          [left | right; right]; auto; lia. }
      destruct Hcase as [[-> Hfit]|Hmove].
      * destruct HNs as [[_ Hx]|[_ El2]].
        { exfalso. unfold next_blk in En. rewrite <- Hx in En.
          destruct l2 as [|[a b] r]; simpl in *; [discriminate|].
          clear - Hx. apply (f_equal (@List.length _)) in Hx.
          simpl in Hx. lia. }
        pose proof (wp_result _ _ _ _ _
                      (mm_realloc_grow_in_place s idx l1 l2 old n R C nsz _
                         ltac:(lia) ltac:(lia) El2 Hfit) E)
          as (_ & SR & R' & C' & _).
        destruct SR as (_ & _ & _ & _ & Q5 & _).
        eexists _, _. rewrite Q5. eauto.
      * destruct (mm_malloc_spec s _ idx n R C Hn') as (p1 & s1 & Em & Hp).
        destruct (Z.eq_dec p1 NULL) as [->|Hp1].
        -- destruct Hp as [[_ ->]|[Hx _]]; [|contradiction].
           rewrite (mm_realloc_move_null s idx l1 l2 old n R s) in E
             by (auto; lia).
           discriminate.
        -- pose proof (wp_result _ _ _ _ _
                         (mm_realloc_move s idx l1 l2 old n R C p1 s1 Hn'
                            Hgt Hmove Em Hp1) E)
             as (_ & RL & bl' & idx' & R' & C' & _).
           destruct RL as (_ & _ & _ & _ & Q5 & _).
           exists bl', idx'. rewrite Q5. auto.
Qed.

Theorem reachable_heap_ok s : reachable s -> heap_ok s.
Proof.
  unfold reachable. induction 1.
  - eapply heap_ok_init; eauto.
  - eapply heap_ok_malloc; eauto.
  - eapply heap_ok_free; eauto.
  - eapply heap_ok_realloc; eauto.
Qed.

(** ** The example runs *)

Lemma run_init : mm_init s_fresh = Ok 0 s_init.
Proof. vm_compute. reflexivity. Qed.

Lemma run_a : mm_malloc 16 s_init = Ok 4176 s_a.
Proof. vm_compute. reflexivity. Qed.

Lemma run_ab : mm_malloc 16 s_a = Ok 4200 s_ab.
Proof. vm_compute. reflexivity. Qed.

Lemma run_abc : mm_malloc 16 s_ab = Ok 4224 s_abc.
Proof. vm_compute. reflexivity. Qed.

Lemma run_abcd : mm_malloc 16 s_abc = Ok 4248 s_abcd.
Proof. vm_compute. reflexivity. Qed.

Lemma run_bc : mm_free 4176 s_abc = Ok tt s_bc.
Proof. vm_compute. reflexivity. Qed.

Lemma run_wrap : mm_malloc 4294967295 s_bc = Ok 4176 s_wrap.
Proof. vm_compute. reflexivity. Qed.

Lemma run_wrap_free : mm_free 4176 s_wrap = Ok tt s_wrap_free.
Proof. vm_compute. reflexivity. Qed.

Lemma run_bcd : mm_free 4176 s_abcd = Ok tt s_bcd.
Proof. vm_compute. reflexivity. Qed.

Lemma run_bd : mm_free 4224 s_bcd = Ok tt s_bd.
Proof. vm_compute. reflexivity. Qed.

Lemma s_fresh_fresh : fresh s_fresh.
Proof. unfold fresh, s_fresh. cbn. lia. Qed.

Lemma reach_s_init bound : reachable_upto bound s_init.
Proof.
  apply (reach_init bound s_fresh); [apply s_fresh_fresh | cbn; lia|].
  apply run_init.
Qed.

Lemma reach_s_abc bound : 16 <= bound -> reachable_upto bound s_abc.
Proof.
  intros H.
  eapply reach_malloc; [|split; [|exact H]; lia|apply run_abc].
  eapply reach_malloc; [|split; [|exact H]; lia|apply run_ab].
  eapply reach_malloc; [|split; [|exact H]; lia|apply run_a].
  apply reach_s_init.
Qed.

Lemma reach_s_abcd bound : 16 <= bound -> reachable_upto bound s_abcd.
Proof.
  intros H.
  eapply reach_malloc; [|split; [|exact H]; lia|apply run_abcd].
  apply reach_s_abc; exact H.
Qed.

Lemma reach_s_bd bound : 16 <= bound -> reachable_upto bound s_bd.
Proof.
  intros H.
  apply (reach_free bound s_bcd 4224 tt s_bd);
    [|vm_compute; reflexivity|apply run_bd].
  apply (reach_free bound s_abcd 4176 tt s_bcd);
    [|vm_compute; reflexivity|apply run_bcd].
  apply reach_s_abcd; exact H.
Qed.

(** * The claims *)

Lemma bind_ret_inv {A} (c : M A) (r : Z) s p s' :
  (c ;;; ret r) s = Ok p s' -> p = r.
Proof.
  unfold bind, ret. destruct (c s); [|discriminate]. congruence.
Qed.

Lemma round_size_any n :
  0 <= n < 2 ^ 32 -> 0 <= round_size n < 2 ^ 32 /\ round_size n mod 8 = 0.
Proof.
  intros H. unfold round_size, DSIZE. destruct (n >? 8); [|lia].
  set (k := wrap (wrap (n + 8) + (8 - 1)) / 8).
  pose proof (wrap_range (8 * k)). split; [assumption|].
  unfold wrap. lia.
Qed.

(** C1. Every successful [mm_malloc n] with [n > 0] returns a payload
    address that is a multiple of 8, in any state that satisfies the heap
    invariant (as every state reached from [mm_init] on an 8-aligned region
    with requests of at most [max_request] bytes does); the returned block is the one found in the index or the one made
    by the heap extension.  The request may be any [size_t] value. *)
Theorem C1_malloc_aligned s n p s' :
  heap_ok s -> 0 < n < 2 ^ 32 ->
  mm_malloc n s = Ok p s' -> p <> NULL -> p mod 8 = 0.
Proof.
  intros (bl & idx & R & C) Hn E Hp. pose proof R as (L & I & [N1 N2]).
  destruct (round_size_any n) as [A1 A2]; [lia|].
  unfold mm_malloc in E.
  replace (n <=? 0) with false in E by (symmetry; apply Z.leb_gt; lia).
  set (asize := round_size n) in *.
  unfold bind at 1 in E. rewrite (find_fit_spec s bl idx asize R) in E.
  set (cands := candidates idx (size_class_of asize)
                  (Z.to_nat (17 - size_class_of asize))) in *.
  destruct (first_fit_cases s asize cands) as [[E0 _]|[Hin _]].
  - rewrite E0 in E. cbn [NULL Z.eqb negb] in E.
    assert (Hsz : 16 <= MAX asize CHUNKSIZE < 2 ^ 32 /\
                  MAX asize CHUNKSIZE mod 8 = 0).
    { unfold MAX, CHUNKSIZE. change (Z.shiftl 1 12) with 4096.
      destruct (Z.gtb_spec asize 4096); lia. }
    destruct Hsz as [Z1 Z2].
    destruct (extend_heap_spec s bl idx (MAX asize CHUNKSIZE) R C Z1 Z2)
      as (b & s1 & Ee & Hb).
    unfold WSIZE in E. unfold bind at 1 in E. rewrite Ee in E.
    destruct Hb as [(-> & _)|(_ & _ & Hb)].
    + cbn in E. inversion E. subst. contradiction.
    + destruct (coalesce_prev bl) as [l1' psz]. cbv zeta in Hb.
      destruct Hb as (_ & B2 & R1 & _ & G1 & _).
      destruct G1 as (_ & _ & _ & _ & Q5 & _).
      assert (Hbb : In (b, psz + MAX asize CHUNKSIZE, false)
                  (blist (FreeBlocks s1 + 80)
                     (l1' ++ [(psz + MAX asize CHUNKSIZE, false)]))).
      { rewrite Q5, blist_app. apply in_or_app. right. left.
        f_equal. f_equal. lia. }
      pose proof (block_facts _ _ _ _ _ (proj1 R1) Hbb) as (_ & B & _).
      destruct (b =? NULL); [inversion E; subst; contradiction|].
      apply bind_ret_inv in E. subst p. tauto.
  - set (bp := first_fit s asize cands) in *.
    apply In_candidates in Hin. destruct Hin as (k & Hk & Hik).
    pose proof (size_class_of_range asize).
    assert (Hk' : 0 <= k < 17) by lia.
    destruct (node_facts _ _ _ k bp R Hk' Hik) as (z & _ & _ & B).
    pose proof (lay_pos _ _ L).
    replace (bp =? NULL) with false in E
      by (symmetry; apply Z.eqb_neq; unfold NULL; lia).
    cbn [negb] in E. apply bind_ret_inv in E. subst p. tauto.
Qed.

Lemma C1_malloc_aligned_witness :
  heap_ok s_init /\ 0 < 100 < 2 ^ 32 /\ 4176 mod 8 = 0.
Proof.
  split; [apply reachable_heap_ok, reach_s_init|].
  split; [lia|].
  apply (C1_malloc_aligned s_init 100 4176
           (state_of (mm_malloc 100 s_init) s_fresh)).
  - apply reachable_heap_ok, reach_s_init.
  - lia.
  - vm_compute. reflexivity.
  - vm_compute. discriminate.
Defined.

(** C8. [mm_realloc NULL n] is meant to behave as [mm_malloc n], and the
    source tests for the null pointer, but only after reading the header at
    [NULL - 4]: on the initialised heap [mm_realloc NULL 50] stops at that
    read, while [mm_malloc 50] returns the block at 4176. *)
Theorem C8_resize_null_is_not_malloc :
  mm_realloc NULL 50 s_init = Err (BadRead 4294967292) /\
  mm_malloc 50 s_init = Ok 4176 (state_of (mm_malloc 50 s_init) s_fresh).
Proof. split; vm_compute; reflexivity. Qed.

(** C9. [free_list_remove] on a block whose header has the allocated bit
    set writes the warning to the console and returns; the memory (index,
    header, footer, link words) and every other field of the state are as
    before. *)
Theorem C9_remove_allocated_is_noop s bp :
  valid s bp = true -> valid s (pAtC bp) = true ->
  valid s (HDRP bp) = true ->
  alloc_of_word (mem s (HDRP bp)) <> 0 ->
  free_list_remove bp s =
  Ok tt (mkState (mem s) (mem_start_brk s) (mem_brk s) (mem_max_addr s)
           (HeapBlocks s) (FreeBlocks s)
           (console s ++
              ["calling free_list_remove on an allocated block"%string])).
Proof.
  intros V1 V2 V3 Ha. unfold free_list_remove, p_char_GET, pAtC_GET, p_to_char.
  unfold bind at 1. rewrite GET_run by exact V1.
  unfold bind at 1. unfold get_FreeBlocks.
  unfold bind at 1. rewrite GET_run by exact V2.
  rewrite run_GET_ALLOC by exact V3.
  apply Z.eqb_neq in Ha. rewrite Ha. reflexivity.
Qed.

Lemma C9_remove_allocated_is_noop_witness :
  alloc_of_word (mem s_abc (HDRP 4176)) <> 0 /\
  mem (state_of (free_list_remove 4176 s_abc) s_fresh) = mem s_abc.
Proof.
  split; [vm_compute; discriminate|].
  rewrite (C9_remove_allocated_is_noop s_abc 4176).
  - reflexivity.
  - vm_compute. reflexivity.
  - vm_compute. reflexivity.
  - vm_compute. reflexivity.
  - vm_compute. discriminate.
Defined.

(** C10. [mm_realloc p n] reads the header word at [p - 4] before anything
    else: when that word lies outside the managed region the call stops at
    the read, whatever [p] and [n] are.  For [p = NULL] the word is at
    4294967292, beyond any region, so the null test is never reached. *)
Theorem C10_resize_reads_header_first s p n :
  valid s (HDRP p) = false -> mm_realloc p n s = Err (BadRead (HDRP p)).
Proof.
  intros V. unfold mm_realloc. unfold bind at 1.
  unfold GET_SIZE. unfold bind at 1. unfold GET. now rewrite V.
Qed.

Lemma C10_resize_reads_header_first_witness :
  valid s_init (HDRP NULL) = false /\
  mm_realloc NULL 50 s_init = Err (BadRead 4294967292).
Proof.
  split; [vm_compute; reflexivity|].
  apply (C10_resize_reads_header_first s_init NULL 50).
  vm_compute. reflexivity.
Defined.

Lemma buckets_rep s bl idx k :
  rep s bl idx -> 0 <= k < 17 -> buckets s k = idx k.
Proof.
  intros R Hk. unfold buckets. now rewrite (bucket_rep s bl idx k R Hk).
Qed.


(** C2.  The index does not stay consistent with the headers in every
    reachable state: [mm_malloc] rounds a request above 2^32 - 16 by
    wrap-around.  After three blocks of 24 bytes and the release of the
    first, [mm_malloc 4294967295] returns the block at 4176 with a header of
    8 bytes; its release overwrites the header of the following block, the
    walk over the headers stops there, and the big free block at 4248 stays
    linked in bucket 8 although it is no block of the heap any more. *)
Theorem C2_wrapped_request_breaks_index :
  reachable_any s_wrap_free /\
  round_size 4294967295 = 8 /\
  mm_malloc 4294967295 s_bc = Ok 4176 s_wrap /\
  size_of_word (mem s_wrap 4172) = 8 /\
  mm_free 4176 s_wrap = Ok tt s_wrap_free /\
  heap_blocks s_wrap_free = [(4176, 8, false)] /\
  bucket s_wrap_free 8 = Some [4248] /\
  ~ index_consistent s_wrap_free.
Proof.
  split.
  { apply (reach_free _ s_wrap 4176 tt s_wrap_free);
      [|vm_compute; reflexivity|apply run_wrap_free].
    apply (reach_malloc _ s_bc 4294967295 4176 s_wrap);
      [|lia|apply run_wrap].
    apply (reach_free _ s_abc 4176 tt s_bc);
      [|vm_compute; reflexivity|apply run_bc].
    apply reach_s_abc. lia. }
  split; [vm_compute; reflexivity|].
  split; [exact run_wrap|].
  split; [vm_compute; reflexivity|].
  split; [exact run_wrap_free|].
  split; [vm_compute; reflexivity|].
  split; [vm_compute; reflexivity|].
  intros [H1 _]. destruct (H1 8) as (l & Hl & _ & Hn); [lia|].
  vm_compute in Hl. inversion Hl. subst l.
  destruct (Hn 4248) as (sz & Hin & _); [now left|].
  vm_compute in Hin. destruct Hin as [E|[]]. discriminate.
Qed.

(** * Coalescing keeps the free blocks maximal *)

Lemma free_no_adjacent s p u s' :
  heap_ok s -> no_adjacent_free s -> is_live s p = true ->
  mm_free p s = Ok u s' -> no_adjacent_free s'.
Proof.
  intros (bl & idx & R & C) NA Hl E.
  destruct (live_split s bl idx p R Hl) as (l1 & sz & l2 & -> & ->).
  unfold no_adjacent_free in *.
  rewrite (heap_blocks_rep _ _ _ R), map_snd_blist in NA.
  pose proof (lay_sizes _ _ (proj1 R)) as SZ.
  apply sizes_ok_app in SZ. destruct SZ as [S1 SZ].
  apply sizes_ok_app in SZ. destruct SZ as [_ S2].
  pose proof (coalesce_no_adjacent l1 sz l2 S1 S2 NA) as K.
  pose proof (wp_result _ _ _ _ _ (mm_free_spec s idx l1 sz l2 R C) E) as H.
  destruct (coalesce_prev l1) as [l1' psz].
  destruct (coalesce_next l2) as [l2' nsz].
  destruct H as (R' & _).
  now rewrite (heap_blocks_rep _ _ _ R'), map_snd_blist.
Qed.

(** C3.  From a state that satisfies the heap invariant and has no two
    adjacent free blocks, any run of [mm_free] calls on live allocated
    blocks ends in a state where no two adjacent blocks are both free:
    every release merges the block with its free neighbours. *)
Theorem C3_release_keeps_maximal s s' :
  heap_ok s -> no_adjacent_free s -> released s s' -> no_adjacent_free s'.
Proof.
  intros H NA Rl. induction Rl as [s|s p u s1 s' Hl E _ IH]; [exact NA|].
  apply IH.
  - eapply heap_ok_free; eauto.
  - eapply free_no_adjacent; eauto.
Qed.

(* four blocks allocated; the first, the third and then the second released:
   the three merge into one free block of 72 bytes *)
Lemma C3_release_keeps_maximal_witness :
  heap_ok s_abcd /\ no_adjacent_free s_abcd /\
  released s_abcd (state_of (mm_free 4200 s_bd) s_fresh) /\
  map snd (heap_blocks (state_of (mm_free 4200 s_bd) s_fresh)) =
    [false; true; false] /\
  no_adjacent_free (state_of (mm_free 4200 s_bd) s_fresh).
Proof.
  assert (H : heap_ok s_abcd).
  { apply (reachable_heap_ok s_abcd). apply reach_s_abcd. unfold max_request. lia. }
  assert (NA : no_adjacent_free s_abcd) by (vm_compute; reflexivity).
  assert (Rl : released s_abcd (state_of (mm_free 4200 s_bd) s_fresh)).
  { apply (released_step s_abcd 4176 tt s_bcd);
      [vm_compute; reflexivity | exact run_bcd |].
    apply (released_step s_bcd 4224 tt s_bd);
      [vm_compute; reflexivity | exact run_bd |].
    apply (released_step s_bd 4200 tt (state_of (mm_free 4200 s_bd) s_fresh));
      [vm_compute; reflexivity | vm_compute; reflexivity |].
    apply released_refl. }
  split; [exact H|]. split; [exact NA|]. split; [exact Rl|].
  split; [vm_compute; reflexivity|].
  exact (C3_release_keeps_maximal _ _ H NA Rl).
Defined.
(** * The search order of [find_fit] *)

Lemma candidates_ext (f g : Z -> list Z) c n :
  (forall k, c <= k < c + Z.of_nat n -> f k = g k) ->
  candidates f c n = candidates g c n.
Proof.
  revert c. induction n as [|n IH]; intros c H; [reflexivity|].
  cbn [candidates]. rewrite (H c) by lia. f_equal. apply IH.
  intros k Hk. apply H. lia.
Qed.

Lemma search_order_rep s bl idx asize :
  rep s bl idx ->
  search_order s asize =
  candidates idx (size_class_of asize) (Z.to_nat (17 - size_class_of asize)).
Proof.
  intros R. unfold search_order. apply candidates_ext.
  intros k Hk. pose proof (size_class_of_range asize).
  apply (buckets_rep s bl idx k R). lia.
Qed.

Lemma insert_at_head s bl idx bp sz :
  rep s bl idx ->
  In (bp, sz, false) (blist (FreeBlocks s + 80) bl) ->
  (forall k, 0 <= k < 17 -> ~ In bp (idx k)) ->
  exists s', free_list_insert bp s = Ok tt s' /\
    buckets s' (size_class_of sz) = bp :: buckets s (size_class_of sz) /\
    forall k, 0 <= k < 17 -> k <> size_class_of sz ->
      buckets s' k = buckets s k.
Proof.
  intros R Hb Hn.
  destruct (free_list_insert_spec s bl idx bp sz R Hb Hn)
    as ([] & s' & E & R' & _ & _).
  exists s'. split; [exact E|].
  pose proof (size_class_of_range sz) as Hc. split.
  - rewrite (buckets_rep _ _ _ _ R' Hc), (buckets_rep _ _ _ _ R Hc).
    now rewrite idx_set_same.
  - intros k Hk Hne.
    rewrite (buckets_rep _ _ _ _ R' Hk), (buckets_rep _ _ _ _ R Hk).
    now rewrite idx_set_other.
Qed.

(** C4.  In a state whose memory represents a block list [bl] and an index
    [idx]: [find_fit] returns, without changing the state, the first node
    whose header size covers the request among the nodes of the bucket of
    the request's size class and then of every larger bucket, each bucket
    read from its head, and [NULL] when none fits; and [free_list_insert]
    links a free block at the head of the bucket of its size class, leaving
    the other buckets as they are, so a bucket is read most recently
    inserted first. *)
Theorem C4_find_fit_head_first s bl idx :
  rep s bl idx ->
  (forall asize,
     find_fit asize s = Ok (first_fit s asize (search_order s asize)) s) /\
  (forall bp sz,
     In (bp, sz, false) (blist (FreeBlocks s + 80) bl) ->
     (forall k, 0 <= k < 17 -> ~ In bp (idx k)) ->
     exists s', free_list_insert bp s = Ok tt s' /\
       buckets s' (size_class_of sz) = bp :: buckets s (size_class_of sz) /\
       forall k, 0 <= k < 17 -> k <> size_class_of sz ->
         buckets s' k = buckets s k).
Proof.
  intros R. split.
  - intros asize. rewrite (search_order_rep s bl idx asize R).
    apply (find_fit_spec s bl idx asize R).
  - intros bp sz. apply insert_at_head. exact R.
Qed.

(* the blocks at 4176 and 4224 are free, 4224 at the head of bucket 1; the
   node at 4176 unlinked and inserted again comes to the head *)
Lemma C4_find_fit_head_first_witness :
  find_fit 24 s_bd = Ok (first_fit s_bd 24 (search_order s_bd 24)) s_bd /\
  first_fit s_bd 24 (search_order s_bd 24) = 4224 /\
  buckets s_unl 1 = [4224] /\
  exists s', free_list_insert 4176 s_unl = Ok tt s' /\
             buckets s' 1 = [4176; 4224].
Proof.
  assert (H : heap_ok s_bd).
  { apply (reachable_heap_ok s_bd). apply reach_s_bd. unfold max_request. lia. }
  destruct H as (bl & idx & R & C).
  split; [exact (proj1 (C4_find_fit_head_first s_bd bl idx R) 24)|].
  split; [vm_compute; reflexivity|].
  split; [vm_compute; reflexivity|].
  assert (Hb : In (4176, 24, false) (blist (FreeBlocks s_bd + 80) bl)).
  { rewrite <- (heap_blocks_rep _ _ _ R). vm_compute. auto. }
  assert (Hi : In 4176 (idx (size_class_of 24))) by (apply (C _ _ Hb)).
  destruct (free_list_remove_ok s_bd bl idx 4176 24 R Hb Hi)
    as ([] & s1 & E & R1 & SR & _).
  assert (Es : s1 = s_unl) by (unfold s_unl; rewrite E; reflexivity).
  subst s1.
  assert (EF : FreeBlocks s_unl = FreeBlocks s_bd) by (vm_compute; reflexivity).
  rewrite <- EF in Hb.
  assert (Hn : forall k, 0 <= k < 17 -> ~ In 4176 (idx_remove idx 4176 k)).
  { intros k _. unfold idx_remove. apply remove_In. }
  destruct (proj2 (C4_find_fit_head_first s_unl bl _ R1) 4176 24 Hb Hn)
    as (s' & E' & Hh & _).
  exists s'. split; [exact E'|].
  change (size_class_of 24) with 1 in Hh. rewrite Hh.
  vm_compute. reflexivity.
Defined.

(* [mm_free 4176] then [mm_free 4224] insert the two nodes of bucket 1 in
   this order; both cover a request of 24 bytes, and the search returns the
   one inserted last *)
Lemma C4_counterexample :
  reachable s_bd /\
  mm_free 4176 s_abcd = Ok tt s_bcd /\ mm_free 4224 s_bcd = Ok tt s_bd /\
  buckets s_bcd 1 = [4176] /\ buckets s_bd 1 = [4224; 4176] /\
  size_class_of 24 = 1 /\
  search_order_fifo s_bd 24 = [4176; 4224; 4272] /\
  fits s_bd 24 4176 = true /\
  find_fit 24 s_bd = Ok 4224 s_bd /\
  find_fit 24 s_bd <>
    Ok (first_fit s_bd 24 (search_order_fifo s_bd 24)) s_bd.
Proof.
  assert (F : find_fit 24 s_bd = Ok 4224 s_bd) by (vm_compute; reflexivity).
  split; [apply reach_s_bd; unfold max_request; lia|].
  split; [exact run_bcd|]. split; [exact run_bd|].
  do 5 (split; [vm_compute; reflexivity|]).
  split; [exact F|].
  rewrite F.
  replace (first_fit s_bd 24 (search_order_fifo s_bd 24)) with 4176
    by (vm_compute; reflexivity).
  intros Q. inversion Q.
Qed.
(** * The steps of a placement *)

Lemma wp_bind_run {A B} (c : M A) (k : A -> M B) (Q : B -> state -> Prop)
  s a s1 :
  c s = Ok a s1 -> wp (k a) Q s1 -> wp (bind c k) Q s.
Proof.
  intros E (b & s' & E' & HQ). exists b, s'. split; [|exact HQ].
  unfold bind. now rewrite E.
Qed.

Lemma place_trace s idx l1 csz l2 c i1 i2 asize :
  let bp := FreeBlocks s + 80 + total l1 in
  rep s (l1 ++ [(csz, false)] ++ l2) idx ->
  c = size_class_of csz -> idx c = i1 ++ bp :: i2 ->
  16 <= asize <= csz -> asize mod 8 = 0 ->
  let idx1 := idx_set idx c (i1 ++ i2) in
  exists s1,
    free_list_remove bp s = Ok tt s1 /\
    rep s1 (l1 ++ [(csz, false)] ++ l2) idx1 /\
    wp (place bp asize) (fun _ s' =>
      if csz - asize >=? 16 then
        exists s2,
          same_region s1 s2 /\
          (mem s2 (bp - 4) = tag asize true /\
           mem s2 (bp + asize - 8) = tag asize true /\
           mem s2 (bp + asize - 4) = tag (csz - asize) false /\
           mem s2 (bp + csz - 8) = tag (csz - asize) false /\
           mem s2 (bp + asize) = 0 /\ mem s2 (bp + asize + 4) = 0) /\
          (forall x, x < bp - 4 \/ bp + csz - 4 <= x ->
                     mem s2 x = mem s1 x) /\
          rep s2 (l1 ++ [(asize, true); (csz - asize, false)] ++ l2) idx1 /\
          free_list_insert (bp + asize) s2 = Ok tt s'
      else
        same_region s1 s' /\
        mem s' (bp - 4) = tag csz true /\
        mem s' (bp + csz - 8) = tag csz true /\
        (forall x, x <> bp - 4 -> x <> bp + csz - 8 -> mem s' x = mem s1 x))
      s.
Proof.
  intros bp R Ec El Ha Ha8 idx1.
  pose proof R as (L & I & [N1 N2]).
  assert (Hc : 0 <= c < 17) by (subst c; apply size_class_of_range).
  assert (Hb : In (bp, csz, false)
                 (blist (FreeBlocks s + 80) (l1 ++ [(csz, false)] ++ l2))).
  { apply blist_In_app3. right. left. now left. }
  pose proof (block_facts _ _ _ _ _ L Hb) as (G & B & Th & Tf).
  destruct (free_list_remove_spec s _ idx c i1 bp i2 R Hc El)
    as ([] & s1 & E1 & R1 & SR1 & F1 & Z1 & Z2).
  exists s1. split; [exact E1|]. split; [exact R1|].
  pose proof SR1 as (Q1 & Q2 & Q3 & Q4 & Q5 & Q6).
  unfold place. norm.
  wp_step.
  destruct (csz - asize >=? 16) eqn:Esplit.
  - assert (16 <= csz - asize) by lia.
    apply (wp_bind_run _ _ _ _ tt s1 E1).
    do 15 wp_step.
    match goal with |- wp _ _ ?s2 => remember s2 as s' eqn:Es' end.
    assert (SR' : same_region s1 s') by (subst s'; apply same_region_set_mem).
    assert (R' : rep s' (l1 ++ [(asize, true); (csz - asize, false)] ++ l2)
                   idx1).
    { eapply rep_replace; eauto.
      - simpl. lia.
      - intros sz al [E|[E|[]]]; inversion E; subst; lia.
      - rewrite Q5. intros b sz al k [E|[]] Hk. inversion E; subst b sz al.
        eapply removed_not_in; eauto.
      - rewrite Q5. cbn [total]. fold bp. intros x Hx. subst s'. upd_tac.
        reflexivity.
      - rewrite Q5. fold bp. intros a sz al [E|[E|[]]]; inversion E; subst.
        + upd_tac. auto.
        + replace (bp + asize + (csz - asize) - 8) with (bp + csz - 8) by lia.
          upd_tac. auto. }
    assert (Hb' : In (bp + asize, csz - asize, false)
              (blist (FreeBlocks s' + 80)
                 (l1 ++ [(asize, true); (csz - asize, false)] ++ l2))).
    { destruct SR' as (_ & _ & _ & _ & -> & _). rewrite Q5.
      apply blist_In_app3. right. left. right. left. reflexivity. }
    assert (Hn' : forall k, 0 <= k < 17 -> ~ In (bp + asize) (idx1 k)).
    { intros k Hk Hin.
      destruct (node_facts _ _ _ _ _ R1 Hk Hin) as (sn & Hn & _).
      rewrite Q5 in Hn.
      pose proof (blist_In_disjoint _ _ _ _ _ _ _ _ (lay_sizes _ _ L) Hb Hn).
      pose proof (blist_In_sizes _ _ _ _ _ (lay_sizes _ _ L) Hn). lia. }
    destruct (free_list_insert_spec s' _ idx1 _ _ R' Hb' Hn')
      as ([] & s3 & E3 & _).
    exists tt, s3. split; [exact E3|].
    exists s'. split; [exact SR'|]. split.
    { replace (bp + csz - 8) with (bp + asize + (csz - asize) - 8) by lia.
      subst s'. repeat split; upd_tac; reflexivity. }
    split; [intros x Hx; subst s'; upd_tac; reflexivity|].
    split; [exact R'|exact E3].
  - assert (csz - asize < 16) by lia.
    apply (wp_bind_run _ _ _ _ tt s1 E1).
    do 4 wp_step. wp_step.
    split; [apply same_region_set_mem|].
    split; [upd_tac; reflexivity|]. split; [upd_tac; reflexivity|].
    intros x Hx1 Hx2. upd_tac. reflexivity.
Qed.

Lemma blist_strip a bl :
  map (fun t : Z * Z * bool => (snd (fst t), snd t)) (blist a bl) = bl.
Proof.
  revert a. induction bl as [|[sz al] r IH]; intros a; cbn; [reflexivity|].
  now rewrite IH.
Qed.

Lemma idx_insert_buckets s bl idx c a k :
  rep s bl idx -> 0 <= k < 17 -> 0 <= c < 17 ->
  idx_set idx c (a :: idx c) k = idx_insert (buckets s) c a k.
Proof.
  intros R Hk Hc. unfold idx_insert, idx_set.
  rewrite (buckets_rep _ _ _ _ R Hk), (buckets_rep _ _ _ _ R Hc). reflexivity.
Qed.

(** C5.  [place bp asize] on a linked free block [bp] of size [csz], for a
    request [asize] that is a multiple of 8 with [16 <= asize <= csz]: the
    call first unlinks [bp] with [free_list_remove]; when
    [csz - asize >= 16] it then writes header and footer of an allocated
    block of [asize] bytes at [bp] and of a free block of [csz - asize]
    bytes at [bp + asize], zeroes the two link words of that remainder, and
    only then links the remainder with [free_list_insert]; otherwise the
    whole block becomes allocated and the index stays as the removal left
    it. *)
Theorem C5_place_split_or_whole s idx l1 csz l2 asize :
  let first := FreeBlocks s + 80 in
  let bp := first + total l1 in
  let bl := l1 ++ [(csz, false)] ++ l2 in
  rep s bl idx -> complete first bl idx ->
  16 <= asize <= csz -> asize mod 8 = 0 ->
  exists s1 s',
    free_list_remove bp s = Ok tt s1 /\
    (forall k, 0 <= k < 17 ->
       buckets s1 k = remove Z.eq_dec bp (buckets s k)) /\
    place bp asize s = Ok tt s' /\
    if csz - asize >=? 16 then
      heap_blocks s' =
        blist first (l1 ++ [(asize, true); (csz - asize, false)] ++ l2) /\
      (forall k, 0 <= k < 17 ->
         buckets s' k =
         idx_insert (buckets s1) (size_class_of (csz - asize))
                    (bp + asize) k) /\
      exists s2,
        same_region s1 s2 /\
        (mem s2 (bp - 4) = tag asize true /\
         mem s2 (bp + asize - 8) = tag asize true /\
         mem s2 (bp + asize - 4) = tag (csz - asize) false /\
         mem s2 (bp + csz - 8) = tag (csz - asize) false /\
         mem s2 (bp + asize) = 0 /\ mem s2 (bp + asize + 4) = 0) /\
        (forall x, x < bp - 4 \/ bp + csz - 4 <= x -> mem s2 x = mem s1 x) /\
        (forall k, 0 <= k < 17 -> buckets s2 k = buckets s1 k) /\
        free_list_insert (bp + asize) s2 = Ok tt s'
    else
      heap_blocks s' = blist first (l1 ++ [(csz, true)] ++ l2) /\
      (forall k, 0 <= k < 17 -> buckets s' k = buckets s1 k).
Proof.
  intros first bp bl R C Ha Ha8.
  assert (Hb : In (bp, csz, false) (blist first bl)).
  { apply blist_In_app3. right. left. now left. }
  pose proof (size_class_of_range csz) as Hc.
  destruct (in_split _ _ (C _ _ Hb)) as (i1 & i2 & El).
  destruct (place_trace s idx l1 csz l2 _ i1 i2 asize R eq_refl El Ha Ha8)
    as (s1 & E1 & R1 & ([] & s' & E & T)).
  pose proof (wp_result _ _ _ _ _
                (place_spec s idx l1 csz l2 _ i1 i2 asize R eq_refl El Ha Ha8)
                E) as (SR & _ & P).
  pose proof SR as (_ & _ & _ & _ & Q5 & _).
  exists s1, s'. split; [exact E1|].
  assert (B1 : forall k, 0 <= k < 17 ->
                 buckets s1 k = remove Z.eq_dec bp (buckets s k)).
  { intros k Hk. rewrite (buckets_rep _ _ _ _ R1 Hk).
    rewrite (idx_remove_set s bl idx _ i1 bp i2 k R Hc El Hk).
    unfold idx_remove. now rewrite (buckets_rep _ _ _ _ R Hk). }
  split; [exact B1|]. split; [exact E|].
  destruct (csz - asize >=? 16).
  - destruct T as (s2 & SR2 & W & F & R2 & E2).
    split; [rewrite (heap_blocks_rep _ _ _ P), Q5; reflexivity|].
    split.
    + intros k Hk. rewrite (buckets_rep _ _ _ _ P Hk).
      apply (idx_insert_buckets s1 _ _ _ _ _ R1 Hk).
      apply size_class_of_range.
    + exists s2. split; [exact SR2|]. split; [exact W|]. split; [exact F|].
      split; [|exact E2].
      intros k Hk.
      now rewrite (buckets_rep _ _ _ _ R2 Hk), (buckets_rep _ _ _ _ R1 Hk).
  - split; [rewrite (heap_blocks_rep _ _ _ P), Q5; reflexivity|].
    intros k Hk.
    now rewrite (buckets_rep _ _ _ _ P Hk), (buckets_rep _ _ _ _ R1 Hk).
Qed.

(* the first chunk, a free block of 4096 bytes, takes a block of 24 bytes *)
Lemma C5_place_split_or_whole_witness :
  heap_blocks s_init = [(4176, 4096, false)] /\
  exists s', place 4176 24 s_init = Ok tt s' /\
             heap_blocks s' = [(4176, 24, true); (4200, 4072, false)].
Proof.
  assert (HB : heap_blocks s_init = [(4176, 4096, false)])
    by (vm_compute; reflexivity).
  split; [exact HB|].
  assert (H : heap_ok s_init).
  { apply (reachable_heap_ok s_init). apply reach_s_init. }
  destruct H as (bl & idx & R & C).
  assert (Eb : bl = [] ++ [(4096, false)] ++ []).
  { rewrite <- (blist_strip (FreeBlocks s_init + 80) bl).
    rewrite <- (heap_blocks_rep _ _ _ R), HB. reflexivity. }
  subst bl.
  destruct (C5_place_split_or_whole s_init idx [] 4096 [] 24 R C
              ltac:(lia) ltac:(reflexivity))
    as (s1 & s' & _ & _ & E & T).
  exists s'. split; [exact E|].
  change (4096 - 24 >=? 16) with true in T. cbv iota in T.
  destruct T as (T & _). rewrite T. vm_compute. reflexivity.
Defined.

(** * The steps of a release *)

Lemma mm_free_trace s idx l1 sz l2 :
  let bp := FreeBlocks s + 80 + total l1 in
  let bl := l1 ++ [(sz, true)] ++ l2 in
  rep s bl idx -> complete (FreeBlocks s + 80) bl idx ->
  wp (mm_free bp) (fun _ s' =>
    exists s0 b s1,
      same_region s s0 /\
      (mem s0 (bp - 4) = tag sz false /\ mem s0 (bp + sz - 8) = tag sz false /\
       mem s0 bp = 0 /\ mem s0 (bp + 4) = 0) /\
      (forall x, x < bp - 4 \/ bp + sz - 4 <= x -> mem s0 x = mem s x) /\
      coalesce bp s0 = Ok b s1 /\
      rep s1 (fst (coalesce_prev l1) ++
              [(snd (coalesce_prev l1) + sz + snd (coalesce_next l2), false)]
              ++ fst (coalesce_next l2))
             (coalesce_index idx l1 bp sz l2) /\
      b = bp - snd (coalesce_prev l1) /\
      free_list_insert b s1 = Ok tt s') s.
Proof.
  intros bp bl R Hc. pose proof R as (L & I & [N1 N2]).
  assert (Hb : In (bp, sz, true) (blist (FreeBlocks s + 80) bl)).
  { apply blist_In_app3. right. left. now left. }
  pose proof (block_facts _ _ _ _ _ L Hb) as (G & B & Th & Tf).
  unfold mm_free, put_head_foot, put. norm.
  do 10 wp_step.
  match goal with |- wp _ _ ?s2 => remember s2 as s1 eqn:Es1 end.
  assert (SR1 : same_region s s1) by (subst s1; apply same_region_set_mem).
  pose proof SR1 as (Q1 & Q2 & Q3 & Q4 & Q5 & Q6).
  assert (R1 : rep s1 (l1 ++ [(sz, false)] ++ l2) idx).
  { eapply (rep_replace s s1 _ l1 [(sz, true)] [(sz, false)] l2);
      try reflexivity; eauto.
    - intros z al [E|[]]; inversion E; subst; lia.
    - fold bp. intros b z al k [E|[]] Hk. inversion E; subst b z al.
      eapply alloc_not_linked; eauto.
    - cbn [total]. fold bp. intros x Hx. subst s1. upd_tac. reflexivity.
    - fold bp. intros a z al [E|[]]; inversion E; subst. upd_tac.
      split; reflexivity. }
  assert (Sub : forall a sa, a <> bp ->
            In (a, sa, false) (blist (FreeBlocks s + 80)
                                 (l1 ++ [(sz, false)] ++ l2)) ->
            In (a, sa, false) (blist (FreeBlocks s + 80) bl)).
  { intros a sa Hne Ha. unfold bl. apply blist_In_app3 in Ha.
    apply blist_In_app3. destruct Ha as [Ha|[Ha|Ha]]; [tauto| |tauto].
    destruct Ha as [E|[]]. inversion E. unfold bp in Hne. lia. }
  assert (Hn1 : forall k, 0 <= k < 17 -> ~ In bp (idx k)).
  { intros k Hk. exact (alloc_not_linked s bl idx bp sz k R Hb Hk). }
  assert (Hcb : complete_but (FreeBlocks s + 80)
                  (l1 ++ [(sz, false)] ++ l2) idx bp).
  { intros a sa Ha Hne. apply Hc. apply Sub; auto. }
  pose proof (coalesce_spec s1 idx l1 sz l2) as HC.
  pose proof (coalesce_complete s1 idx l1 sz l2) as HK.
  cbv zeta in HC, HK. rewrite Q5 in HC, HK. fold bp in HC, HK.
  specialize (HC R1 Hn1 Hcb). specialize (HK R1 Hn1 Hcb).
  destruct (coalesce_prev l1) as [l1' psz].
  destruct (coalesce_next l2) as [l2' nsz].
  destruct HK as [K1 K2]. cbn [fst snd].
  destruct HC as (b & s2 & EC & E1 & E2 & R2 & SR2 & F2).
  apply (wp_bind_run _ _ _ _ b s2 EC).
  pose proof SR2 as (Q1' & Q2' & Q3' & Q4' & Q5' & Q6').
  assert (Hb2 : In (b, psz + sz + nsz, false)
              (blist (FreeBlocks s2 + 80)
                 (l1' ++ [(psz + sz + nsz, false)] ++ l2'))).
  { rewrite Q5', Q5. apply blist_In_app3. right. left. left.
    f_equal. f_equal. lia. }
  assert (Hn2 : forall k, 0 <= k < 17 ->
                  ~ In b (coalesce_index idx l1 bp sz l2 k)).
  { rewrite E1. exact K1. }
  destruct (free_list_insert_spec s2 _ _ _ _ R2 Hb2 Hn2)
    as ([] & s3 & E3 & _).
  exists tt, s3. split; [exact E3|].
  exists s1, b, s2. split; [exact SR1|]. split.
  { subst s1. repeat split; upd_tac; reflexivity. }
  split; [intros x Hx; subst s1; upd_tac; reflexivity|].
  split; [exact EC|]. split; [exact R2|]. split; [exact E1|exact E3].
Qed.

(* the neighbours of a block, read from the previous footer and the next
   header *)
Lemma neighbour_words s l1 sz al l2 :
  layout s (l1 ++ [(sz, al)] ++ l2) ->
  let bp := FreeBlocks s + 80 + total l1 in
  let pw := mem s (bp - 8) in
  let nw := mem s (bp + sz - 4) in
  (snd (prev_blk l1) = negb (alloc_of_word pw =? 0) /\
   fst (prev_blk l1) = size_of_word pw) /\
  (snd (next_blk l2) = negb (alloc_of_word nw =? 0) /\
   fst (next_blk l2) = size_of_word nw).
Proof.
  intros L bp pw nw.
  pose proof (prev_footer s l1 _ L) as (P1 & _ & P3 & P4 & P5 & _).
  assert (L' : layout s ((l1 ++ [(sz, al)]) ++ l2))
    by (now rewrite <- app_assoc).
  pose proof (next_header s _ l2 L') as (N1 & N2 & N3 & N4 & _).
  rewrite total_app in N1, N4. cbn [total] in N1, N4.
  replace (FreeBlocks s + 80 + (total l1 + (sz + 0)) - 4) with (bp + sz - 4)
    in N1 by (unfold bp; lia).
  fold bp in P1, P5.
  pose proof (lay_brk _ _ L). pose proof (lay_max _ _ L).
  pose proof (lay_lim _ _ L). pose proof (lay_pos _ _ L).
  pose proof (lay_sizes _ _ L) as SZ.
  apply sizes_ok_app in SZ. destruct SZ as [S1 SZ].
  apply sizes_ok_app in SZ. destruct SZ as [SX S2].
  apply sizes_ok_cons in SX. destruct SX as [[? ?] _].
  pose proof (total_nonneg _ S1). pose proof (total_nonneg _ S2).
  rewrite !total_app in *. cbn [total] in *.
  unfold pw, nw. rewrite P1, N1.
  rewrite !alloc_of_tag, !size_of_tag by lia.
  split; split; try reflexivity.
  - destruct (snd (prev_blk l1)); reflexivity.
  - destruct (snd (next_blk l2)); reflexivity.
Qed.

Lemma coalesce_index_buckets s bl idx l1 bp sz l2 k :
  rep s bl idx -> 0 <= k < 17 ->
  coalesce_index idx l1 bp sz l2 k = coalesce_index (buckets s) l1 bp sz l2 k.
Proof.
  intros R Hk. unfold coalesce_index, idx_remove.
  destruct (snd (prev_blk l1)), (snd (next_blk l2));
    now rewrite (buckets_rep _ _ _ _ R Hk).
Qed.

(** C6.  [mm_free bp] on an allocated block of size [sz]: the call writes
    header and footer of [bp] with the allocated bit 0 and zeroes its two
    link words; [coalesce] then decides by the allocated bit of the footer
    before [bp] and of the header after it: a free previous block and a
    free next block are each unlinked and absorbed, the sizes added, and the
    merged block starts at the previous block when that one is absorbed;
    last, [free_list_insert] links the one merged block, and nothing else,
    at the head of the bucket of its size class. *)
Theorem C6_free_marks_coalesces_inserts s idx l1 sz l2 :
  let first := FreeBlocks s + 80 in
  let bp := first + total l1 in
  let bl := l1 ++ [(sz, true)] ++ l2 in
  rep s bl idx -> complete first bl idx ->
  let pw := mem s (bp - 8) in
  let nw := mem s (bp + sz - 4) in
  let free_prev := alloc_of_word pw =? 0 in
  let free_next := alloc_of_word nw =? 0 in
  let psz := if free_prev then size_of_word pw else 0 in
  let nsz := if free_next then size_of_word nw else 0 in
  let b := bp - psz in
  let S := psz + sz + nsz in
  exists s0 s1 s',
    (same_region s s0 /\
     mem s0 (bp - 4) = tag sz false /\ mem s0 (bp + sz - 8) = tag sz false /\
     mem s0 bp = 0 /\ mem s0 (bp + 4) = 0 /\
     forall x, x < bp - 4 \/ bp + sz - 4 <= x -> mem s0 x = mem s x) /\
    coalesce bp s0 = Ok b s1 /\
    free_list_insert b s1 = Ok tt s' /\
    mm_free bp s = Ok tt s' /\
    (forall k, 0 <= k < 17 ->
       buckets s1 k =
       let i1 := if free_prev then remove Z.eq_dec b (buckets s k)
                 else buckets s k in
       if free_next then remove Z.eq_dec (bp + sz) i1 else i1) /\
    (forall k, 0 <= k < 17 ->
       buckets s' k = idx_insert (buckets s1) (size_class_of S) b k) /\
    heap_blocks s' =
      blist first ((if free_prev then removelast l1 else l1) ++
                   [(S, false)] ++ (if free_next then tl l2 else l2)).
Proof.
  intros first bp bl R C pw nw free_prev free_next psz nsz b S.
  destruct (neighbour_words s l1 sz true l2 (proj1 R))
    as ((P1 & P2) & (N1 & N2)).
  fold first bp pw free_prev in P1, P2. fold first bp nw free_next in N1, N2.
  assert (EP : coalesce_prev l1 =
               (if free_prev then removelast l1 else l1, psz)).
  { unfold coalesce_prev. rewrite P1, P2. unfold psz.
    destruct free_prev; reflexivity. }
  assert (EN : coalesce_next l2 = (if free_next then tl l2 else l2, nsz)).
  { unfold coalesce_next. rewrite N1, N2. unfold nsz.
    destruct free_next; reflexivity. }
  destruct (mm_free_trace s idx l1 sz l2 R C)
    as ([] & s' & E & s0 & b0 & s1 & SR0 & (W1 & W2 & W3 & W4) & F0 & EC &
        R1 & Eb & EI).
  pose proof (wp_result _ _ _ _ _ (mm_free_spec s idx l1 sz l2 R C) E) as H.
  rewrite EP, EN in H, R1. rewrite EP in Eb. cbn [fst snd] in R1, Eb.
  fold first bp in R1, Eb, H. fold b in Eb. subst b0.
  destruct H as (R' & _ & SR & _).
  exists s0, s1, s'.
  split; [split; [exact SR0|]; repeat split; assumption|].
  split; [exact EC|]. split; [exact EI|]. split; [exact E|].
  split; [|split].
  - intros k Hk. rewrite (buckets_rep _ _ _ _ R1 Hk).
    rewrite (coalesce_index_buckets s bl idx l1 bp sz l2 k R Hk).
    unfold coalesce_index, idx_remove. rewrite P1, P2, N1.
    unfold b, psz. destruct free_prev, free_next; reflexivity.
  - intros k Hk. rewrite (buckets_rep _ _ _ _ R' Hk).
    apply (idx_insert_buckets s1 _ _ _ _ _ R1 Hk).
    apply size_class_of_range.
  - rewrite (heap_blocks_rep _ _ _ R').
    destruct SR as (_ & _ & _ & _ & -> & _). reflexivity.
Qed.

(* the block at 4200 between two free blocks of 24 bytes: the three merge
   into one block of 72 bytes at 4176 *)
Lemma C6_free_marks_coalesces_inserts_witness :
  heap_blocks s_bd =
    [(4176, 24, false); (4200, 24, true); (4224, 24, false);
     (4248, 24, true); (4272, 4000, false)] /\
  exists s', mm_free 4200 s_bd = Ok tt s' /\
    heap_blocks s' =
      [(4176, 72, false); (4248, 24, true); (4272, 4000, false)] /\
    buckets s' (size_class_of 72) = [4176].
Proof.
  assert (HB : heap_blocks s_bd =
    [(4176, 24, false); (4200, 24, true); (4224, 24, false);
     (4248, 24, true); (4272, 4000, false)]) by (vm_compute; reflexivity).
  split; [exact HB|].
  assert (H : heap_ok s_bd).
  { apply (reachable_heap_ok s_bd). apply reach_s_bd. unfold max_request. lia. }
  destruct H as (bl & idx & R & C).
  assert (Eb : bl = [(24, false)] ++ [(24, true)] ++
                    [(24, false); (24, true); (4000, false)]).
  { rewrite <- (blist_strip (FreeBlocks s_bd + 80) bl).
    rewrite <- (heap_blocks_rep _ _ _ R), HB. reflexivity. }
  subst bl.
  destruct (C6_free_marks_coalesces_inserts s_bd idx _ _ _ R C)
    as (s0 & s1 & s' & _ & _ & _ & E & B1 & B' & HB').
  exists s'. split; [exact E|]. split.
  - rewrite HB'. vm_compute. reflexivity.
  - assert (Hk : 0 <= size_class_of 72 < 17) by apply size_class_of_range.
    remember (buckets s1) as f eqn:Ef in *.
    pose proof (B1 _ Hk) as Hx. rewrite (B' _ Hk).
    vm_compute in Hx. vm_compute. rewrite Hx. reflexivity.
Defined.

(** * Growing a block *)

Lemma next_free_shape (l2 : list (Z * bool)) :
  snd (next_blk l2) = false -> l2 = (fst (next_blk l2), false) :: tl l2.
Proof.
  unfold next_blk. destruct l2 as [|[z b] r]; cbn; [discriminate|].
  now intros ->.
Qed.

Lemma move_steps (q p len : Z) (s1 s' : state) (r : Z) :
  (memcpy q p len ;;; mm_free p ;;; ret q) s1 = Ok r s' ->
  exists s2, memcpy q p len s1 = Ok tt s2 /\ mm_free p s2 = Ok tt s' /\ r = q.
Proof.
  unfold bind, ret. intros E.
  destruct (memcpy q p len s1) as [[] s2|e]; [|discriminate].
  destruct (mm_free p s2) as [[] s3|e] eqn:Ef; [|discriminate].
  inversion E; subst. exists s2. auto.
Qed.


Lemma Ok_inj {A} (a b : A) (s t : state) : Ok a s = Ok b t -> a = b /\ s = t.
Proof. intros E. inversion E. auto. Qed.

(* decides the test of a conditional statement on closed terms *)
Ltac eval_test H :=
  cbv zeta in H;
  match type of H with
  | if ?c then _ else _ =>
      let b := eval vm_compute in c in
      let Ec := fresh "Ec" in
      assert (Ec : c = b) by (vm_compute; reflexivity);
      rewrite Ec in H; clear Ec; cbv iota in H
  end.


(** C7.  [mm_realloc] does not grow a block, in place or by moving it, for
    every request above the block's size: it rounds the request by
    wrap-around.  In [s_a] the block at 4176 has 24 bytes and the free
    block of 4072 bytes after it; a request of 4294967295 bytes is greater
    than 24 and rounds to a block size of 8, so [mm_realloc] takes the
    shrinking path: it returns 4176 with the header set to 8 bytes,
    overwrites the first payload word with the footer, links a block of 16
    bytes at 4184 and leaves the free neighbour at 4200 in its bucket.
    Nor does the moving path test the result of [mm_malloc]: in [s_one_a],
    where the region cannot grow, a request of 5000 bytes for the block at
    4176 makes [mm_malloc] return [NULL], and the copy faults at address
    0. *)
Theorem C7_wrapped_resize_shrinks :
  reachable_any s_a /\ is_live s_a 4176 = true /\
  size_of_word (mem s_a 4172) = 24 /\ 24 < 4294967295 /\
  alloc_of_word (mem s_a 4196) = 0 /\ size_of_word (mem s_a 4196) = 4072 /\
  round_size 4294967295 = 8 /\
  mm_realloc 4176 4294967295 s_a = Ok 4176 s_grow_wrap /\
  heap_blocks s_grow_wrap =
    [(4176, 8, true); (4184, 16, false); (4200, 4072, false)] /\
  mem s_grow_wrap 4176 = 9 /\ mem s_a 4176 <> 9 /\
  buckets s_a 8 = [4200] /\ buckets s_grow_wrap 8 = [4200] /\
  buckets s_grow_wrap 0 = [4184] /\
  is_live s_one_a 4176 = true /\ 24 < 5000 /\
  mm_malloc 5000 s_one_a = Ok NULL s_one_a /\
  mm_realloc 4176 5000 s_one_a = Err (BadWrite NULL).
Proof.
  split.
  { apply (reach_malloc _ s_init 16 4176 s_a); [|lia|apply run_a].
    apply reach_s_init. }
  do 9 (split; [vm_compute; reflexivity|]).
  split; [vm_compute; discriminate|].
  do 4 (split; [vm_compute; reflexivity|]).
  split; [lia|].
  split; vm_compute; reflexivity.
Qed.
(** * Further properties of the allocator *)

(** ** Boundary tags *)

(** X1.  A boundary tag packed from a size that is a multiple of 8 and an
    allocated bit, stored with [PUT], reads back with [GET_SIZE] and
    [GET_ALLOC] as the same size and the same bit. *)
Theorem X1_tag_roundtrip s p size alloc :
  valid s p = true -> 0 <= size < 2 ^ 32 -> size mod 8 = 0 ->
  alloc = 0 \/ alloc = 1 ->
  exists s', PUT p (PACK size alloc) s = Ok tt s' /\
             GET_SIZE p s' = Ok size s' /\ GET_ALLOC p s' = Ok alloc s'.
Proof.
  intros V Hs H8 Ha.
  assert (Et : exists al, alloc = b2z al /\ PACK size alloc = tag size al).
  { destruct Ha as [->| ->]; [exists false | exists true];
      (split; [reflexivity|]);
      [exact (PACK_spec size false ltac:(lia) H8)
      |exact (PACK_spec size true ltac:(lia) H8)]. }
  destruct Et as (al & Eal & Et).
  exists (set_mem s (upd (mem s) p (wrap (PACK size alloc)))).
  split; [unfold PUT; now rewrite V|].
  assert (V' : valid (set_mem s (upd (mem s) p (wrap (PACK size alloc)))) p
               = true) by exact V.
  assert (Ew : wrap (tag size al) = tag size al).
  { apply wrap_small. unfold tag, b2z. destruct al; lia. }
  rewrite GET_SIZE_run by exact V'. unfold GET_ALLOC, bind.
  rewrite GET_run by exact V'. unfold ret. cbn [mem set_mem].
  unfold upd. rewrite Z.eqb_refl, Et, Ew.
  rewrite size_of_tag, alloc_of_tag by lia. now rewrite Eal.
Qed.

Lemma X1_tag_roundtrip_witness :
  exists s', PUT 4172 (PACK 24 1) s_init = Ok tt s' /\
             GET_SIZE 4172 s' = Ok 24 s' /\ GET_ALLOC 4172 s' = Ok 1 s'.
Proof.
  apply (X1_tag_roundtrip s_init 4172 24 1).
  - vm_compute. reflexivity.
  - lia.
  - reflexivity.
  - now right.
Defined.

(** ** Rounding of a request *)

(** X2.  For a request of [n] bytes with [0 < n <= 2^32 - 16], the block
    size computed by [mm_malloc] is 16 when [n <= 8] and otherwise the least
    multiple of 8 that leaves room for [n] bytes and the 8 bytes of header
    and footer. *)
Theorem X2_round_size_least n :
  0 < n <= max_request ->
  round_size n mod 8 = 0 /\ 16 <= round_size n /\ n + 8 <= round_size n /\
  (n <= 8 -> round_size n = 16) /\
  (8 < n -> round_size n < n + 16).
Proof.
  unfold max_request. intros H. unfold round_size, DSIZE.
  destruct (Z.gtb_spec n 8) as [G|G].
  - rewrite (wrap_small (n + 8)) by lia.
    rewrite (wrap_small (n + 8 + (8 - 1))) by lia.
    rewrite wrap_small by lia. lia.
  - lia.
Qed.

Lemma X2_round_size_least_witness :
  round_size 100 mod 8 = 0 /\ 16 <= round_size 100 /\
  100 + 8 <= round_size 100 /\
  (100 <= 8 -> round_size 100 = 16) /\
  (8 < 100 -> round_size 100 < 100 + 16).
Proof. apply (X2_round_size_least 100). unfold max_request. lia. Defined.

(** X3.  For a request above [2^32 - 16] the rounding wraps around 32 bits:
    the block size computed by [mm_malloc] is 0 or 8, less than the request
    and less than the smallest block. *)
Theorem X3_round_size_wraps n :
  max_request < n < 2 ^ 32 -> round_size n = 0 \/ round_size n = 8.
Proof.
  unfold max_request. intros H. unfold round_size, DSIZE.
  destruct (Z.gtb_spec n 8) as [G|G]; [|lia].
  unfold wrap. lia.
Qed.

Lemma X3_round_size_wraps_witness :
  round_size 4294967295 = 0 \/ round_size 4294967295 = 8.
Proof. apply (X3_round_size_wraps 4294967295). unfold max_request. lia. Defined.

(** ** Size classes *)

Lemma le_eff_half sz r T :
  0 <= sz -> 0 <= r ->
  (le_eff sz r (2 * T) <-> le_eff (sz / 2) (r + sz mod 2) T).
Proof. unfold le_eff. intros H0 Hr. lia. Qed.

Lemma class_loop_bounds fuel : forall sz c r,
  0 <= sz -> 0 <= r -> 0 <= c -> c + Z.of_nat fuel = 16 ->
  let '(sz', c', r') := class_loop fuel sz c r in
  let k := if (c' <? ClassSize - 1) && (r' >? 0) && (sz' =? BLOCKSIZE)
           then c' + 1 else c' in
  c <= k <= 16 /\
  (k < 16 -> le_eff sz r (16 * 2 ^ (k - c))) /\
  (c < k -> ~ le_eff sz r (16 * 2 ^ (k - c - 1))).
Proof.
  induction fuel as [|f IH]; intros sz c r H0 Hr Hc Hf.
  - cbn [class_loop]. assert (c = 16) by lia. subst c.
    change (16 <? ClassSize - 1) with false. cbn [andb]. lia.
  - cbn [class_loop]. unfold BLOCKSIZE, WSIZE, ClassSize.
    change (4 * 4) with 16. change (17 - 1) with 16.
    destruct (Z.gtb_spec sz 16) as [G|G];
      destruct (Z.ltb_spec c 16) as [Lc|Lc]; try lia; cbn [andb].
    + specialize (IH (sz / 2) (c + 1) (r + sz mod 2)
                     ltac:(lia) ltac:(lia) ltac:(lia) ltac:(lia)).
      destruct (class_loop f (sz / 2) (c + 1) (r + sz mod 2))
        as [[sz' c'] r'].
      unfold BLOCKSIZE, WSIZE, ClassSize in IH.
      change (4 * 4) with 16 in IH. change (17 - 1) with 16 in IH.
      set (k := if (c' <? 16) && (r' >? 0) && (sz' =? 16)
                then c' + 1 else c') in *.
      destruct IH as (I1 & I2 & I3). split; [lia|]. split.
      * intros Hk. specialize (I2 Hk).
        replace (k - c) with (Z.succ (k - (c + 1))) by lia.
        rewrite Z.pow_succ_r by lia.
        replace (16 * (2 * 2 ^ (k - (c + 1))))
          with (2 * (16 * 2 ^ (k - (c + 1)))) by lia.
        apply le_eff_half; assumption.
      * intros _. destruct (Z.eq_dec k (c + 1)) as [E|E].
        -- rewrite E. replace (c + 1 - c - 1) with 0 by lia.
           unfold le_eff. change (16 * 2 ^ 0) with 16. lia.
        -- specialize (I3 ltac:(lia)). intros Hle. apply I3.
           replace (k - c - 1) with (Z.succ (k - (c + 1) - 1)) in Hle by lia.
           rewrite Z.pow_succ_r in Hle by lia.
           replace (16 * (2 * 2 ^ (k - (c + 1) - 1)))
             with (2 * (16 * 2 ^ (k - (c + 1) - 1))) in Hle by lia.
           apply le_eff_half in Hle; assumption.
    + destruct (Z.gtb_spec r 0) as [Gr|Gr];
        destruct (Z.eqb_spec sz 16) as [Es|Es];
        destruct (Z.ltb_spec c 16); try lia; cbn [andb]; cbv zeta iota.
      * split; [lia|]. split.
        -- intros _. replace (c + 1 - c) with 1 by lia. unfold le_eff.
           change (16 * 2 ^ 1) with 32. lia.
        -- intros _. replace (c + 1 - c - 1) with 0 by lia. unfold le_eff.
           change (16 * 2 ^ 0) with 16. lia.
      * split; [lia|]. split; [|lia].
        intros _. replace (c - c) with 0 by lia. unfold le_eff.
        change (16 * 2 ^ 0) with 16. lia.
      * split; [lia|]. split; [|lia].
        intros _. replace (c - c) with 0 by lia. unfold le_eff.
        change (16 * 2 ^ 0) with 16. lia.
      * split; [lia|]. split; [|lia].
        intros _. replace (c - c) with 0 by lia. unfold le_eff.
        change (16 * 2 ^ 0) with 16. lia.
Qed.

Lemma size_class_of_bounds size :
  0 <= size ->
  let k := size_class_of size in
  0 <= k <= 16 /\
  (k < 16 -> size <= 16 * 2 ^ k) /\
  (0 < k -> 16 * 2 ^ (k - 1) < size).
Proof.
  intros H0. cbv zeta. unfold size_class_of.
  pose proof (class_loop_bounds 16 size 0 0 H0 ltac:(lia) ltac:(lia)
                ltac:(lia)) as H.
  destruct (class_loop 16 size 0 0) as [[sz' c'] r'].
  set (k := if (c' <? ClassSize - 1) && (r' >? 0) && (sz' =? BLOCKSIZE)
            then c' + 1 else c') in *.
  destruct H as (H1 & H2 & H3). split; [lia|]. split.
  - intros Hk. specialize (H2 Hk). rewrite Z.sub_0_r in H2.
    unfold le_eff in H2. lia.
  - intros Hk. specialize (H3 Hk). rewrite Z.sub_0_r in H3.
    unfold le_eff in H3. lia.
Qed.

Lemma size_class_of_monotone a b :
  0 <= a <= b -> size_class_of a <= size_class_of b.
Proof.
  intros H.
  pose proof (size_class_of_bounds a ltac:(lia)) as (A1 & A2 & A3).
  pose proof (size_class_of_bounds b ltac:(lia)) as (B1 & B2 & B3).
  destruct (Z_le_gt_dec (size_class_of a) (size_class_of b)) as [L|G];
    [exact L|exfalso].
  specialize (B2 ltac:(lia)). specialize (A3 ltac:(lia)).
  assert (2 ^ size_class_of b <= 2 ^ (size_class_of a - 1))
    by (apply Z.pow_le_mono_r; lia).
  lia.
Qed.

(** X4.  The size-class function shared by [find_fit] and
    [free_list_insert] files sizes in buckets that double: bucket 0 takes
    the sizes up to 16, bucket [k] with [0 < k < 16] the sizes in
    [(16 * 2^(k-1), 16 * 2^k]], and bucket 16 every size above
    [16 * 2^15]. *)
Theorem X4_size_class_doubles size :
  0 <= size ->
  0 <= size_class_of size <= 16 /\
  (size_class_of size < 16 -> size <= 16 * 2 ^ size_class_of size) /\
  (0 < size_class_of size -> 16 * 2 ^ (size_class_of size - 1) < size).
Proof. intros H. exact (size_class_of_bounds size H). Qed.

Lemma X4_size_class_doubles_witness :
  0 <= size_class_of 4096 <= 16 /\
  (size_class_of 4096 < 16 -> 4096 <= 16 * 2 ^ size_class_of 4096) /\
  (0 < size_class_of 4096 -> 16 * 2 ^ (size_class_of 4096 - 1) < 4096).
Proof. apply (X4_size_class_doubles 4096). lia. Defined.

(** X5.  The size-class function is monotone: a larger size is never filed
    in a lower bucket. *)
Theorem X5_size_class_monotone a b :
  0 <= a <= b -> size_class_of a <= size_class_of b.
Proof. exact (size_class_of_monotone a b). Qed.

Lemma X5_size_class_monotone_witness : size_class_of 24 <= size_class_of 4096.
Proof. apply (X5_size_class_monotone 24 4096). lia. Defined.

(** ** The search *)

Lemma free_block_fits s bl idx a sz asize :
  rep s bl idx -> In (a, sz, false) (blist (FreeBlocks s + 80) bl) ->
  fits s asize a = (asize <=? sz).
Proof.
  intros R Hb.
  pose proof (block_facts _ _ _ _ _ (proj1 R) Hb) as (G & B & Th & _).
  unfold fits. rewrite Th, size_of_tag by lia. reflexivity.
Qed.

Lemma find_fit_result s bl idx asize :
  rep s bl idx -> complete (FreeBlocks s + 80) bl idx -> 0 <= asize ->
  exists p, find_fit asize s = Ok p s /\
    (p = NULL ->
     forall a sz, In (a, sz, false) (blist (FreeBlocks s + 80) bl) ->
                  sz < asize) /\
    (p <> NULL ->
     exists sz, In (p, sz, false) (blist (FreeBlocks s + 80) bl) /\
                asize <= sz).
Proof.
  intros R C Ha. eexists. split; [apply (find_fit_spec s bl idx asize R)|].
  pose proof (size_class_of_range asize) as Hc.
  set (l := candidates idx (size_class_of asize)
              (Z.to_nat (17 - size_class_of asize))).
  destruct (first_fit_cases s asize l) as [[E Hall]|[Hin Hfit]].
  - split.
    + intros _ a sz Hb.
      destruct (Z_lt_ge_dec sz asize) as [L|G]; [exact L|exfalso].
      pose proof (blist_In_sizes _ _ _ _ _ (lay_sizes _ _ (proj1 R)) Hb).
      assert (Hl : In a l).
      { apply In_candidates. exists (size_class_of sz).
        pose proof (size_class_of_range sz).
        pose proof (size_class_of_monotone asize sz ltac:(lia)).
        split; [lia|]. apply C. exact Hb. }
      specialize (Hall a Hl).
      rewrite (free_block_fits s bl idx a sz asize R Hb) in Hall. lia.
    + intros Hp. rewrite E in Hp. now destruct Hp.
  - apply In_candidates in Hin. destruct Hin as (k & Hk & Hin).
    destruct (node_facts s bl idx k _ R ltac:(lia) Hin)
      as (sz & Hb & _ & Hlo & _).
    rewrite (free_block_fits s bl idx _ sz asize R Hb) in Hfit.
    pose proof (lay_pos _ _ (proj1 R)). split.
    + intros Hp. unfold NULL in Hp. fold l in Hp. lia.
    + intros _. exists sz. split; [exact Hb | lia].
Qed.

(** X6.  In a state that satisfies the heap invariant, [find_fit asize]
    changes nothing and returns either a free block of the heap whose size
    is at least [asize], or [NULL], and [NULL] only when every free block
    of the heap is smaller than [asize]: the buckets below the one of
    [asize] hold no block that fits. *)
Theorem X6_find_fit_sound_complete s asize :
  heap_ok s -> 0 <= asize ->
  exists p, find_fit asize s = Ok p s /\
    (p = NULL ->
     forall a sz, In (a, sz, false) (heap_blocks s) -> sz < asize) /\
    (p <> NULL ->
     exists sz, In (p, sz, false) (heap_blocks s) /\ asize <= sz).
Proof.
  intros (bl & idx & R & C) Ha. rewrite (heap_blocks_rep s bl idx R).
  exact (find_fit_result s bl idx asize R C Ha).
Qed.

Lemma X6_find_fit_sound_complete_witness :
  exists p, find_fit 5000 s_bd = Ok p s_bd /\
    (p = NULL ->
     forall a sz, In (a, sz, false) (heap_blocks s_bd) -> sz < 5000) /\
    (p <> NULL ->
     exists sz, In (p, sz, false) (heap_blocks s_bd) /\ 5000 <= sz).
Proof.
  apply (X6_find_fit_sound_complete s_bd 5000); [|lia].
  apply (reachable_heap_ok s_bd). apply reach_s_bd. unfold max_request. lia.
Defined.

(** ** Initialisation *)

Lemma mm_init_fail s :
  fresh s -> mem_max_addr s < mem_start_brk s + 4176 ->
  wp mm_init (fun r s' =>
    r = -1 /\ mem_start_brk s' = mem_start_brk s /\
    mem_max_addr s' = mem_max_addr s /\ console s' = console s /\
    mem_brk s' = if mem_max_addr s <? mem_start_brk s + 80
                 then mem_start_brk s else mem_start_brk s + 80) s.
Proof.
  intros (F1 & F2 & F3 & F4) Hmax. unfold mm_init.
  unfold WSIZE, ClassSize, DSIZE. change (4 * (17 + 2 + 1)) with 80.
  change (17 * 4) with 68. change (1 * 4) with 4. change (2 * 4) with 8.
  apply wp_bind, wp_mem_sbrk. rewrite (to_int_small 80) by lia.
  change (80 <? 0) with false. cbn [orb]. rewrite F1.
  destruct (Z.ltb_spec (mem_max_addr s) (mem_start_brk s + 80)) as [Hs|Hs].
  { apply wp_bind, wp_set_HeapBlocks.
    change (to_int (wrap (-1)) =? -1) with true. cbv iota.
    apply wp_ret. cbn. rewrite F1. repeat split; reflexivity. }
  apply wp_bind, wp_set_HeapBlocks.
  replace (to_int (mem_start_brk s) =? -1) with false
    by (symmetry; apply Z.eqb_neq, to_int_aligned; lia).
  set (base := mem_start_brk s) in *.
  apply wp_bind, wp_memset0; [lia| |].
  { unfold range_ok, WSIZE. cbn [mem_start_brk mem_brk set_brk].
    fold base.
    apply andb_true_iff. split; [apply andb_true_iff; split|].
    - apply Z.leb_le. lia.
    - apply Z.leb_le. lia.
    - apply Z.eqb_eq. lia. }
  apply wp_bind, wp_set_FreeBlocks.
  rewrite !wrap_small by lia.
  replace (base + 68 + 4) with (base + 72) by lia.
  replace (base + 68 + 8) with (base + 76) by lia.
  apply wp_bind, wp_set_HeapBlocks.
  cbn [mem mem_start_brk mem_brk mem_max_addr HeapBlocks FreeBlocks console
       set_mem set_brk].
  fold base.
  match goal with |- wp _ _ ?st => remember st as s0 eqn:Es0 end.
  assert (V0 : forall p, valid s0 p = true <->
                         base <= p /\ p + 4 <= base + 80 /\ p mod 4 = 0).
  { intros p. rewrite valid_iff. subst s0. cbn. tauto. }
  apply wp_bind, wp_PUT; [apply V0; lia|].
  apply wp_bind, wp_PUT; [rewrite valid_set_mem; apply V0; lia|].
  apply wp_bind, wp_PUT; [rewrite !valid_set_mem; apply V0; lia|].
  rewrite !set_mem_twice. tags.
  change (PACK 8 (b2z true)) with 9. change (wrap 9) with 9.
  change (wrap 1) with 1.
  apply wp_bind, wp_set_HeapBlocks.
  subst s0. cbn [mem mem_start_brk mem_brk mem_max_addr HeapBlocks FreeBlocks
                 console set_mem set_brk].
  fold base.
  match goal with |- wp _ _ ?st => remember st as s1 eqn:Es1 end.
  assert (R1 : rep s1 [] (fun _ => [])).
  { subst s1. split; [|split].
    - constructor; cbn [mem mem_start_brk mem_brk mem_max_addr HeapBlocks
                        FreeBlocks console total]; try lia; try reflexivity.
      + upd_tac. reflexivity.
      + upd_tac. reflexivity.
      + intros z al [].
      + intros a z al [].
      + replace (base + 80 - 4) with (base + 76) by lia. upd_tac. reflexivity.
    - intros k Hk. cbn [mem FreeBlocks hd]. split; [|exact I].
      rewrite !upd_other by lia.
      replace ((base <=? base + 4 * k) && (base + 4 * k <? base + 68))
        with true; [reflexivity|].
      symmetry. apply andb_true_iff. split; [apply Z.leb_le | apply Z.ltb_lt];
        lia.
    - split; [intros k a Hk []|]. intros k Hk. constructor. }
  assert (C1 : complete (FreeBlocks s1 + 80) [] (fun _ => [])).
  { intros a z []. }
  unfold CHUNKSIZE. change (Z.shiftl 1 12) with 4096.
  apply wp_bind.
  eapply wp_mono; [eapply (extend_heap_spec s1 [] _ 4096); eauto; lia|].
  assert (E1 : FreeBlocks s1 = base /\ mem_brk s1 = base + 80 /\
               mem_max_addr s1 = mem_max_addr s /\
               mem_start_brk s1 = base /\ console s1 = console s).
  { subst s1. cbn. tauto. }
  destruct E1 as (E1 & E2 & E3 & E4 & E5).
  intros b s2 [(-> & -> & _)|(_ & HE & _)]; cbv beta; [|lia].
  change (NULL =? NULL) with true. cbv iota. apply wp_ret.
  rewrite E2, E3, E4, E5. repeat split; reflexivity.
Qed.

(** X7.  [mm_init] on an empty, 8-aligned region with room for 4176 bytes
    returns 0 and leaves the break 4176 bytes above the start, the heap
    made of one free block of 4096 bytes at [start + 80], linked alone in
    bucket 8, every other bucket empty. *)
Theorem X7_init_seeds_one_chunk s :
  fresh s -> mem_start_brk s + 4176 <= mem_max_addr s ->
  exists s', mm_init s = Ok 0 s' /\ heap_ok s' /\
    mem_brk s' = mem_start_brk s + 4176 /\
    heap_blocks s' = [(mem_start_brk s + 80, 4096, false)] /\
    forall k, 0 <= k < 17 ->
      buckets s' k = if k =? 8 then [mem_start_brk s + 80] else [].
Proof.
  intros F Hm.
  destruct (mm_init_spec s F Hm)
    as (r & s' & E & -> & EF & _ & _ & _ & R & C).
  exists s'. split; [exact E|]. split; [eexists _, _; split; eassumption|].
  split; [|split].
  - rewrite (lay_brk _ _ (proj1 R)), EF. cbn [total]. lia.
  - rewrite (heap_blocks_rep _ _ _ R), EF. reflexivity.
  - intros k Hk. rewrite (buckets_rep _ _ _ _ R Hk).
    unfold idx_insert, idx_set. change (size_class_of 4096) with 8.
    reflexivity.
Qed.

Lemma X7_init_seeds_one_chunk_witness :
  exists s', mm_init s_fresh = Ok 0 s' /\ heap_ok s' /\
    mem_brk s' = 4096 + 4176 /\
    heap_blocks s' = [(4096 + 80, 4096, false)] /\
    forall k, 0 <= k < 17 -> buckets s' k = if k =? 8 then [4096 + 80] else [].
Proof.
  apply (X7_init_seeds_one_chunk s_fresh); [apply s_fresh_fresh | cbn; lia].
Defined.

(** X8.  [mm_init] on an empty region without room for 4176 bytes returns
    -1: with less than 80 bytes of room the break does not move, otherwise
    it stays 80 bytes above the start, after the bucket array and the
    sentinels. *)
Theorem X8_init_fails_without_room s :
  fresh s -> mem_max_addr s < mem_start_brk s + 4176 ->
  exists s', mm_init s = Ok (-1) s' /\
    mem_start_brk s' = mem_start_brk s /\
    mem_max_addr s' = mem_max_addr s /\
    mem_brk s' = if mem_max_addr s <? mem_start_brk s + 80
                 then mem_start_brk s else mem_start_brk s + 80.
Proof.
  intros F Hm.
  destruct (mm_init_fail s F Hm) as (r & s' & E & -> & E1 & E2 & _ & E3).
  exists s'. auto.
Qed.

Lemma X8_init_fails_without_room_witness :
  (exists s', mm_init s_tiny = Ok (-1) s' /\ mem_start_brk s' = 4096 /\
     mem_max_addr s' = 4096 + 4000 /\ mem_brk s' = 4096 + 80) /\
  (exists s', mm_init s_none = Ok (-1) s' /\ mem_start_brk s' = 4096 /\
     mem_max_addr s' = 4096 + 40 /\ mem_brk s' = 4096).
Proof.
  split.
  - apply (X8_init_fails_without_room s_tiny).
    + repeat split; cbn; lia.
    + cbn. lia.
  - apply (X8_init_fails_without_room s_none).
    + repeat split; cbn; lia.
    + cbn. lia.
Defined.

(** ** Allocation *)

(* the three ways [mm_malloc] ends: a block of the index, a refusal of the
   growth primitive, a block of the extension *)
Lemma mm_malloc_cases s bl idx n :
  rep s bl idx -> complete (FreeBlocks s + 80) bl idx ->
  0 < n <= 2 ^ 32 - 16 ->
  let asize := round_size n in
  let G := MAX asize CHUNKSIZE in
  let nofit := forall a sz,
    In (a, sz, false) (blist (FreeBlocks s + 80) bl) -> sz < asize in
  wp (mm_malloc n) (fun p s' =>
    (exists csz, In (p, csz, false) (blist (FreeBlocks s + 80) bl) /\
                 asize <= csz /\ same_region s s') \/
    (nofit /\ p = NULL /\ s' = s /\
     (2 ^ 31 <= G \/ mem_max_addr s < mem_brk s + G)) \/
    (nofit /\ p <> NULL /\ G < 2 ^ 31 /\ mem_brk s + G <= mem_max_addr s /\
     grown s s' G)) s.
Proof.
  intros R Hc Hn asize G nofit. pose proof R as (L & I & [N1 N2]).
  pose proof (round_size_spec n Hn) as (A1 & A2 & A3). fold asize in A1, A2, A3.
  unfold mm_malloc.
  replace (n <=? 0) with false by (symmetry; apply Z.leb_gt; lia).
  fold asize.
  apply wp_bind. unfold wp at 1. rewrite (find_fit_spec s bl idx asize R).
  eexists _, _. split; [reflexivity|].
  destruct (find_fit_result s bl idx asize R Hc ltac:(lia))
    as (p0 & E0 & Hnull & Hfit).
  rewrite (find_fit_spec s bl idx asize R) in E0.
  apply Ok_inj in E0. destruct E0 as [E0 _]. rewrite E0. clear E0.
  destruct (Z.eq_dec p0 NULL) as [->|Hp0].
  - (* no fit: extend the heap *)
    specialize (Hnull eq_refl). cbn [NULL Z.eqb negb].
    assert (Hsz : 16 <= G < 2 ^ 32 /\ G mod 8 = 0 /\ asize <= G).
    { unfold G, MAX, CHUNKSIZE. change (Z.shiftl 1 12) with 4096.
      destruct (Z.gtb_spec asize 4096); lia. }
    destruct Hsz as (Z1 & Z2 & Z3). unfold WSIZE. fold G.
    apply wp_bind.
    eapply wp_mono; [eapply (extend_heap_spec s bl idx G); eauto|].
    intros b s1 [(-> & -> & HF)|(Hlt & Hmax & HE)]; cbv beta.
    + cbn [NULL Z.eqb]. apply wp_ret. right. left. auto.
    + pose proof (coalesce_prev_shape bl (lay_sizes _ _ L)) as HPs.
      destruct (coalesce_prev bl) as [l1' psz]. cbv zeta in HE.
      destruct HE as (B1 & B2 & R1 & C1 & G1 & F1).
      pose proof G1 as (Q1 & Q2 & Q3 & Q4 & Q5 & Q6).
      assert (Hb0 : b <> 0).
      { pose proof (lay_pos _ _ L).
        assert (0 <= total l1').
        { apply total_nonneg. pose proof (lay_sizes _ _ (proj1 R1)) as S.
          apply sizes_ok_app in S. tauto. }
        lia. }
      replace (b =? NULL) with false by (symmetry; apply Z.eqb_neq; auto).
      apply wp_bind.
      match type of R1 with
      | rep _ _ ?i =>
          pose proof (place_complete s1 i l1' (psz + G) [] asize) as HP
      end.
      cbv zeta in HP. rewrite Q5, <- B2 in HP.
      assert (Hps : 0 <= psz) by (destruct HPs as [[-> _]|[? _]]; lia).
      eapply wp_mono; [apply HP|]; clear HP.
      * exact R1.
      * exact C1.
      * lia.
      * exact A2.
      * intros _ s2 (SR2 & _). cbv beta.
        apply wp_ret. right. right. split; [exact Hnull|].
        split; [exact Hb0|]. split; [exact Hlt|]. split; [exact Hmax|].
        destruct SR2 as (T1 & T2 & T3 & T4 & T5 & T6).
        unfold grown. rewrite T1, T2, T3, T4, T5, T6. exact G1.
  - (* a fit in the index *)
    destruct (Hfit Hp0) as (csz & Hb & Hle).
    replace (p0 =? NULL) with false by (symmetry; apply Z.eqb_neq; exact Hp0).
    cbn [negb]. apply wp_bind.
    destruct (blist_In_split _ _ _ _ _ Hb) as (l1 & l2 & El & Ebp).
    pose proof (place_complete s idx l1 csz l2 asize) as HP.
    cbv zeta in HP. rewrite <- Ebp in HP.
    change ((csz, false) :: l2) with ([(csz, false)] ++ l2) in El.
    rewrite <- El in HP.
    eapply wp_mono; [apply HP; auto; lia|]; clear HP.
    intros _ s2 (SR2 & _). cbv beta.
    apply wp_ret. left. exists csz. auto.
Qed.

(** X9.  In a state that satisfies the heap invariant, [mm_malloc n] with
    [0 < n <= 2^32 - 16] always returns.  When a free block of the heap
    covers the rounded size it returns such a block and leaves the break
    where it is.  Only when every free block is smaller does it ask for
    more: it grows the region by the larger of the rounded size and 4096
    bytes, or, when the limit of the region does not allow that, returns
    [NULL] and leaves the whole state as it was. *)
Theorem X9_malloc_growth_policy s n :
  heap_ok s -> 0 < n <= max_request ->
  let asize := round_size n in
  let G := MAX asize CHUNKSIZE in
  exists p s', mm_malloc n s = Ok p s' /\
    ((exists csz, In (p, csz, false) (heap_blocks s) /\ asize <= csz /\
                  mem_brk s' = mem_brk s) \/
     ((forall a sz, In (a, sz, false) (heap_blocks s) -> sz < asize) /\
      if (2 ^ 31 <=? G) || (mem_max_addr s <? mem_brk s + G)
      then p = NULL /\ s' = s
      else p <> NULL /\ mem_brk s' = mem_brk s + G)).
Proof.
  intros (bl & idx & R & C) Hn asize G. unfold max_request in Hn.
  rewrite (heap_blocks_rep s bl idx R).
  destruct (mm_malloc_cases s bl idx n R C Hn)
    as (p & s' & E & [(csz & Hb & Hle & SR)|[(Hno & -> & -> & HF)|
                      (Hno & Hp & H1 & H2 & Gr)]]).
  - exists p, s'. split; [exact E|]. left. exists csz.
    destruct SR as (_ & Q2 & _). auto.
  - exists NULL, s. split; [exact E|]. right. split; [exact Hno|].
    fold asize G in HF.
    replace ((2 ^ 31 <=? G) || (mem_max_addr s <? mem_brk s + G)) with true;
      [auto|].
    symmetry. apply orb_true_iff.
    destruct HF; [left; apply Z.leb_le | right; apply Z.ltb_lt]; lia.
  - exists p, s'. split; [exact E|]. right. split; [exact Hno|].
    fold asize G in H1, H2, Gr.
    replace ((2 ^ 31 <=? G) || (mem_max_addr s <? mem_brk s + G)) with false.
    + destruct Gr as (_ & Q2 & _). auto.
    + symmetry. apply orb_false_iff.
      split; [apply Z.leb_gt | apply Z.ltb_ge]; lia.
Qed.

Lemma heap_ok_s_one_init : heap_ok s_one_init.
Proof.
  apply (heap_ok_init s_one_chunk 0 s_one_init).
  - repeat split; cbn; lia.
  - cbn. lia.
  - vm_compute. reflexivity.
Qed.

(* a request of 5000 bytes finds no block in the first chunk: with room the
   region grows by 5008 bytes, without room the call returns [NULL] *)
Lemma X9_malloc_growth_policy_witness :
  (exists p s', mm_malloc 5000 s_init = Ok p s' /\
     p <> NULL /\ mem_brk s' = mem_brk s_init + 5008) /\
  (exists p s', mm_malloc 5000 s_one_init = Ok p s' /\
     p = NULL /\ s' = s_one_init) /\
  (exists p s', mm_malloc 100 s_init = Ok p s' /\ mem_brk s' = mem_brk s_init).
Proof.
  split; [|split].
  - destruct (X9_malloc_growth_policy s_init 5000
                (reachable_heap_ok _ (reach_s_init _))
                ltac:(unfold max_request; lia))
      as (p & s' & E & [(csz & Hb & Hle & _)|(_ & H)]).
    + exfalso. vm_compute in Hb. destruct Hb as [Hb|[]].
      inversion Hb. subst. vm_compute in Hle. now apply Hle.
    + exists p, s'. split; [exact E|]. eval_test H. exact H.
  - destruct (X9_malloc_growth_policy s_one_init 5000 heap_ok_s_one_init
                ltac:(unfold max_request; lia))
      as (p & s' & E & [(csz & Hb & Hle & _)|(_ & H)]).
    + exfalso. vm_compute in Hb. destruct Hb as [Hb|[]].
      inversion Hb. subst. vm_compute in Hle. now apply Hle.
    + exists p, s'. split; [exact E|]. eval_test H. exact H.
  - destruct (X9_malloc_growth_policy s_init 100
                (reachable_heap_ok _ (reach_s_init _))
                ltac:(unfold max_request; lia))
      as (p & s' & E & [(csz & Hb & Hle & Hbrk)|(Hall & _)]).
    + exists p, s'. split; [exact E | exact Hbrk].
    + exfalso. assert (Hi : In (4176, 4096, false) (heap_blocks s_init))
        by (vm_compute; auto).
      specialize (Hall _ _ Hi). vm_compute in Hall. discriminate Hall.
Defined.

(** X10.  A successful [mm_malloc n] with [0 < n <= 2^32 - 16], in a state
    that satisfies the heap invariant, returns the payload address of a
    block that was not allocated before, is allocated now and has room for
    [n] bytes inside the region.  Every block allocated before is still
    allocated, with its size and its payload unchanged, and does not
    overlap the new block; no other block became allocated. *)
Theorem X10_malloc_fresh_block s n p s' :
  heap_ok s -> 0 < n <= max_request ->
  mm_malloc n s = Ok p s' -> p <> NULL ->
  heap_ok s' /\ is_live s p = false /\
  (exists z, In (p, z, true) (heap_blocks s') /\ n + 8 <= z /\
     mem_start_brk s' + 80 <= p /\ p + n <= mem_brk s' /\
     forall a za, In (a, za, true) (heap_blocks s) ->
       In (a, za, true) (heap_blocks s') /\
       (a + za <= p \/ p + z <= a) /\
       forall x, a <= x < a + za - 8 -> mem s' x = mem s x) /\
  (forall a za, In (a, za, true) (heap_blocks s') ->
     a = p \/ In (a, za, true) (heap_blocks s)).
Proof.
  intros H Hn E Hp. split; [exact (heap_ok_malloc s n p s' H Hn E)|].
  destruct H as (bl & idx & R & C). unfold max_request in Hn.
  pose proof (round_size_spec n Hn) as (_ & _ & A3).
  pose proof (wp_result _ _ _ _ _ (mm_malloc_spec s bl idx n R C Hn) E)
    as [[Hx _]|(_ & RL & bl' & idx' & R' & C' & (z & Hz & Hle) & K & O)];
    [contradiction|].
  destruct RL as (_ & _ & _ & _ & Q5 & _).
  rewrite (heap_blocks_rep s bl idx R), (heap_blocks_rep s' bl' idx' R'), Q5.
  split; [|split].
  - destruct (is_live s p) eqn:El; [|reflexivity]. exfalso.
    apply (is_live_rep s bl idx p R) in El. destruct El as (z' & Hz').
    destruct (K _ _ Hz') as (_ & Hne & _). now apply Hne.
  - exists z. split; [exact Hz|]. split; [lia|].
    rewrite <- Q5 in Hz.
    pose proof (block_facts _ _ _ _ _ (proj1 R') Hz) as (G & B & _).
    split; [lia|]. split; [lia|].
    intros a za Ha. destruct (K _ _ Ha) as (K1 & K2 & K3).
    split; [exact K1|]. split; [|exact K3].
    rewrite Q5 in Hz.
    destruct (blist_In_disjoint _ _ _ _ _ _ _ _
                (lay_sizes _ _ (proj1 R')) K1 Hz) as [(Ea & _)|D];
      [contradiction | exact D].
  - exact O.
Qed.

Lemma X10_malloc_fresh_block_witness :
  is_live s_ab 4224 = false /\
  exists z, In (4224, z, true) (heap_blocks s_abc) /\ 16 + 8 <= z.
Proof.
  destruct (X10_malloc_fresh_block s_ab 16 4224 s_abc) as (_ & L & H & _).
  - apply reachable_heap_ok.
    apply (reach_malloc _ s_a 16 4200 s_ab);
      [|unfold max_request; lia|apply run_ab].
    apply (reach_malloc _ s_init 16 4176 s_a);
      [|unfold max_request; lia|apply run_a].
    apply reach_s_init.
  - unfold max_request. lia.
  - exact run_abc.
  - unfold NULL. lia.
  - split; [exact L|]. destruct H as (z & Hz & Hle & _). exists z.
    split; [exact Hz | exact Hle].
Defined.

(** ** Release *)

Lemma mm_free_effect s idx l1 sz l2 :
  let first := FreeBlocks s + 80 in
  let bp := first + total l1 in
  let bl := l1 ++ [(sz, true)] ++ l2 in
  rep s bl idx -> complete first bl idx ->
  wp (mm_free bp) (fun _ s' =>
    exists bl' idx',
      rep s' bl' idx' /\ complete first bl' idx' /\ same_region s s' /\
      (forall z, ~ In (bp, z, true) (blist first bl')) /\
      (forall a za, In (a, za, true) (blist first bl) -> a <> bp ->
         In (a, za, true) (blist first bl') /\
         forall x, a <= x < a + za - 8 -> mem s' x = mem s x) /\
      (forall a za, In (a, za, true) (blist first bl') ->
         In (a, za, true) (blist first bl))) s.
Proof.
  intros first bp bl R C.
  pose proof (lay_sizes _ _ (proj1 R)) as SZ.
  apply sizes_ok_app in SZ. destruct SZ as [S1 SZ].
  apply sizes_ok_app in SZ. destruct SZ as [SX S2].
  apply sizes_ok_cons in SX. destruct SX as [[Hsz _] _].
  pose proof (coalesce_prev_shape l1 S1) as HPs.
  pose proof (coalesce_next_shape l2 S2) as HNs.
  eapply wp_mono; [exact (mm_free_spec s idx l1 sz l2 R C)|].
  intros u s'. cbv beta.
  destruct (coalesce_prev l1) as [l1' psz].
  destruct (coalesce_next l2) as [l2' nsz].
  fold first bp bl. intros (R' & C' & SR & F).
  assert (Et1 : total l1 = total l1' + psz).
  { destruct HPs as [[-> ->]|[_ ->]]; [lia|].
    rewrite total_app. cbn [total]. lia. }
  assert (Hps : 0 <= psz) by (destruct HPs as [[-> _]|[? _]]; lia).
  assert (Hns : 0 <= nsz) by (destruct HNs as [[-> _]|[? _]]; lia).
  assert (S1' : sizes_ok l1').
  { destruct HPs as [[_ ->]|[_ ->]]; auto.
    apply sizes_ok_app in S1. tauto. }
  assert (S2' : sizes_ok l2').
  { destruct HNs as [[_ ->]|[_ ->]]; auto.
    apply sizes_ok_cons in S2. tauto. }
  assert (Keep : forall a za,
    In (a, za, true) (blist first bl) -> a <> bp ->
    In (a, za, true) (blist first (l1' ++ [(psz + sz + nsz, false)] ++ l2'))
    /\ (a + za <= bp - psz \/ bp + sz + nsz <= a)).
  { intros a za Ha Hna. unfold bl in Ha. apply blist_In_app3 in Ha.
    fold bp in Ha. cbn [total blist] in Ha.
    destruct Ha as [Ha|[[E|[]]|Ha]].
    - assert (Ha' : In (a, za, true) (blist first l1')).
      { destruct HPs as [[_ ->]|[_ ->]]; auto.
        rewrite blist_app in Ha. apply in_app_or in Ha.
        destruct Ha as [Ha|[E|[]]]; auto. inversion E. }
      pose proof (blist_In_range _ _ _ _ _ S1' Ha').
      split; [apply blist_In_app3; now left | left; unfold bp; lia].
    - inversion E. lia.
    - assert (Ha' : In (a, za, true) (blist (bp + sz + nsz) l2')).
      { destruct HNs as [[-> ->]|[_ ->]].
        - replace (bp + sz + 0) with (bp + (sz + 0)) by lia. exact Ha.
        - cbn [blist] in Ha. destruct Ha as [E|Ha]; [inversion E|].
          replace (bp + sz + nsz) with (bp + (sz + 0) + nsz) by lia.
          exact Ha. }
      pose proof (blist_In_range _ _ _ _ _ S2' Ha').
      split; [|right; lia]. apply blist_In_app3. right. right.
      cbn [total].
      replace (first + total l1' + (psz + sz + nsz + 0))
        with (bp + sz + nsz) by (unfold bp; lia). exact Ha'. }
  eexists _, _. split; [exact R'|]. split; [exact C'|]. split; [exact SR|].
  split; [|split].
  - intros z Hin. apply blist_In_app3 in Hin. cbn [total blist] in Hin.
    destruct Hin as [Hin|[[E|[]]|Hin]].
    + pose proof (blist_In_range _ _ _ _ _ S1' Hin).
      pose proof (blist_In_sizes _ _ _ _ _ S1' Hin). unfold bp in *. lia.
    + inversion E.
    + pose proof (blist_In_range _ _ _ _ _ S2' Hin).
      pose proof (blist_In_sizes _ _ _ _ _ S2' Hin). unfold bp in *. lia.
  - intros a za Ha Hna. destruct (Keep a za Ha Hna) as [K1 K2].
    split; [exact K1|]. intros x Hx. apply F; [lia|].
    eapply payload_not_link; [apply R|exact Ha|lia].
  - intros a za Hin. apply blist_In_app3 in Hin. cbn [total blist] in Hin.
    unfold bl. apply blist_In_app3. fold bp. cbn [total blist].
    destruct Hin as [Hin|[[E|[]]|Hin]].
    + left. destruct HPs as [[_ ->]|[_ ->]]; auto.
      rewrite blist_app. apply in_or_app. now left.
    + inversion E.
    + right. right.
      replace (first + total l1' + (psz + sz + nsz + 0))
        with (bp + sz + nsz) in Hin by (unfold bp; lia).
      destruct HNs as [[-> ->]|[_ ->]].
      * replace (bp + (sz + 0)) with (bp + sz + 0) by lia. exact Hin.
      * cbn [blist]. right.
        replace (bp + (sz + 0) + nsz) with (bp + sz + nsz) by lia.
        exact Hin.
Qed.

(** X11.  [mm_free p] on an allocated block, in a state that satisfies the
    heap invariant, returns without fault and keeps the invariant and the
    bounds of the region; [p] is no longer allocated, every other allocated
    block stays allocated with its size and its payload unchanged, and no
    block becomes allocated. *)
Theorem X11_free_keeps_the_others s p :
  heap_ok s -> is_live s p = true ->
  exists s', mm_free p s = Ok tt s' /\ heap_ok s' /\ same_region s s' /\
    is_live s' p = false /\
    (forall a z, In (a, z, true) (heap_blocks s) -> a <> p ->
       In (a, z, true) (heap_blocks s') /\
       forall x, a <= x < a + z - 8 -> mem s' x = mem s x) /\
    (forall a z, In (a, z, true) (heap_blocks s') ->
       In (a, z, true) (heap_blocks s)).
Proof.
  intros (bl & idx & R & C) Hl.
  destruct (live_split s bl idx p R Hl) as (l1 & sz & l2 & -> & ->).
  destruct (mm_free_effect s idx l1 sz l2 R C)
    as ([] & s' & E & bl' & idx' & R' & C' & SR & Hn & K & O).
  pose proof SR as (_ & _ & _ & _ & Q5 & _).
  exists s'. split; [exact E|].
  split; [exists bl', idx'; rewrite Q5; split; assumption|].
  split; [exact SR|].
  rewrite (heap_blocks_rep _ _ _ R), (heap_blocks_rep _ _ _ R'), Q5.
  split; [|split; [exact K | exact O]].
  destruct (is_live s' (FreeBlocks s + 80 + total l1)) eqn:El; [|reflexivity].
  exfalso. apply (is_live_rep s' bl' idx' _ R') in El.
  destruct El as (z & Hz). rewrite Q5 in Hz. exact (Hn z Hz).
Qed.

Lemma X11_free_keeps_the_others_witness :
  exists s', mm_free 4200 s_abc = Ok tt s' /\ heap_ok s' /\
    same_region s_abc s' /\ is_live s' 4200 = false /\
    (forall a z, In (a, z, true) (heap_blocks s_abc) -> a <> 4200 ->
       In (a, z, true) (heap_blocks s') /\
       forall x, a <= x < a + z - 8 -> mem s' x = mem s_abc x) /\
    (forall a z, In (a, z, true) (heap_blocks s') ->
       In (a, z, true) (heap_blocks s_abc)).
Proof.
  apply (X11_free_keeps_the_others s_abc 4200).
  - apply reachable_heap_ok, reach_s_abc. unfold max_request. lia.
  - vm_compute. reflexivity.
Defined.

(** X12.  A block released between two allocated neighbours goes to the
    head of the bucket of its size class, so [mm_malloc] gives it back to
    the next request whose rounded size falls in the same size class and
    is covered by the block. *)
Theorem X12_free_then_malloc_reuses s p n :
  heap_ok s -> is_live s p = true -> 0 < n <= max_request ->
  let sz := size_of_word (mem s (p - 4)) in
  alloc_of_word (mem s (p - 8)) <> 0 ->
  alloc_of_word (mem s (p + sz - 4)) <> 0 ->
  round_size n <= sz ->
  size_class_of (round_size n) = size_class_of sz ->
  exists s1 s2, mm_free p s = Ok tt s1 /\ mm_malloc n s1 = Ok p s2.
Proof.
  intros (bl & idx & R & C) Hl Hn sz0 Hpa Hna Hle Hcl.
  unfold max_request in Hn.
  destruct (live_split s bl idx p R Hl) as (l1 & sz & l2 & -> & ->).
  set (p := FreeBlocks s + 80 + total l1) in *.
  assert (Hb : In (p, sz, true)
                 (blist (FreeBlocks s + 80) (l1 ++ [(sz, true)] ++ l2))).
  { apply blist_In_app3. right. left. now left. }
  pose proof (block_facts _ _ _ _ _ (proj1 R) Hb) as (G & B & Th & _).
  assert (Esz : sz0 = sz) by (unfold sz0; rewrite Th, size_of_tag; lia).
  rewrite Esz in *. clear Esz sz0.
  destruct (neighbour_words s l1 sz true l2 (proj1 R))
    as ((P1 & _) & (N1 & _)).
  fold p in P1, N1.
  apply Z.eqb_neq in Hpa, Hna. rewrite Hpa in P1. rewrite Hna in N1.
  cbn [negb] in P1, N1.
  destruct (mm_free_spec s idx l1 sz l2 R C) as ([] & s1 & Ef & HF).
  unfold coalesce_prev, coalesce_next, coalesce_index in HF.
  rewrite P1, N1 in HF. fold p in HF, Ef.
  replace (p - 0) with p in HF by lia.
  replace (0 + sz + 0) with sz in HF by lia.
  destruct HF as (R1 & C1 & SR & _).
  pose proof SR as (_ & _ & _ & _ & Q5 & _).
  exists s1.
  pose proof (round_size_spec n Hn) as (A1 & A2 & A3).
  set (asize := round_size n) in *.
  assert (Hb1 : In (p, sz, false)
                  (blist (FreeBlocks s1 + 80) (l1 ++ [(sz, false)] ++ l2))).
  { rewrite Q5. apply blist_In_app3. right. left. now left. }
  assert (Efit : find_fit asize s1 = Ok p s1).
  { rewrite (find_fit_spec s1 _ _ asize R1). f_equal.
    pose proof (size_class_of_range asize) as Hc.
    destruct (Z.to_nat (17 - size_class_of asize)) as [|m] eqn:Em; [lia|].
    cbn [candidates]. rewrite Hcl. unfold idx_insert at 1.
    rewrite idx_set_same. unfold first_fit. cbn [app find].
    rewrite (free_block_fits s1 _ _ p sz asize R1 Hb1).
    replace (asize <=? sz) with true by (symmetry; apply Z.leb_le; lia).
    reflexivity. }
  pose proof (place_complete s1 (idx_insert idx (size_class_of sz) p)
                l1 sz l2 asize) as HP.
  cbv zeta in HP.
  rewrite Q5 in HP. fold p in HP.
  destruct (HP R1 C1 ltac:(lia) A2) as ([] & s2 & Ep & _).
  exists s2. split; [exact Ef|].
  unfold mm_malloc.
  replace (n <=? 0) with false by (symmetry; apply Z.leb_gt; lia).
  fold asize. unfold bind at 1. rewrite Efit.
  replace (p =? NULL) with false
    by (symmetry; apply Z.eqb_neq; unfold NULL; lia).
  cbn [negb]. unfold bind. rewrite Ep. reflexivity.
Qed.

Lemma X12_free_then_malloc_reuses_witness :
  exists s1 s2, mm_free 4200 s_abc = Ok tt s1 /\ mm_malloc 10 s1 = Ok 4200 s2.
Proof.
  apply (X12_free_then_malloc_reuses s_abc 4200 10).
  - apply reachable_heap_ok, reach_s_abc. unfold max_request. lia.
  - vm_compute. reflexivity.
  - unfold max_request. lia.
  - vm_compute. intros Q. discriminate Q.
  - vm_compute. intros Q. discriminate Q.
  - vm_compute. intros Q. discriminate Q.
  - vm_compute. reflexivity.
Defined.

(** ** Resizing *)

Lemma alloc_keep_replace first l1 X Y l2 t :
  total Y = total X ->
  In t (blist first (l1 ++ X ++ l2)) ->
  ~ In t (blist (first + total l1) X) ->
  In t (blist first (l1 ++ Y ++ l2)).
Proof.
  intros ET Hi Hn. apply blist_In_app3 in Hi. apply blist_In_app3.
  rewrite ET. tauto.
Qed.

(* what a resize that returns leaves behind *)
Lemma mm_realloc_effect s idx l1 old l2 n q s' :
  let first := FreeBlocks s + 80 in
  let p := first + total l1 in
  let bl := l1 ++ [(old, true)] ++ l2 in
  rep s bl idx -> complete first bl idx ->
  0 < n <= 2 ^ 32 - 16 ->
  mm_realloc p n s = Ok q s' ->
  region_le s s' /\ (round_size n <= old -> q = p /\ mem_brk s' = mem_brk s) /\
  exists bl' idx',
    rep s' bl' idx' /\ complete first bl' idx' /\
    (exists z, In (q, z, true) (blist first bl') /\ round_size n <= z) /\
    (q <> p -> forall z, ~ In (p, z, true) (blist first bl')) /\
    (forall x, q <= x < q + Z.min (old - 8) (round_size n - 8) ->
               mem s' x = mem s (x - q + p)) /\
    (forall a z, In (a, z, true) (blist first bl) -> a <> p ->
       In (a, z, true) (blist first bl') /\
       forall x, a <= x < a + z - 8 -> mem s' x = mem s x).
Proof.
  intros first p bl R C Hn E. unfold p, first in E.
  pose proof (round_size_spec n Hn) as (A1 & A2 & A3).
  assert (Hb : In (p, old, true) (blist first bl)).
  { apply blist_In_app3. right. left. now left. }
  pose proof (block_facts _ _ _ _ _ (proj1 R) Hb) as (G & B & Th & Tf).
  pose proof (lay_sizes _ _ (proj1 R)) as SZ.
  assert (Hself : forall a z, In (a, z, true) (blist first bl) -> a <> p ->
            ~ In (a, z, true) (blist (first + total l1) [(old, true)])).
  { intros a z _ Hne [Q|[]]. inversion Q. fold p in H0. lia. }
  assert (Hdis : forall a z, In (a, z, true) (blist first bl) -> a <> p ->
            16 <= z /\ (a + z <= p \/ p + old <= a)).
  { intros a z Ha Hne.
    pose proof (blist_In_sizes _ _ _ _ _ SZ Ha).
    destruct (blist_In_disjoint _ _ _ _ _ _ _ _ SZ Ha Hb) as [(Q & _)|D];
      [contradiction | lia]. }
  assert (Hstay : s' = s -> q = p -> old >= round_size n ->
    region_le s s' /\
    (round_size n <= old -> q = p /\ mem_brk s' = mem_brk s) /\
    exists bl' idx',
      rep s' bl' idx' /\ complete first bl' idx' /\
      (exists z, In (q, z, true) (blist first bl') /\ round_size n <= z) /\
      (q <> p -> forall z, ~ In (p, z, true) (blist first bl')) /\
      (forall x, q <= x < q + Z.min (old - 8) (round_size n - 8) ->
                 mem s' x = mem s (x - q + p)) /\
      (forall a z, In (a, z, true) (blist first bl) -> a <> p ->
         In (a, z, true) (blist first bl') /\
         forall x, a <= x < a + z - 8 -> mem s' x = mem s x)).
  { intros -> -> Hge. split; [apply same_region_le, same_region_refl|].
    split; [auto|]. exists bl, idx. split; [exact R|]. split; [exact C|].
    split; [exists old; split; [exact Hb | lia]|].
    split; [intros Q; now destruct Q|].
    split; [intros x Hx; f_equal; lia|]. auto. }
  destruct (Z.lt_trichotomy (round_size n) old) as [Hlt|[Heq|Hgt]].
  - destruct (Z_lt_ge_dec (old - round_size n) 16) as [Hk|Hs].
    + rewrite (mm_realloc_shrink_keep s idx l1 l2 old n R) in E
        by (auto; lia).
      apply Ok_inj in E. destruct E as [Eq Es]. apply Hstay; auto; lia.
    + pose proof (wp_result _ _ _ _ _
                    (mm_realloc_shrink_split s idx l1 l2 old n R C
                       ltac:(lia) ltac:(lia) A2 ltac:(lia)) E)
        as (Eq & SR & R' & C' & F).
      assert (Eq' : q = p) by exact Eq. clear Eq. subst q.
      fold first p in R', C', F.
      split; [apply same_region_le; exact SR|].
      split; [intros _; split; [reflexivity | apply SR]|].
      eexists _, _. split; [exact R'|]. split; [exact C'|].
      split; [|split; [|split]].
      * exists (round_size n). split; [|lia].
        apply blist_In_app3. right. left. now left.
      * intros Q. now destruct Q.
      * intros x Hx. replace (x - p + p) with x by lia.
        apply F; [lia | lia |].
        eapply payload_not_link; [apply R | exact Hb | lia].
      * intros a z Ha Hne. destruct (Hdis a z Ha Hne) as (Hz & D). split.
        -- apply (alloc_keep_replace first l1 [(old, true)]); auto.
           cbn [total]. lia.
        -- intros x Hx. apply F; [lia | lia |].
           eapply payload_not_link; [apply R | exact Ha | lia].
  - rewrite (mm_realloc_same s idx l1 l2 old n R) in E by (auto; lia).
    apply Ok_inj in E. destruct E as [Eq Es]. apply Hstay; auto; lia.
  - pose proof (coalesce_next_shape l2) as HNs.
    assert (S2 : sizes_ok l2).
    { apply sizes_ok_app in SZ. destruct SZ as [_ SZ'].
      apply sizes_ok_app in SZ'. tauto. }
    specialize (HNs S2). unfold coalesce_next in HNs.
    destruct (next_blk l2) as [nsz nal] eqn:En. cbn [fst snd] in HNs.
    assert (Hcase :
      (nal = false /\ round_size n <= nsz + old) \/
      (snd (next_blk l2) = true \/
       fst (next_blk l2) + old < round_size n)).
    { rewrite En. cbn [fst snd]. destruct nal; [right; now left|].
      destruct (Z_le_gt_dec (round_size n) (nsz + old));
        [left | right; right]; auto; lia. }
    split; [|split; [lia|]].
    { destruct Hcase as [[-> Hfit]|Hmove].
      - destruct HNs as [[_ Hx]|[_ El2]].
        { exfalso. unfold next_blk in En. rewrite <- Hx in En.
          destruct l2 as [|[a b] r]; simpl in *; [discriminate En|].
          clear - Hx. apply (f_equal (@List.length _)) in Hx.
          simpl in Hx. lia. }
        pose proof (wp_result _ _ _ _ _
                      (mm_realloc_grow_in_place s idx l1 l2 old n R C nsz _
                         ltac:(lia) ltac:(lia) El2 Hfit) E)
          as (_ & SR & _).
        apply same_region_le; exact SR.
      - destruct (mm_malloc_spec s _ idx n R C Hn) as (p1 & s1 & Em & Hp).
        destruct (Z.eq_dec p1 NULL) as [->|Hp1].
        + destruct Hp as [[_ ->]|[Hx _]]; [|contradiction].
          rewrite (mm_realloc_move_null s idx l1 l2 old n R s) in E
            by (auto; lia).
          discriminate E.
        + pose proof (wp_result _ _ _ _ _
                        (mm_realloc_move s idx l1 l2 old n R C p1 s1 Hn
                           Hgt Hmove Em Hp1) E) as (_ & RL & _).
          exact RL. }
    destruct Hcase as [[-> Hfit]|Hmove].
    + destruct HNs as [[_ Hx]|[_ El2]].
      { exfalso. unfold next_blk in En. rewrite <- Hx in En.
        destruct l2 as [|[a b] r]; simpl in *; [discriminate En|].
        clear - Hx. apply (f_equal (@List.length _)) in Hx.
        simpl in Hx. lia. }
      pose proof (wp_result _ _ _ _ _
                    (mm_realloc_grow_in_place s idx l1 l2 old n R C nsz _
                       ltac:(lia) ltac:(lia) El2 Hfit) E)
        as (Eq & SR & R' & C' & F & F2).
      assert (Eq' : q = p) by exact Eq. clear Eq. subst q.
      fold first p in R', C', F, F2.
      assert (Hnb : In (p + old, nsz, false) (blist first bl)).
      { unfold bl. rewrite El2. apply blist_In_app3. right. right.
        cbn [total blist]. left. f_equal. f_equal. unfold p. lia. }
      eexists _, _. split; [exact R'|]. split; [exact C'|].
      split; [|split; [|split]].
      * exists (old + nsz). split; [|lia].
        apply blist_In_app3. right. left. now left.
      * intros Q. now destruct Q.
      * intros x Hx. replace (x - p + p) with x by lia. apply F. lia.
      * intros a z Ha Hne. destruct (Hdis a z Ha Hne) as (Hz & D).
        pose proof (blist_In_sizes _ _ _ _ _ SZ Hnb).
        assert (D' : a + z <= p \/ p + old + nsz <= a).
        { destruct (blist_In_disjoint _ _ _ _ _ _ _ _ SZ Ha Hnb)
            as [(_ & _ & Q)|D']; [discriminate Q | lia]. }
        split.
        -- unfold bl in Ha. rewrite El2 in Ha.
           change ([(old, true)] ++ (nsz, false) :: tl l2)
             with ([(old, true); (nsz, false)] ++ tl l2) in Ha.
           apply (alloc_keep_replace first l1 [(old, true); (nsz, false)]);
             [cbn [total]; lia | exact Ha |].
           intros [Q|[Q|[]]]; inversion Q. fold p in H1. lia.
        -- intros x Hx. apply F2; [lia|].
           eapply payload_not_link; [apply R | exact Ha | lia].
    + destruct (mm_malloc_spec s _ idx n R C Hn) as (p1 & s1 & Em & Hp).
      destruct (Z.eq_dec p1 NULL) as [->|Hp1].
      * destruct Hp as [[_ ->]|[Hx _]]; [|contradiction].
        rewrite (mm_realloc_move_null s idx l1 l2 old n R s) in E
          by (auto; lia).
        discriminate E.
      * pose proof (wp_result _ _ _ _ _
                      (mm_realloc_move s idx l1 l2 old n R C p1 s1 Hn
                         Hgt Hmove Em Hp1) E)
          as (-> & RL & bl' & idx' & R' & C' & Hz & Hnot & Hcopy & Hkeep).
        fold first p in R', C', Hz, Hnot, Hcopy, Hkeep.
        exists bl', idx'. split; [exact R'|]. split; [exact C'|].
        split; [exact Hz|]. split; [intros _; exact Hnot|].
        split; [|exact Hkeep].
        intros x Hx. apply Hcopy. lia.
Qed.

(** X13.  A [mm_realloc p n] that returns, for an allocated block [p] and
    [0 < n <= 2^32 - 16] in a state that satisfies the heap invariant,
    returns an allocated block with room for [n] bytes whose payload starts
    with the old payload: the first [min (old - 8) n] bytes at the new
    address are the bytes that were at [p], where [old] is the size in the
    header of [p].  The heap invariant is kept. *)
Theorem X13_realloc_keeps_data s p n q s' :
  heap_ok s -> is_live s p = true -> 0 < n <= max_request ->
  mm_realloc p n s = Ok q s' ->
  let old := size_of_word (mem s (p - 4)) in
  heap_ok s' /\ is_live s' q = true /\
  (exists z, In (q, z, true) (heap_blocks s') /\ n + 8 <= z) /\
  (forall x, 0 <= x < Z.min (old - 8) n -> mem s' (q + x) = mem s (p + x)).
Proof.
  intros (bl & idx & R & C) Hl Hn E old0. unfold max_request in Hn.
  destruct (live_split s bl idx p R Hl) as (l1 & old & l2 & -> & ->).
  pose proof (round_size_spec n Hn) as (A1 & A2 & A3).
  assert (Hb : In (FreeBlocks s + 80 + total l1, old, true)
                 (blist (FreeBlocks s + 80) (l1 ++ [(old, true)] ++ l2))).
  { apply blist_In_app3. right. left. now left. }
  pose proof (block_facts _ _ _ _ _ (proj1 R) Hb) as (G & B & Th & _).
  assert (Eo : old0 = old) by (unfold old0; rewrite Th, size_of_tag; lia).
  rewrite Eo. clear Eo old0.
  destruct (mm_realloc_effect s idx l1 old l2 n q s' R C Hn E)
    as (RL & _ & bl' & idx' & R' & C' & (z & Hz & Hle) & _ & Hcopy & _).
  destruct RL as (_ & _ & _ & _ & Q5 & _).
  split; [exists bl', idx'; rewrite Q5; split; assumption|].
  split; [apply (is_live_rep s' bl' idx' q R'); exists z; now rewrite Q5|].
  split.
  - exists z. rewrite (heap_blocks_rep _ _ _ R'), Q5. split; [exact Hz | lia].
  - intros x Hx. rewrite (Hcopy (q + x)) by lia. f_equal. lia.
Qed.

Lemma X13_realloc_keeps_data_witness :
  exists q s', mm_realloc 4176 100 s_abc = Ok q s' /\
    is_live s' q = true /\
    forall x, 0 <= x < 16 -> mem s' (q + x) = mem s_abc (4176 + x).
Proof.
  assert (Ev : value_of (mm_realloc 4176 100 s_abc) = Some 4248)
    by (vm_compute; reflexivity).
  destruct (mm_realloc 4176 100 s_abc) as [q s'|e] eqn:E;
    [|discriminate Ev].
  assert (H : heap_ok s_abc).
  { apply reachable_heap_ok, reach_s_abc. unfold max_request. lia. }
  assert (Hl : is_live s_abc 4176 = true) by (vm_compute; reflexivity).
  assert (Hn : 0 < 100 <= max_request) by (unfold max_request; lia).
  destruct (X13_realloc_keeps_data s_abc 4176 100 _ _ H Hl Hn E)
    as (_ & L & _ & K).
  exists q, s'. split; [reflexivity|]. split; [exact L|].
  intros x Hx. apply K.
  replace (size_of_word (mem s_abc (4176 - 4))) with 24
    by (vm_compute; reflexivity).
  lia.
Defined.

(** X14.  A [mm_realloc p n] that returns, under the same conditions, leaves
    every other allocated block allocated, with its size and its payload
    unchanged.  When the rounded request does not exceed the size of the
    block the result is [p] itself and the break does not move; when the
    result is another block, [p] is no longer allocated. *)
Theorem X14_realloc_keeps_the_others s p n q s' :
  heap_ok s -> is_live s p = true -> 0 < n <= max_request ->
  mm_realloc p n s = Ok q s' ->
  (round_size n <= size_of_word (mem s (p - 4)) ->
   q = p /\ mem_brk s' = mem_brk s) /\
  (q <> p -> is_live s' p = false) /\
  (forall a z, In (a, z, true) (heap_blocks s) -> a <> p ->
     In (a, z, true) (heap_blocks s') /\
     forall x, a <= x < a + z - 8 -> mem s' x = mem s x).
Proof.
  intros (bl & idx & R & C) Hl Hn E. unfold max_request in Hn.
  destruct (live_split s bl idx p R Hl) as (l1 & old & l2 & -> & ->).
  assert (Hb : In (FreeBlocks s + 80 + total l1, old, true)
                 (blist (FreeBlocks s + 80) (l1 ++ [(old, true)] ++ l2))).
  { apply blist_In_app3. right. left. now left. }
  pose proof (block_facts _ _ _ _ _ (proj1 R) Hb) as (G & B & Th & _).
  rewrite Th, size_of_tag by lia.
  destruct (mm_realloc_effect s idx l1 old l2 n q s' R C Hn E)
    as (RL & Hq & bl' & idx' & R' & C' & _ & Hnot & _ & Hkeep).
  destruct RL as (_ & _ & _ & _ & Q5 & _).
  split; [exact Hq|]. split.
  - intros Hne.
    destruct (is_live s' (FreeBlocks s + 80 + total l1)) eqn:El;
      [|reflexivity].
    exfalso. apply (is_live_rep s' bl' idx' _ R') in El.
    destruct El as (z & Hz). rewrite Q5 in Hz. exact (Hnot Hne z Hz).
  - rewrite (heap_blocks_rep _ _ _ R), (heap_blocks_rep _ _ _ R'), Q5.
    exact Hkeep.
Qed.

Lemma X14_realloc_keeps_the_others_witness :
  exists q s', mm_realloc 4176 100 s_abc = Ok q s' /\
    (q <> 4176 -> is_live s' 4176 = false) /\
    (forall a z, In (a, z, true) (heap_blocks s_abc) -> a <> 4176 ->
       In (a, z, true) (heap_blocks s') /\
       forall x, a <= x < a + z - 8 -> mem s' x = mem s_abc x).
Proof.
  assert (Ev : value_of (mm_realloc 4176 100 s_abc) = Some 4248)
    by (vm_compute; reflexivity).
  destruct (mm_realloc 4176 100 s_abc) as [q s'|e] eqn:E;
    [|discriminate Ev].
  assert (H : heap_ok s_abc).
  { apply reachable_heap_ok, reach_s_abc. unfold max_request. lia. }
  assert (Hl : is_live s_abc 4176 = true) by (vm_compute; reflexivity).
  assert (Hn : 0 < 100 <= max_request) by (unfold max_request; lia).
  destruct (X14_realloc_keeps_the_others s_abc 4176 100 _ _ H Hl Hn E)
    as (_ & L & K).
  exists q, s'. split; [reflexivity|]. split; [exact L | exact K].
Defined.

Lemma heap_ok_s_one_a : heap_ok s_one_a.
Proof.
  apply (heap_ok_malloc s_one_init 16 4176 s_one_a heap_ok_s_one_init).
  - unfold max_request. lia.
  - vm_compute. reflexivity.
Qed.

(** X15.  [mm_realloc] does not test the result of [mm_malloc]: when the
    block has to grow, cannot take the following block, and [mm_malloc]
    returns [NULL], the call copies the old payload to address 0 and
    faults there instead of returning [NULL]. *)
Theorem X15_realloc_faults_when_out_of_memory s p n s1 :
  heap_ok s -> is_live s p = true -> 0 < n <= max_request ->
  let old := size_of_word (mem s (p - 4)) in
  let nw := mem s (p + old - 4) in
  old < round_size n ->
  alloc_of_word nw <> 0 \/ size_of_word nw + old < round_size n ->
  mm_malloc n s = Ok NULL s1 ->
  mm_realloc p n s = Err (BadWrite NULL).
Proof.
  intros (bl & idx & R & C) Hl Hn old0 nw0 Hgrow Hnext Em.
  unfold max_request in Hn.
  destruct (live_split s bl idx p R Hl) as (l1 & old & l2 & -> & ->).
  assert (Hb : In (FreeBlocks s + 80 + total l1, old, true)
                 (blist (FreeBlocks s + 80) (l1 ++ [(old, true)] ++ l2))).
  { apply blist_In_app3. right. left. now left. }
  pose proof (block_facts _ _ _ _ _ (proj1 R) Hb) as (G & B & Th & _).
  assert (Eo : old0 = old) by (unfold old0; rewrite Th, size_of_tag; lia).
  unfold nw0 in Hnext. rewrite Eo in *. clear Eo old0 nw0.
  pose proof (round_size_spec n Hn) as (A1 & A2 & A3).
  destruct (neighbour_words s l1 old true l2 (proj1 R)) as (_ & (N1 & N2)).
  assert (Hmove : snd (next_blk l2) = true \/
                  fst (next_blk l2) + old < round_size n).
  { rewrite N1, N2. destruct Hnext as [Ha|Hs]; [left|right; exact Hs].
    apply Z.eqb_neq in Ha. now rewrite Ha. }
  assert (Es : s1 = s).
  { pose proof (wp_result _ _ _ _ _ (mm_malloc_spec s _ idx n R C Hn) Em)
      as [[_ Es]|(Hx & _)]; [exact Es | now destruct Hx]. }
  subst s1.
  exact (mm_realloc_move_null s idx l1 l2 old n R s ltac:(lia) ltac:(lia)
           Hmove Em eq_refl).
Qed.

(* the region has room for the first chunk only: the block at 4176 cannot
   grow to 5000 bytes *)
Lemma X15_realloc_faults_when_out_of_memory_witness :
  mm_realloc 4176 5000 s_one_a = Err (BadWrite NULL).
Proof.
  apply (X15_realloc_faults_when_out_of_memory s_one_a 4176 5000 s_one_a).
  - exact heap_ok_s_one_a.
  - vm_compute. reflexivity.
  - unfold max_request. lia.
  - vm_compute. reflexivity.
  - right. vm_compute. reflexivity.
  - vm_compute. reflexivity.
Defined.

(** X16.  When [mm_realloc] shrinks a block in place and splits off the
    rest, it links the rest as a free block without coalescing: if the
    block that follows is free, the heap is left with two adjacent free
    blocks. *)
Theorem X16_shrink_leaves_adjacent_free s p n :
  heap_ok s -> is_live s p = true -> 0 < n <= max_request ->
  let old := size_of_word (mem s (p - 4)) in
  16 <= old - round_size n ->
  alloc_of_word (mem s (p + old - 4)) = 0 ->
  exists s', mm_realloc p n s = Ok p s' /\
    In (p + round_size n, old - round_size n, false) (heap_blocks s') /\
    In (p + old, size_of_word (mem s (p + old - 4)), false)
       (heap_blocks s') /\
    ~ no_adjacent_free s'.
Proof.
  intros (bl & idx & R & C) Hl Hn old0 Hsplit Hfree.
  unfold max_request in Hn.
  destruct (live_split s bl idx p R Hl) as (l1 & old & l2 & -> & ->).
  set (p := FreeBlocks s + 80 + total l1) in *.
  assert (Hb : In (p, old, true)
                 (blist (FreeBlocks s + 80) (l1 ++ [(old, true)] ++ l2))).
  { apply blist_In_app3. right. left. now left. }
  pose proof (block_facts _ _ _ _ _ (proj1 R) Hb) as (G & B & Th & _).
  assert (Eo : old0 = old) by (unfold old0; rewrite Th, size_of_tag; lia).
  rewrite Eo in *. clear Eo old0.
  pose proof (round_size_spec n Hn) as (A1 & A2 & A3).
  destruct (neighbour_words s l1 old true l2 (proj1 R)) as (_ & (N1 & N2)).
  fold p in N1, N2. rewrite Hfree in N1. cbn in N1.
  pose proof (next_free_shape l2 N1) as El2. rewrite N2 in El2.
  set (nsz := size_of_word (mem s (p + old - 4))) in *.
  destruct (mm_realloc_shrink_split s idx l1 l2 old n R C
              ltac:(lia) ltac:(lia) A2 ltac:(lia))
    as (q & s' & E & Eq & SR & R' & _).
  fold p in E, Eq, R'. subst q.
  destruct SR as (_ & _ & _ & _ & Q5 & _).
  exists s'. split; [exact E|].
  unfold no_adjacent_free.
  rewrite (heap_blocks_rep _ _ _ R'), Q5, map_snd_blist.
  split; [|split].
  - apply blist_In_app3. right. left. fold p. right. now left.
  - apply blist_In_app3. right. right. fold p. cbn [total].
    rewrite El2. left. f_equal. f_equal. lia.
  - rewrite El2, !map_app. cbn [map snd app].
    rewrite adjacent_free_app. cbn [hd adjacent_free negb andb orb].
    rewrite !orb_true_r. discriminate.
Qed.

(* after [mm_init] and [mm_malloc 100] the block of 112 bytes at 4176 is
   followed by the free rest of the chunk; resized to 10 bytes it keeps 24
   bytes and the 88 bytes split off stay next to that free rest *)
Lemma X16_shrink_leaves_adjacent_free_witness :
  exists s', mm_realloc 4176 10 (state_of (mm_malloc 100 s_init) s_fresh)
             = Ok 4176 s' /\
    ~ no_adjacent_free s'.
Proof.
  set (s := state_of (mm_malloc 100 s_init) s_fresh).
  assert (H : heap_ok s).
  { apply (heap_ok_malloc s_init 100 4176 s).
    - apply reachable_heap_ok, reach_s_init.
    - unfold max_request. lia.
    - vm_compute. reflexivity. }
  destruct (X16_shrink_leaves_adjacent_free s 4176 10 H) as (s' & E & _ & _ & N).
  - vm_compute. reflexivity.
  - unfold max_request. lia.
  - vm_compute. intros Q. discriminate Q.
  - vm_compute. reflexivity.
  - exists s'. split; [exact E | exact N].
Defined.

(** ** The index *)

(** X17.  Unlinking a free block with [free_list_remove] and linking it
    again with [free_list_insert] moves it to the head of its bucket: the
    bucket of its size class holds the block first and then its other
    nodes in their old order, every other bucket and the blocks of the
    heap are as before. *)
Theorem X17_remove_insert_moves_to_head s bp sz :
  heap_ok s -> In (bp, sz, false) (heap_blocks s) ->
  exists s1 s2,
    free_list_remove bp s = Ok tt s1 /\ free_list_insert bp s1 = Ok tt s2 /\
    (forall k, 0 <= k < 17 ->
       buckets s1 k = remove Z.eq_dec bp (buckets s k)) /\
    (forall k, 0 <= k < 17 ->
       buckets s2 k =
       if k =? size_class_of sz
       then bp :: remove Z.eq_dec bp (buckets s k)
       else buckets s k) /\
    heap_blocks s2 = heap_blocks s.
Proof.
  intros (bl & idx & R & C). rewrite (heap_blocks_rep _ _ _ R). intros Hb.
  pose proof (size_class_of_range sz) as Hc.
  destruct (free_list_remove_ok s bl idx bp sz R Hb (C _ _ Hb))
    as ([] & s1 & E1 & R1 & SR1 & _).
  pose proof SR1 as (_ & _ & _ & _ & Q5 & _).
  assert (Hn : forall k, 0 <= k < 17 -> ~ In bp (idx_remove idx bp k)).
  { intros k _. unfold idx_remove. apply remove_In. }
  rewrite <- Q5 in Hb.
  destruct (free_list_insert_spec s1 bl _ bp sz R1 Hb Hn)
    as ([] & s2 & E2 & R2 & SR2 & _).
  pose proof SR2 as (_ & _ & _ & _ & Q5' & _).
  exists s1, s2. split; [exact E1|]. split; [exact E2|].
  assert (B1 : forall k, 0 <= k < 17 ->
                 buckets s1 k = remove Z.eq_dec bp (buckets s k)).
  { intros k Hk. rewrite (buckets_rep _ _ _ _ R1 Hk). unfold idx_remove.
    now rewrite (buckets_rep _ _ _ _ R Hk). }
  split; [exact B1|]. split.
  - intros k Hk. rewrite (buckets_rep _ _ _ _ R2 Hk). unfold idx_set.
    destruct (Z.eqb_spec k (size_class_of sz)) as [->|Hne].
    + unfold idx_remove. now rewrite (buckets_rep _ _ _ _ R Hc).
    + unfold idx_remove. rewrite (buckets_rep _ _ _ _ R Hk).
      apply notin_remove. intros Hi.
      destruct (node_facts s bl idx k bp R Hk Hi) as (z & Hz & Hcl & _).
      rewrite Q5 in Hb.
      destruct (blist_In_disjoint _ _ _ _ _ _ _ _ (lay_sizes _ _ (proj1 R))
                  Hb Hz) as [(_ & Es & _)|D].
      * subst z. now apply Hne.
      * pose proof (blist_In_sizes _ _ _ _ _ (lay_sizes _ _ (proj1 R)) Hb).
        pose proof (blist_In_sizes _ _ _ _ _ (lay_sizes _ _ (proj1 R)) Hz).
        lia.
  - rewrite (heap_blocks_rep _ _ _ R2), Q5', Q5. reflexivity.
Qed.

Lemma X17_remove_insert_moves_to_head_witness :
  buckets s_bd 1 = [4224; 4176] /\
  exists s1 s2,
    free_list_remove 4176 s_bd = Ok tt s1 /\
    free_list_insert 4176 s1 = Ok tt s2 /\
    buckets s2 1 = [4176; 4224].
Proof.
  split; [vm_compute; reflexivity|].
  destruct (X17_remove_insert_moves_to_head s_bd 4176 24)
    as (s1 & s2 & E1 & E2 & _ & B2 & _).
  - apply reachable_heap_ok, reach_s_bd. unfold max_request. lia.
  - vm_compute. left. reflexivity.
  - exists s1, s2. split; [exact E1|]. split; [exact E2|].
    rewrite (B2 1 ltac:(lia)). vm_compute. reflexivity.
Defined.

(** X18.  Linking a free block that is in no bucket with
    [free_list_insert] and unlinking it with [free_list_remove] is a round
    trip on the index: every bucket is as it was before, and the two link
    words of the block are left zero. *)
Theorem X18_insert_remove_roundtrip s bl idx bp sz :
  rep s bl idx ->
  In (bp, sz, false) (blist (FreeBlocks s + 80) bl) ->
  (forall k, 0 <= k < 17 -> ~ In bp (idx k)) ->
  exists s1 s2,
    free_list_insert bp s = Ok tt s1 /\ free_list_remove bp s1 = Ok tt s2 /\
    (forall k, 0 <= k < 17 ->
       buckets s1 k =
       if k =? size_class_of sz then bp :: buckets s k else buckets s k) /\
    (forall k, 0 <= k < 17 -> buckets s2 k = buckets s k) /\
    heap_blocks s2 = heap_blocks s /\
    mem s2 bp = 0 /\ mem s2 (bp + 4) = 0.
Proof.
  intros R Hb Hn. pose proof (size_class_of_range sz) as Hc.
  destruct (free_list_insert_spec s bl idx bp sz R Hb Hn)
    as ([] & s1 & E1 & R1 & SR1 & _).
  pose proof SR1 as (_ & _ & _ & _ & Q5 & _).
  destruct (free_list_remove_spec s1 bl _ (size_class_of sz) [] bp
              (idx (size_class_of sz)) R1 Hc)
    as ([] & s2 & E2 & R2 & SR2 & _ & Z1 & Z2).
  { now rewrite idx_set_same. }
  pose proof SR2 as (_ & _ & _ & _ & Q5' & _).
  exists s1, s2. split; [exact E1|]. split; [exact E2|]. split; [|split].
  - intros k Hk. rewrite (buckets_rep _ _ _ _ R1 Hk). unfold idx_set.
    rewrite (buckets_rep _ _ _ _ R Hk).
    destruct (Z.eqb_spec k (size_class_of sz)) as [->|Hne]; reflexivity.
  - intros k Hk. rewrite (buckets_rep _ _ _ _ R2 Hk). unfold idx_set.
    rewrite (buckets_rep _ _ _ _ R Hk).
    destruct (Z.eqb_spec k (size_class_of sz)) as [->|Hne]; reflexivity.
  - split; [|split; [exact Z1 | exact Z2]].
    rewrite (heap_blocks_rep _ _ _ R2), (heap_blocks_rep _ _ _ R), Q5', Q5.
    reflexivity.
Qed.

Lemma X18_insert_remove_roundtrip_witness :
  buckets s_unl 1 = [4224] /\
  exists s1 s2,
    free_list_insert 4176 s_unl = Ok tt s1 /\
    free_list_remove 4176 s1 = Ok tt s2 /\
    buckets s1 1 = [4176; 4224] /\ buckets s2 1 = [4224].
Proof.
  split; [vm_compute; reflexivity|].
  assert (H : heap_ok s_bd).
  { apply reachable_heap_ok, reach_s_bd. unfold max_request. lia. }
  destruct H as (bl & idx & R & C).
  assert (Hb : In (4176, 24, false) (blist (FreeBlocks s_bd + 80) bl)).
  { rewrite <- (heap_blocks_rep _ _ _ R). vm_compute. left. reflexivity. }
  assert (Hi : In 4176 (idx (size_class_of 24))) by (apply (C _ _ Hb)).
  destruct (free_list_remove_ok s_bd bl idx 4176 24 R Hb Hi)
    as ([] & s0 & E & R0 & _).
  assert (Es : s0 = s_unl) by (unfold s_unl; rewrite E; reflexivity).
  subst s0.
  assert (EF : FreeBlocks s_unl = FreeBlocks s_bd) by (vm_compute; reflexivity).
  rewrite <- EF in Hb.
  assert (Hn : forall k, 0 <= k < 17 -> ~ In 4176 (idx_remove idx 4176 k)).
  { intros k _. unfold idx_remove. apply remove_In. }
  destruct (X18_insert_remove_roundtrip s_unl bl _ 4176 24 R0 Hb Hn)
    as (s1 & s2 & E1 & E2 & B1 & B2 & _).
  exists s1, s2. split; [exact E1|]. split; [exact E2|].
  rewrite (B1 1 ltac:(lia)), (B2 1 ltac:(lia)).
  split; vm_compute; reflexivity.
Defined.

(** X19.  [free_list_remove] tells a bucket slot from a node by the value of
    the node's previous link: for a bucket array at [p], the flag [pre] is
    0 exactly for the addresses of the 17 slots [p], [p + 4], ...,
    [p + 64]. *)
Theorem X19_pre_flag_slots p v :
  0 <= p -> p + 64 < 2 ^ 32 -> 0 <= v < 2 ^ 32 ->
  (pre_flag p v = false <-> exists k, 0 <= k < 17 /\ v = p + 4 * k).
Proof.
  intros H0 H1 Hv. unfold pre_flag, WSIZE, ClassSize.
  rewrite (wrap_small (p + _)) by lia.
  destruct (Z.gtb_spec v (p + 4 * (17 - 1))) as [G|G]; cbn [orb].
  - split; [discriminate|]. intros (k & Hk & ->). lia.
  - destruct (Z.ltb_spec v p) as [L|L].
    + split; [discriminate|]. intros (k & Hk & ->). lia.
    + rewrite wrap_small by lia.
      destruct (Z.eqb_spec ((p + 4 * (17 - 1) - v) mod 4) 0) as [E|E];
        cbn [negb].
      * split; [intros _|reflexivity]. exists ((v - p) / 4). lia.
      * split; [discriminate|]. intros (k & Hk & ->). lia.
Qed.

Lemma X19_pre_flag_slots_witness :
  pre_flag 4096 4100 = false <-> exists k, 0 <= k < 17 /\ 4100 = 4096 + 4 * k.
Proof. apply (X19_pre_flag_slots 4096 4100); lia. Defined.

(** ** The layout of the heap *)

(** X20.  [mm_init], [mm_malloc], [mm_free] and [mm_realloc] keep the heap
    walkable: in every state they reach with requests of at most
    [max_request] bytes, the prologue words are [8|1], the word below the
    break is the epilogue [0|1], and the blocks read from the headers tile
    the region between them: the first block starts 80 bytes above the
    start, each block starts where the one before it ends, and the last one
    ends at the break.  Every block is 8-aligned, has a size of at least 16
    that is a multiple of 8, and carries the same word, size plus allocated
    bit, in its header and in its footer. *)
Theorem X20_blocks_tile_the_heap s :
  reachable s ->
  let bl := map (fun t : Z * Z * bool => (snd (fst t), snd t))
                (heap_blocks s) in
  mem s (mem_start_brk s + 68) = 9 /\ mem s (mem_start_brk s + 72) = 9 /\
  mem s (mem_brk s - 4) = 1 /\
  heap_blocks s = blist (mem_start_brk s + 80) bl /\
  mem_start_brk s + 80 + total bl = mem_brk s /\
  forall a sz al, In (a, sz, al) (heap_blocks s) ->
    a mod 8 = 0 /\ 16 <= sz /\ sz mod 8 = 0 /\
    mem_start_brk s + 80 <= a /\ a + sz <= mem_brk s /\
    mem s (a - 4) = sz + b2z al /\ mem s (a + sz - 8) = sz + b2z al.
Proof.
  intros Hr. destruct (reachable_heap_ok s Hr) as (bl0 & idx & R & C).
  cbv zeta. rewrite (heap_blocks_rep _ _ _ R), blist_strip.
  pose proof (lay_start _ _ (proj1 R)) as Es.
  pose proof (lay_brk _ _ (proj1 R)) as Eb.
  rewrite Es.
  split; [exact (lay_pro_h _ _ (proj1 R))|].
  split; [exact (lay_pro_f _ _ (proj1 R))|].
  split; [exact (lay_epi _ _ (proj1 R))|].
  split; [reflexivity|]. split; [lia|].
  intros a sz al Ha.
  pose proof (block_facts _ _ _ _ _ (proj1 R) Ha) as (G & B & Th & Tf).
  unfold tag in Th, Tf. repeat split; try tauto; lia.
Qed.

Lemma X20_blocks_tile_the_heap_witness :
  let bl := map (fun t : Z * Z * bool => (snd (fst t), snd t))
                (heap_blocks s_bd) in
  mem s_bd (mem_start_brk s_bd + 68) = 9 /\
  mem s_bd (mem_start_brk s_bd + 72) = 9 /\
  mem s_bd (mem_brk s_bd - 4) = 1 /\
  heap_blocks s_bd = blist (mem_start_brk s_bd + 80) bl /\
  mem_start_brk s_bd + 80 + total bl = mem_brk s_bd /\
  forall a sz al, In (a, sz, al) (heap_blocks s_bd) ->
    a mod 8 = 0 /\ 16 <= sz /\ sz mod 8 = 0 /\
    mem_start_brk s_bd + 80 <= a /\ a + sz <= mem_brk s_bd /\
    mem s_bd (a - 4) = sz + b2z al /\ mem s_bd (a + sz - 8) = sz + b2z al.
Proof.
  apply (X20_blocks_tile_the_heap s_bd).
  apply reach_s_bd. unfold max_request. lia.
Defined.

(** ** Growing the heap *)

Lemma blist_last a l sz al d :
  last (blist a (l ++ [(sz, al)])) d = (a + total l, sz, al).
Proof.
  rewrite blist_app. cbn [blist]. apply last_last.
Qed.

(** X21.  [extend_heap] with an even number of words, [size] bytes, asks the
    growth primitive once.  If [size] is 2^31 or more, or the limit of the
    region is closer than [size], it returns [NULL] and changes nothing.
    Otherwise the break moves up by [size] and the heap gets one new last
    block, free, that ends at the new break and is returned, linked at the
    head of its bucket.  When the last block of the old heap was allocated,
    or the heap had no block, the new block starts at the old break and the
    old blocks are all kept; when the last block of the old heap was free,
    [coalesce] merges it: the new block starts where that block started
    and takes its place. *)
Theorem X21_extend_heap_appends s size :
  heap_ok s -> 16 <= size < 2 ^ 32 -> size mod 8 = 0 ->
  exists b s', extend_heap (size / 4) s = Ok b s' /\
    if (2 ^ 31 <=? size) || (mem_max_addr s <? mem_brk s + size)
    then b = NULL /\ s' = s
    else
      let old_last := last (heap_blocks s) (0, 0, true) in
      heap_ok s' /\ mem_brk s' = mem_brk s + size /\
      b = (if snd old_last then mem_brk s else fst (fst old_last)) /\
      heap_blocks s' =
        (if snd old_last then heap_blocks s
         else removelast (heap_blocks s)) ++
        [(b, mem_brk s' - b, false)] /\
      hd 0 (buckets s' (size_class_of (mem_brk s' - b))) = b.
Proof.
  intros (bl & idx & R & C) Hs H8.
  pose proof (lay_brk _ _ (proj1 R)) as Eb.
  destruct (extend_heap_spec s bl idx size R C Hs H8)
    as (b & s' & E & [(-> & -> & HF)|(Hlt & Hmax & HE)]).
  - exists NULL, s. split; [exact E|].
    replace ((2 ^ 31 <=? size) || (mem_max_addr s <? mem_brk s + size))
      with true; [auto|].
    symmetry. apply orb_true_iff.
    destruct HF; [left; apply Z.leb_le | right; apply Z.ltb_lt]; lia.
  - exists b, s'. split; [exact E|].
    replace ((2 ^ 31 <=? size) || (mem_max_addr s <? mem_brk s + size))
      with false
      by (symmetry; apply orb_false_iff;
          split; [apply Z.leb_gt | apply Z.ltb_ge]; lia).
    cbv zeta. rewrite (heap_blocks_rep _ _ _ R).
    assert (Hshape :
      snd (last (blist (FreeBlocks s + 80) bl) (0, 0, true)) =
        snd (prev_blk bl) /\
      (snd (prev_blk bl) = false ->
       bl = removelast bl ++ [(fst (prev_blk bl), false)] /\
       fst (fst (last (blist (FreeBlocks s + 80) bl) (0, 0, true))) =
         FreeBlocks s + 80 + total (removelast bl) /\
       removelast (blist (FreeBlocks s + 80) bl) =
         blist (FreeBlocks s + 80) (removelast bl))).
    { unfold prev_blk.
      destruct (list_last_cases_gen bl) as [->|(l & [z al] & ->)].
      - cbn. split; [reflexivity | discriminate].
      - rewrite blist_last, !last_last, removelast_last. cbn [fst snd].
        split; [reflexivity|]. intros ->. split; [reflexivity|].
        split; [reflexivity|].
        rewrite blist_app. cbn [blist]. apply removelast_last. }
    destruct Hshape as (Hsnd & Hfree). rewrite Hsnd.
    unfold coalesce_prev in HE.
    destruct (snd (prev_blk bl)) eqn:Ep; cbv zeta iota beta in HE;
      destruct HE as (B1 & B2 & R' & C' & Gr & _);
      destruct Gr as (_ & Q2 & _ & _ & Q5 & _).
    + split; [eexists _, _; rewrite Q5; split; eassumption|].
      split; [exact Q2|]. split; [lia|].
      replace (mem_brk s' - b) with (0 + size) by lia.
      split.
      * rewrite (heap_blocks_rep _ _ _ R'), Q5, blist_app. cbn [blist].
        rewrite <- B2. reflexivity.
      * pose proof (size_class_of_range (0 + size)) as Hc.
        rewrite (buckets_rep _ _ _ _ R' Hc). unfold idx_insert.
        now rewrite idx_set_same.
    + destruct (Hfree eq_refl) as (Ebl & Hfst & Hrem).
      split; [eexists _, _; rewrite Q5; split; eassumption|].
      split; [exact Q2|]. split; [lia|].
      assert (Et : total bl = total (removelast bl) + fst (prev_blk bl)).
      { rewrite Ebl at 1. rewrite total_app. cbn [total]. lia. }
      replace (mem_brk s' - b) with (fst (prev_blk bl) + size) by lia.
      split.
      * rewrite (heap_blocks_rep _ _ _ R'), Q5, blist_app, Hrem.
        cbn [blist]. rewrite <- B2. reflexivity.
      * pose proof (size_class_of_range (fst (prev_blk bl) + size)) as Hc.
        rewrite (buckets_rep _ _ _ _ R' Hc). unfold idx_insert.
        now rewrite idx_set_same.
Qed.

(* the last block of [s_abc], at 4248, is free and is merged; the region of
   [s_one_a] cannot grow *)
Lemma X21_extend_heap_appends_witness :
  (exists s', extend_heap (4096 / 4) s_abc = Ok 4248 s' /\
     mem_brk s' = mem_brk s_abc + 4096 /\
     heap_blocks s' =
       [(4176, 24, true); (4200, 24, true); (4224, 24, true);
        (4248, 8120, false)]) /\
  (exists b s', extend_heap (4096 / 4) s_one_a = Ok b s' /\
     b = NULL /\ s' = s_one_a).
Proof.
  split.
  - destruct (X21_extend_heap_appends s_abc 4096) as (b & s' & E & H).
    + apply reachable_heap_ok, reach_s_abc. unfold max_request. lia.
    + lia.
    + reflexivity.
    + eval_test H. cbv zeta in H. destruct H as (_ & H1 & H2 & H3 & _).
      assert (Eb : b = 4248) by (rewrite H2; vm_compute; reflexivity).
      subst b. exists s'. split; [exact E|]. split; [exact H1|].
      rewrite H3, H1. vm_compute. reflexivity.
  - destruct (X21_extend_heap_appends s_one_a 4096 heap_ok_s_one_a)
      as (b & s' & E & H); [lia | reflexivity |].
    eval_test H. exists b, s'. split; [exact E | exact H].
Defined.

(** ** Maximal free blocks *)

Lemma adjacent_free_split l1 l2 :
  adjacent_free (l1 ++ [false] ++ l2) = false ->
  adjacent_free (l1 ++ [true; false] ++ l2) = false /\
  adjacent_free (l1 ++ [true] ++ l2) = false.
Proof.
  rewrite !adjacent_free_app. cbn [app hd negb andb].
  rewrite ?adjacent_free_cons. cbn [hd negb andb orb].
  rewrite ?adjacent_free_cons. cbn [hd negb andb orb].
  destruct (adjacent_free l1), (adjacent_free l2), (last l1 true),
    (hd true l2); cbn; intros H; try discriminate H; auto.
Qed.

Lemma adjacent_free_snoc_alloc l :
  adjacent_free l = false -> adjacent_free (l ++ [true] ++ []) = false.
Proof.
  intros H. rewrite adjacent_free_app, H. cbn. now rewrite andb_false_r.
Qed.

Lemma mm_malloc_no_adjacent s bl idx n :
  rep s bl idx -> complete (FreeBlocks s + 80) bl idx ->
  0 < n <= 2 ^ 32 - 16 ->
  adjacent_free (map snd bl) = false ->
  wp (mm_malloc n) (fun _ s' => no_adjacent_free s') s.
Proof.
  intros R Hc Hn NA. pose proof R as (L & I & [N1 N2]).
  pose proof (round_size_spec n Hn) as (A1 & A2 & A3).
  unfold mm_malloc.
  replace (n <=? 0) with false by (symmetry; apply Z.leb_gt; lia).
  set (asize := round_size n) in *.
  apply wp_bind. unfold wp at 1. rewrite (find_fit_spec s bl idx asize R).
  eexists _, _. split; [reflexivity|].
  destruct (find_fit_result s bl idx asize R Hc ltac:(lia))
    as (p0 & E0 & _ & Hfit).
  rewrite (find_fit_spec s bl idx asize R) in E0.
  apply Ok_inj in E0. destruct E0 as [E0 _]. rewrite E0. clear E0.
  destruct (Z.eq_dec p0 NULL) as [->|Hp0].
  - cbn [NULL Z.eqb negb].
    set (G := MAX asize CHUNKSIZE).
    assert (Hsz : 16 <= G < 2 ^ 32 /\ G mod 8 = 0 /\ asize <= G).
    { unfold G, MAX, CHUNKSIZE. change (Z.shiftl 1 12) with 4096.
      destruct (Z.gtb_spec asize 4096); lia. }
    destruct Hsz as (Z1 & Z2 & Z3). unfold WSIZE.
    apply wp_bind.
    eapply wp_mono; [eapply (extend_heap_spec s bl idx G); eauto|].
    intros b s1 [(-> & -> & HF)|(Hlt & Hmax & HE)]; cbv beta.
    + cbn [NULL Z.eqb]. apply wp_ret. unfold no_adjacent_free.
      now rewrite (heap_blocks_rep _ _ _ R), map_snd_blist.
    + pose proof (coalesce_prev_shape bl (lay_sizes _ _ L)) as HPs.
      pose proof (coalesce_no_adjacent bl G [] (lay_sizes _ _ L)
                    ltac:(intros z al [])) as HK.
      rewrite map_app in HK.
      specialize (HK (adjacent_free_snoc_alloc _ NA)).
      change (coalesce_next []) with (@nil (Z * bool), 0) in HK.
      destruct (coalesce_prev bl) as [l1' psz]. cbv zeta in HE.
      cbv iota beta in HK. replace (psz + G + 0) with (psz + G) in HK by lia.
      destruct HE as (B1 & B2 & R1 & C1 & G1 & F1).
      pose proof G1 as (Q1 & Q2 & Q3 & Q4 & Q5 & Q6).
      assert (Hb0 : b <> 0).
      { pose proof (lay_pos _ _ L).
        assert (0 <= total l1').
        { apply total_nonneg. pose proof (lay_sizes _ _ (proj1 R1)) as S.
          apply sizes_ok_app in S. tauto. }
        lia. }
      replace (b =? NULL) with false by (symmetry; apply Z.eqb_neq; auto).
      apply wp_bind.
      match type of R1 with
      | rep _ _ ?i =>
          pose proof (place_complete s1 i l1' (psz + G) [] asize) as HP
      end.
      cbv zeta in HP. rewrite Q5, <- B2 in HP.
      assert (Hps : 0 <= psz) by (destruct HPs as [[-> _]|[? _]]; lia).
      eapply wp_mono; [apply HP|]; clear HP.
      * exact R1.
      * exact C1.
      * lia.
      * exact A2.
      * intros u s2 (SR2 & bl' & idx' & R2 & _ & _ & Ebl & _). cbv beta.
        apply wp_ret. unfold no_adjacent_free.
        rewrite (heap_blocks_rep _ _ _ R2), map_snd_blist, Ebl.
        rewrite !map_app in HK. cbn [map snd] in HK.
        destruct (adjacent_free_split _ _ HK) as [K1 K2].
        destruct (psz + G - asize >=? 16); rewrite !map_app; cbn [map snd];
          assumption.
  - destruct (Hfit Hp0) as (csz & Hb & Hle).
    replace (p0 =? NULL) with false by (symmetry; apply Z.eqb_neq; exact Hp0).
    cbn [negb]. apply wp_bind.
    destruct (blist_In_split _ _ _ _ _ Hb) as (l1 & l2 & El & Ebp).
    pose proof (place_complete s idx l1 csz l2 asize) as HP.
    cbv zeta in HP. rewrite <- Ebp in HP.
    change ((csz, false) :: l2) with ([(csz, false)] ++ l2) in El.
    rewrite <- El in HP.
    eapply wp_mono; [apply HP; auto; lia|]; clear HP.
    intros u s2 (SR2 & bl' & idx' & R2 & _ & _ & Ebl & _). cbv beta.
    apply wp_ret. unfold no_adjacent_free.
    rewrite (heap_blocks_rep _ _ _ R2), map_snd_blist, Ebl.
    rewrite El, !map_app in NA. cbn [map snd] in NA.
    destruct (adjacent_free_split _ _ NA) as [K1 K2].
    destruct (csz - asize >=? 16); rewrite !map_app; cbn [map snd];
      assumption.
Qed.

(** X22.  [mm_malloc] keeps the free blocks maximal: from a state that
    satisfies the heap invariant and has no two adjacent free blocks, a
    call with [0 < n <= 2^32 - 16] ends in a state with no two adjacent
    free blocks, whether it splits a free block, takes one whole, or
    extends the heap. *)
Theorem X22_malloc_keeps_maximal s n p s' :
  heap_ok s -> no_adjacent_free s -> 0 < n <= max_request ->
  mm_malloc n s = Ok p s' -> no_adjacent_free s'.
Proof.
  intros (bl & idx & R & C) NA Hn E. unfold max_request in Hn.
  unfold no_adjacent_free in NA.
  rewrite (heap_blocks_rep _ _ _ R), map_snd_blist in NA.
  exact (wp_result _ _ _ _ _ (mm_malloc_no_adjacent s bl idx n R C Hn NA) E).
Qed.

Lemma X22_malloc_keeps_maximal_witness :
  no_adjacent_free s_bd /\
  no_adjacent_free (state_of (mm_malloc 5000 s_bd) s_fresh).
Proof.
  assert (NA : no_adjacent_free s_bd) by (vm_compute; reflexivity).
  split; [exact NA|].
  assert (Ev : value_of (mm_malloc 5000 s_bd) <> None)
    by (vm_compute; intros Q; discriminate Q).
  destruct (mm_malloc 5000 s_bd) as [p s'|e] eqn:E;
    [|now destruct Ev].
  apply (X22_malloc_keeps_maximal s_bd 5000 p s').
  - apply reachable_heap_ok, reach_s_bd. unfold max_request. lia.
  - exact NA.
  - unfold max_request. lia.
  - exact E.
Defined.

(** X23.  [mm_realloc p n] is a no-op when the rounded request fits the
    block with less than 16 bytes to spare: it returns [p] and leaves the
    whole state, memory included, as it was. *)
Theorem X23_realloc_within_slack_is_noop s p n :
  heap_ok s -> is_live s p = true -> 0 < n <= max_request ->
  let old := size_of_word (mem s (p - 4)) in
  round_size n <= old < round_size n + 16 ->
  mm_realloc p n s = Ok p s.
Proof.
  intros (bl & idx & R & C) Hl Hn old0 Hr. unfold max_request in Hn.
  destruct (live_split s bl idx p R Hl) as (l1 & old & l2 & -> & ->).
  assert (Hb : In (FreeBlocks s + 80 + total l1, old, true)
                 (blist (FreeBlocks s + 80) (l1 ++ [(old, true)] ++ l2))).
  { apply blist_In_app3. right. left. now left. }
  pose proof (block_facts _ _ _ _ _ (proj1 R) Hb) as (G & B & Th & _).
  assert (Eo : old0 = old) by (unfold old0; rewrite Th, size_of_tag; lia).
  rewrite Eo in *. clear Eo old0.
  destruct (Z.eq_dec (round_size n) old) as [Heq|Hne].
  - exact (mm_realloc_same s idx l1 l2 old n R ltac:(lia) Heq).
  - exact (mm_realloc_shrink_keep s idx l1 l2 old n R ltac:(lia) ltac:(lia)
             ltac:(lia)).
Qed.

Lemma X23_realloc_within_slack_is_noop_witness :
  mm_realloc 4176 9 s_abc = Ok 4176 s_abc.
Proof.
  apply (X23_realloc_within_slack_is_noop s_abc 4176 9).
  - apply reachable_heap_ok, reach_s_abc. unfold max_request. lia.
  - vm_compute. reflexivity.
  - unfold max_request. lia.
  - vm_compute. split; [intros Q; discriminate Q | reflexivity].
Defined.

(** ** Properties for bounded requests *)

(** X24.  In every state reached from [mm_init] by allocations,
    releases of live blocks and resizes of live blocks, with requests of at
    most [max_request] = 2^32 - 16 bytes (those whose rounding to a block
    size does not wrap around), the index agrees with the headers: every
    bucket is a finite list without repetition, hence acyclic; a block of
    the heap is linked if and only if its allocated bit is 0; and a linked
    block is in the bucket of its size class and in no other. *)
Theorem X24_index_consistent_bounded s :
  reachable s ->
  index_consistent s /\
  forall a sz al, In (a, sz, al) (heap_blocks s) ->
    ((exists k, 0 <= k < 17 /\ In a (buckets s k)) <-> al = false) /\
    (forall k, 0 <= k < 17 -> In a (buckets s k) -> k = size_class_of sz).
Proof.
  intros Hr. pose proof (reachable_heap_ok s Hr) as H.
  split; [apply heap_ok_index_consistent; exact H|].
  destruct H as (bl & idx & R & C). pose proof R as (L & I & [N1 N2]).
  rewrite (heap_blocks_rep s bl idx R).
  intros a sz al Ha.
  assert (Hnode : forall k, 0 <= k < 17 -> In a (buckets s k) ->
                            al = false /\ k = size_class_of sz).
  { intros k Hk Hi. rewrite (buckets_rep s bl idx k R Hk) in Hi.
    destruct (N1 k a Hk Hi) as (z & Hz & Hc).
    pose proof (blist_In_sizes _ _ _ _ _ (lay_sizes _ _ L) Ha).
    pose proof (blist_In_sizes _ _ _ _ _ (lay_sizes _ _ L) Hz).
    destruct (blist_In_disjoint _ _ _ _ _ _ _ _ (lay_sizes _ _ L) Ha Hz)
      as [(_ & -> & ->)|D]; [auto | lia]. }
  split; [split|].
  - intros (k & Hk & Hi). apply (Hnode k Hk Hi).
  - intros ->. exists (size_class_of sz).
    pose proof (size_class_of_range sz) as Hk. split; [exact Hk|].
    rewrite (buckets_rep s bl idx _ R Hk). apply C. exact Ha.
  - intros k Hk Hi. apply (Hnode k Hk Hi).
Qed.

Lemma X24_index_consistent_bounded_witness :
  reachable s_bd /\ index_consistent s_bd.
Proof.
  split; [apply reach_s_bd; unfold max_request; lia|].
  apply (X24_index_consistent_bounded s_bd).
  apply reach_s_bd. unfold max_request. lia.
Defined.

(** X25.  [mm_realloc p n] on an allocated block of size [old], for a request
    [n] with [old < n <= 2^32 - 16].  When the header after the block has
    the allocated bit 0 and its size [nsz] gives [round_size n <= nsz + old],
    the call unlinks that neighbour, writes header and footer of [p] with
    the size [old + nsz] and returns [p], the payload untouched.  Otherwise
    [mm_malloc n] is called, and when it returns a block [q], the [old - 8]
    bytes of the old payload, the smaller of the two payloads, are copied
    to [q], [p] is released with [mm_free] and [q] is returned. *)
Theorem X25_resize_grows_in_place_or_moves s idx l1 old l2 n :
  let first := FreeBlocks s + 80 in
  let p := first + total l1 in
  let bl := l1 ++ [(old, true)] ++ l2 in
  rep s bl idx -> complete first bl idx ->
  old < n <= max_request ->
  let nw := mem s (p + old - 4) in
  let nsz := size_of_word nw in
  if (alloc_of_word nw =? 0) && (round_size n <=? nsz + old) then
    exists s',
      mm_realloc p n s = Ok p s' /\
      heap_blocks s' = blist first (l1 ++ [(old + nsz, true)] ++ tl l2) /\
      (forall k, 0 <= k < 17 ->
         buckets s' k = remove Z.eq_dec (p + old) (buckets s k)) /\
      (forall x, p <= x < p + old - 8 -> mem s' x = mem s x)
  else
    exists q s1,
      mm_malloc n s = Ok q s1 /\
      (q <> NULL ->
        exists s2 s',
          memcpy q p (old - 8) s1 = Ok tt s2 /\
          old - 8 = Z.min (old - 8) (round_size n - 8) /\
          mm_free p s2 = Ok tt s' /\
          mm_realloc p n s = Ok q s' /\
          (forall x, q <= x < q + (old - 8) -> mem s' x = mem s (x - q + p)) /\
          is_live s' q = true /\ is_live s' p = false /\ heap_ok s').
Proof.
  intros first p bl R C Hn nw nsz. unfold max_request in Hn.
  pose proof (lay_sizes _ _ (proj1 R)) as SZ.
  apply sizes_ok_app in SZ. destruct SZ as [S1 SZ].
  apply sizes_ok_app in SZ. destruct SZ as [SX S2].
  apply sizes_ok_cons in SX. destruct SX as [[Ho _] _].
  assert (Hn' : 0 < n <= 2 ^ 32 - 16) by lia.
  pose proof (round_size_spec n Hn') as (A1 & A2 & A3).
  destruct (neighbour_words s l1 old true l2 (proj1 R)) as (_ & (N1 & N2)).
  fold first p nw in N1, N2. fold nsz in N2.
  destruct ((alloc_of_word nw =? 0) && (round_size n <=? nsz + old))
    eqn:Ecase.
  - apply andb_true_iff in Ecase. destruct Ecase as [Ea Ef].
    rewrite Ea in N1. cbn [negb] in N1.
    pose proof (next_free_shape l2 N1) as El2. rewrite N2 in El2.
    destruct (mm_realloc_grow_in_place s idx l1 l2 old n R C nsz (tl l2)
                ltac:(lia) ltac:(lia) El2 ltac:(lia))
      as (q & s' & E & -> & SR & R' & _ & F & _).
    fold first p in E, R', F.
    exists s'. split; [exact E|].
    destruct SR as (_ & _ & _ & _ & Q5 & _).
    split; [rewrite (heap_blocks_rep _ _ _ R'), Q5; reflexivity|].
    split; [|exact F].
    intros k Hk. rewrite (buckets_rep _ _ _ _ R' Hk). unfold idx_remove.
    now rewrite (buckets_rep _ _ _ _ R Hk).
  - assert (Hmove : snd (next_blk l2) = true \/
                    fst (next_blk l2) + old < round_size n).
    { rewrite N1, N2. apply andb_false_iff in Ecase.
      destruct Ecase as [Ea|Ef]; [left; now rewrite Ea | right; lia]. }
    destruct (mm_malloc_spec s bl idx n R C Hn')
      as (q & s1 & EM & [[-> ->]|(Hq & _)]).
    + exists NULL, s. split; [exact EM|]. intros Hq. now destruct Hq.
    + exists q, s1. split; [exact EM|]. intros _.
      destruct (mm_realloc_move s idx l1 l2 old n R C q s1 Hn' ltac:(lia)
                  Hmove EM Hq)
        as (r & s' & E & -> & RL & bl' & idx' & R' & C' & (z & Hin & _) &
            Hnot & Hcopy & _).
      pose proof E as E0.
      rewrite (mm_realloc_grow_enter s idx l1 l2 old n R ltac:(lia)
                 ltac:(lia) Hmove) in E0.
      fold first p in E, E0, Hnot, Hcopy, Hin, C'.
      unfold bind at 1 in E0. rewrite EM in E0.
      destruct (move_steps _ _ _ _ _ _ E0) as (s2 & Ec & Efr & _).
      destruct RL as (_ & _ & _ & _ & Q5 & _).
      exists s2, s'. split; [exact Ec|]. split; [lia|].
      split; [exact Efr|]. split; [exact E|]. split; [exact Hcopy|].
      split; [|split].
      * apply (is_live_rep s' bl' idx' q R'). exists z. now rewrite Q5.
      * destruct (is_live s' p) eqn:El; [|reflexivity]. exfalso.
        apply (is_live_rep s' bl' idx' p R') in El. destruct El as (z' & Hz').
        rewrite Q5 in Hz'. exact (Hnot z' Hz').
      * exists bl', idx'. rewrite Q5. split; assumption.
Qed.

(* in [s_abc] the block at 4224 is followed by the free block of 4024 bytes
   and grows in place; the block at 4176 is followed by an allocated block
   and moves to 4248 *)
Lemma X25_resize_grows_in_place_or_moves_witness :
  heap_blocks s_abc =
    [(4176, 24, true); (4200, 24, true); (4224, 24, true);
     (4248, 4024, false)] /\
  (exists s', mm_realloc 4224 100 s_abc = Ok 4224 s' /\
     heap_blocks s' =
       [(4176, 24, true); (4200, 24, true); (4224, 4048, true)]) /\
  (exists s', mm_realloc 4176 100 s_abc = Ok 4248 s' /\
     is_live s' 4248 = true /\ is_live s' 4176 = false).
Proof.
  assert (HB : heap_blocks s_abc =
    [(4176, 24, true); (4200, 24, true); (4224, 24, true);
     (4248, 4024, false)]) by (vm_compute; reflexivity).
  split; [exact HB|].
  assert (H : heap_ok s_abc).
  { apply (reachable_heap_ok s_abc). apply reach_s_abc. unfold max_request. lia. }
  destruct H as (bl & idx & R & C).
  assert (Eb : bl = [(24, true); (24, true); (24, true); (4024, false)]).
  { rewrite <- (blist_strip (FreeBlocks s_abc + 80) bl).
    rewrite <- (heap_blocks_rep _ _ _ R), HB. reflexivity. }
  subst bl. split.
  - pose proof (X25_resize_grows_in_place_or_moves s_abc idx
                  [(24, true); (24, true)] 24 [(4024, false)] 100 R C
                  ltac:(unfold max_request; lia)) as H.
    eval_test H. destruct H as (s' & E & HB' & _).
    exists s'. split; [exact E|]. rewrite HB'. vm_compute. reflexivity.
  - pose proof (X25_resize_grows_in_place_or_moves s_abc idx
                  [] 24 [(24, true); (24, true); (4024, false)] 100 R C
                  ltac:(unfold max_request; lia)) as H.
    eval_test H. destruct H as (q & s1 & EM & H).
    assert (EM' : mm_malloc 100 s_abc = Ok 4248 s_abc_big)
      by (vm_compute; reflexivity).
    rewrite EM' in EM. apply Ok_inj in EM. destruct EM as [<- <-].
    destruct (H ltac:(discriminate))
      as (s2 & s' & _ & _ & _ & E & _ & L1 & L2 & _).
    exists s'. split; [exact E|]. split; [exact L1|exact L2].
Defined.
